(** * Today Desk: the planning core of the planner page

    A shallow embedding of the pure functions of the day planner
    ([parseTimeToMinutes], [parseEvents], [computeFreeSlots],
    [minutesToLabel], [buildPlan] and the [overloadMessage] derivation),
    followed by the properties stated about them.

    Conventions.
    - Minute counts are JavaScript numbers holding integers; they are
      modelled in [Z].  A JavaScript number is a double: its sums and
      differences, and [Math.floor] of its quotient by 60, are those of
      [Z] as long as the operands and the result are integers of
      magnitude below [2^53] ([safeInteger]), and it prints all its
      digits below [10^21].  The
      definitions below are the code on that range; every general
      property that rests on such arithmetic assumes the range.
    - A JavaScript string is its sequence of UTF-16 code units, each a
      number in [N]; [js] turns an ASCII literal into such a sequence.
    - [array.push x] is [arr ++ [x]]; a [for ... of] loop is a left fold
      over the array; the [while] loop of [buildPlan] is a fuelled
      fixpoint whose fuel is shown to be sufficient. *)

From Stdlib Require Import ZArith List Bool Lia String Ascii Sorted Permutation.
From Stdlib Require Decimal DecimalZ.
Import ListNotations.
Local Open Scope Z_scope.

(* ================================================================= *)
(** * Strings *)

Definition jsstring : Type := list N.

Definition js (s : string) : jsstring :=
  map N_of_ascii (list_ascii_of_string s).

(** [!s] on a string: only the empty string is falsy. *)
Definition isEmpty (s : jsstring) : bool :=
  match s with [] => true | _ :: _ => false end.

(** ECMAScript [LineTerminator]: LF, CR, LS, PS. *)
Definition isLineTerminator (c : N) : bool :=
  ((c =? 10) || (c =? 13) || (c =? 8232) || (c =? 8233))%N.

(** ECMAScript [WhiteSpace]: TAB, VT, FF, ZWNBSP and the space separators. *)
Definition isWhiteSpace (c : N) : bool :=
  ((c =? 9) || (c =? 11) || (c =? 12) || (c =? 32) || (c =? 160)
   || (c =? 5760) || ((8192 <=? c) && (c <=? 8202))
   || (c =? 8239) || (c =? 8287) || (c =? 12288) || (c =? 65279))%N.

(** The class [\s] of a regular expression, also what [trim] strips. *)
Definition isSpace (c : N) : bool := isWhiteSpace c || isLineTerminator c.

(** The class [\d]. *)
Definition isDigit (c : N) : bool := ((48 <=? c) && (c <=? 57))%N.

(** The class [.] (no [s] flag): anything but a line terminator. *)
Definition isDot (c : N) : bool := negb (isLineTerminator c).

Definition isChar (d : N) (c : N) : bool := (c =? d)%N.

Definition COLON : N := 58.
Definition HYPHEN : N := 45.
Definition PLUS_SIGN : N := 43.
Definition LF : N := 10.

Fixpoint trimStart (s : jsstring) : jsstring :=
  match s with
  | c :: s' => if isSpace c then trimStart s' else s
  | [] => []
  end.

Definition trimEnd (s : jsstring) : jsstring :=
  List.rev (trimStart (List.rev s)).

(** [String.prototype.trim]. *)
Definition trim (s : jsstring) : jsstring := trimEnd (trimStart s).

(** [text.split("\n")]. *)
Fixpoint splitLines (s : jsstring) : list jsstring :=
  match s with
  | [] => [[]]
  | c :: s' =>
      if (c =? LF)%N then [] :: splitLines s'
      else match splitLines s' with
           | l :: ls => (c :: l) :: ls
           | [] => [[c]]
           end
  end.

(* ================================================================= *)
(** * Regular expressions

    The three regular expressions of the source are built from single
    code-unit classes, concatenation, a greedy optional item, a greedy
    star over a class, and capture groups.  [exec] is a backtracking
    matcher: it lists every way the expression can match a prefix of the
    input, in the order a backtracking engine tries them (greedy
    alternatives first). *)

Inductive regex : Type :=
| One (p : N -> bool)
| Cat (r1 r2 : regex)
| Opt (r : regex)
| Star (p : N -> bool)
| Group (r : regex).

(** One way of matching: the text matched, the groups captured inside it
    (in order of their opening parenthesis) and the rest of the input. *)
Definition attempt : Type := (jsstring * list jsstring * jsstring)%type.

Fixpoint execStar (p : N -> bool) (s : jsstring) : list attempt :=
  match s with
  | c :: s' =>
      if p c
      then map (fun a : attempt => let '(m, g, rest) := a in (c :: m, g, rest))
               (execStar p s') ++ [([], [], s)]
      else [([], [], s)]
  | [] => [([], [], [])]
  end.

Fixpoint exec (r : regex) (s : jsstring) : list attempt :=
  match r with
  | One p =>
      match s with
      | c :: s' => if p c then [([c], [], s')] else []
      | [] => []
      end
  | Cat r1 r2 =>
      flat_map
        (fun a1 : attempt =>
           let '(m1, g1, s1) := a1 in
           map (fun a2 : attempt =>
                  let '(m2, g2, s2) := a2 in (m1 ++ m2, g1 ++ g2, s2))
               (exec r2 s1))
        (exec r1 s)
  | Opt r1 => exec r1 s ++ [([], [], s)]
  | Star p => execStar p s
  | Group r1 =>
      map (fun a : attempt => let '(m, g, rest) := a in (m, m :: g, rest))
          (exec r1 s)
  end.

(** [s.match(/^r$/)]: the captures of the first attempt that consumes the
    whole input, or [None] for [null]. *)
Definition regexMatch (r : regex) (s : jsstring) : option (list jsstring) :=
  match filter (fun a : attempt => isEmpty (snd a)) (exec r s) with
  | (_, g, _) :: _ => Some g
  | [] => None
  end.

Definition Plus (p : N -> bool) : regex := Cat (One p) (Star p).

(** [\d{1,2}] and [\d{2}]. *)
Definition digits12 : regex := Cat (One isDigit) (Opt (One isDigit)).
Definition digits2 : regex := Cat (One isDigit) (One isDigit).

(** [/^(\d{1,2}):(\d{2})$/] *)
Definition timeRegex : regex :=
  Cat (Group digits12) (Cat (One (isChar COLON)) (Group digits2)).

(** [\d{1,2}:\d{2}] *)
Definition timeToken : regex :=
  Cat digits12 (Cat (One (isChar COLON)) digits2).

(** [/^(\d{1,2}:\d{2})\s*-\s*(\d{1,2}:\d{2})\s+(.+)$/] *)
Definition rangeRegex : regex :=
  Cat (Group timeToken)
   (Cat (Star isSpace)
     (Cat (One (isChar HYPHEN))
       (Cat (Star isSpace)
         (Cat (Group timeToken)
           (Cat (Plus isSpace) (Group (Plus isDot))))))).

(** [/^(\d{1,2}:\d{2})\s+(.+)$/] *)
Definition singleRegex : regex :=
  Cat (Group timeToken) (Cat (Plus isSpace) (Group (Plus isDot))).

(* ================================================================= *)
(** * Numbers and their text *)

Definition digitValue (c : N) : Z := Z.of_N c - 48.

Definition decimalValue (ds : jsstring) : Z :=
  fold_left (fun acc c => acc * 10 + digitValue c) ds 0.

Fixpoint takeDigits (s : jsstring) : jsstring :=
  match s with
  | c :: s' => if isDigit c then c :: takeDigits s' else []
  | [] => []
  end.

(** [parseInt(s, 10)]: leading white space, an optional sign, then the
    longest run of digits; [None] stands for [NaN]. *)
Definition parseInt10 (s : jsstring) : option Z :=
  let s1 := trimStart s in
  let '(sign, s2) :=
    match s1 with
    | c :: r =>
        if (c =? HYPHEN)%N then (-1, r)
        else if (c =? PLUS_SIGN)%N then (1, r)
        else (1, s1)
    | [] => (1, s1)
    end in
  match takeDigits s2 with
  | [] => None
  | ds => Some (sign * decimalValue ds)
  end.

Fixpoint uintUnits (d : Decimal.uint) : jsstring :=
  match d with
  | Decimal.Nil => []
  | Decimal.D0 d' => 48%N :: uintUnits d'
  | Decimal.D1 d' => 49%N :: uintUnits d'
  | Decimal.D2 d' => 50%N :: uintUnits d'
  | Decimal.D3 d' => 51%N :: uintUnits d'
  | Decimal.D4 d' => 52%N :: uintUnits d'
  | Decimal.D5 d' => 53%N :: uintUnits d'
  | Decimal.D6 d' => 54%N :: uintUnits d'
  | Decimal.D7 d' => 55%N :: uintUnits d'
  | Decimal.D8 d' => 56%N :: uintUnits d'
  | Decimal.D9 d' => 57%N :: uintUnits d'
  end.

(** The text a template literal [`${n}`] gives an integer of magnitude
    below [10^21] (beyond it JavaScript switches to exponent notation):
    its decimal digits, with a minus sign when negative. *)
Definition numberToString (z : Z) : jsstring :=
  match Z.to_int z with
  | Decimal.Pos d => uintUnits d
  | Decimal.Neg d => HYPHEN :: uintUnits d
  end.

(* ================================================================= *)
(** * Data model *)

Inductive TaskContext : Type := deep | admin | calls | errands | other.

Inductive ReviewStatus : Type :=
| rs_none | rs_done | rs_delayed | rs_canceled | rs_moved | rs_other.

Module ParsedTask.
Record t : Type := mk {
  id : Z;
  title : jsstring;
  include : bool;
  durationMinutes : Z;
  isImportant : bool;
  context : TaskContext;
  reviewStatus : option ReviewStatus;
  reviewNote : option jsstring
}.
End ParsedTask.

Module ParsedEvent.
Record t : Type := mk {
  title : jsstring;
  startMinutes : Z;
  endMinutes : Z
}.
End ParsedEvent.

Module FreeSlot.
Record t : Type := mk {
  startMinutes : Z;
  endMinutes : Z
}.
End FreeSlot.

Module PlannedBlock.
Record t : Type := mk {
  taskTitle : jsstring;
  startMinutes : Z;
  endMinutes : Z;
  isImportant : bool;
  context : TaskContext
}.
End PlannedBlock.

(* ================================================================= *)
(** * parseTimeToMinutes *)

Definition parseTimeToMinutes (value : jsstring) : option Z :=
  let trimmed := trim value in
  if isEmpty trimmed then None
  else
    match regexMatch timeRegex trimmed with
    | Some [g1; g2] =>
        match parseInt10 g1, parseInt10 g2 with
        | Some hours, Some minutes =>
            if (hours <? 0) || (23 <? hours) || (minutes <? 0) || (59 <? minutes)
            then None
            else Some (hours * 60 + minutes)
        | _, _ => None
        end
    | _ => None
    end.

(* ================================================================= *)
(** * parseEvents *)

(** The body of the [for (const rawLine of lines)] loop: the events the
    line pushes (none or one). *)
Definition parseLine (workStart workEnd : Z) (rawLine : jsstring)
  : list ParsedEvent.t :=
  let line := trim rawLine in
  if isEmpty line then []
  else
    match regexMatch rangeRegex line with
    | Some [g1; g2; g3] =>
        let title := trim g3 in
        match parseTimeToMinutes g1, parseTimeToMinutes g2 with
        | Some start, Some end_ =>
            if isEmpty title then []
            else
              let clampedStart := Z.max start workStart in
              let clampedEnd := Z.min end_ workEnd in
              if clampedStart <? clampedEnd
              then [ParsedEvent.mk title clampedStart clampedEnd]
              else []
        | _, _ => []
        end
    | Some _ => []
    | None =>
        match regexMatch singleRegex line with
        | Some [g1; g2] =>
            let title := trim g2 in
            match parseTimeToMinutes g1 with
            | Some start =>
                if isEmpty title then []
                else
                  let defaultEnd := start + 30 in
                  let clampedStart := Z.max start workStart in
                  let clampedEnd := Z.min defaultEnd workEnd in
                  if clampedStart <? clampedEnd
                  then [ParsedEvent.mk title clampedStart clampedEnd]
                  else []
            | None => []
            end
        | _ => []
        end
    end.

(** [events.sort((a, b) => a.startMinutes - b.startMinutes)]: a stable
    sort by start time. *)
Fixpoint insertByStart (e : ParsedEvent.t) (l : list ParsedEvent.t)
  : list ParsedEvent.t :=
  match l with
  | [] => [e]
  | x :: xs =>
      if ParsedEvent.startMinutes e <=? ParsedEvent.startMinutes x
      then e :: l
      else x :: insertByStart e xs
  end.

Definition sortByStart (l : list ParsedEvent.t) : list ParsedEvent.t :=
  fold_right insertByStart [] l.

Definition parseEvents (calendarText : jsstring) (workStart workEnd : Z)
  : list ParsedEvent.t :=
  let lines := splitLines calendarText in
  let events :=
    fold_left (fun events rawLine => events ++ parseLine workStart workEnd rawLine)
              lines [] in
  sortByStart events.

(* ================================================================= *)
(** * computeFreeSlots *)

(** One turn of the [for (const event of events)] loop on the pair
    [(slots, cursor)]. *)
Definition freeSlotStep (st : list FreeSlot.t * Z) (event : ParsedEvent.t)
  : list FreeSlot.t * Z :=
  let '(slots, cursor) := st in
  let slots' :=
    if cursor <? ParsedEvent.startMinutes event
    then slots ++ [FreeSlot.mk cursor (ParsedEvent.startMinutes event)]
    else slots in
  (slots', Z.max cursor (ParsedEvent.endMinutes event)).

Definition computeFreeSlots (events : list ParsedEvent.t)
  (workStart workEnd : Z) : list FreeSlot.t :=
  let '(slots, cursor) := fold_left freeSlotStep events ([], workStart) in
  if cursor <? workEnd
  then slots ++ [FreeSlot.mk cursor workEnd]
  else slots.

(* ================================================================= *)
(** * minutesToLabel

    [Math.floor(totalMinutes / 60)] is the floor division of [Z] for an
    integer of magnitude below [2^53]: the quotient is then below [2^48],
    where a double is within [2^-6] of the real quotient, less than the
    [1/60] that separates it from the next integer. *)

Definition minutesToLabel (totalMinutes : Z) : jsstring :=
  let h := totalMinutes / 60 in
  let m := Z.rem totalMinutes 60 in
  if h =? 0 then numberToString m ++ js "m"
  else if m =? 0 then numberToString h ++ js "h"
  else numberToString h ++ js "h " ++ numberToString m ++ js "m".

(* ================================================================= *)
(** * buildPlan *)

(** The variables of [buildPlan] that live across tasks. *)
Record PlanState : Type := mkPlanState {
  blocks : list PlannedBlock.t;
  remainingTasks : list ParsedTask.t;
  slotIndex : nat;
  currentSlot : option FreeSlot.t;
  slotCursor : Z
}.

(** One turn of the body of [while (remaining > 0 && currentSlot)],
    entered with [currentSlot = slot].  The difference and the sums are
    those of the code when they are safe integers, which
    [whileBody_exact] shows them to be for safe slots and durations. *)
Definition whileBody (freeSlots : list FreeSlot.t) (task : ParsedTask.t)
  (slot : FreeSlot.t) (st : PlanState) (remaining : Z) : PlanState * Z :=
  if FreeSlot.endMinutes slot <=? slotCursor st then
    let slotIndex' := S (slotIndex st) in
    let currentSlot' := nth_error freeSlots slotIndex' in
    let slotCursor' :=
      match currentSlot' with
      | Some s => FreeSlot.startMinutes s
      | None => slotCursor st
      end in
    (mkPlanState (blocks st) (remainingTasks st) slotIndex' currentSlot' slotCursor',
     remaining)
  else
    let available := FreeSlot.endMinutes slot - slotCursor st in
    let used := Z.min available remaining in
    let blockStart := slotCursor st in
    let blockEnd := blockStart + used in
    (mkPlanState
       (blocks st ++
        [PlannedBlock.mk (ParsedTask.title task) blockStart blockEnd
           (ParsedTask.isImportant task) (ParsedTask.context task)])
       (remainingTasks st) (slotIndex st) (currentSlot st) blockEnd,
     remaining - used).

(** The [while] loop; [fuel] bounds the number of turns. *)
Fixpoint whileLoop (fuel : nat) (freeSlots : list FreeSlot.t)
  (task : ParsedTask.t) (st : PlanState) (remaining : Z) : PlanState * Z :=
  match fuel with
  | O => (st, remaining)
  | S fuel' =>
      match currentSlot st with
      | Some slot =>
          if 0 <? remaining then
            let '(st', remaining') := whileBody freeSlots task slot st remaining in
            whileLoop fuel' freeSlots task st' remaining'
          else (st, remaining)
      | None => (st, remaining)
      end
  end.

(** Two turns per free slot are enough for one task (see
    [whileLoop_fuel]). *)
Definition loopFuel (freeSlots : list FreeSlot.t) : nat :=
  2 * List.length freeSlots.

Definition pushUnscheduled (st : PlanState) (task : ParsedTask.t) : PlanState :=
  mkPlanState (blocks st) (remainingTasks st ++ [task])
              (slotIndex st) (currentSlot st) (slotCursor st).

(** One turn of [for (const task of tasks)]. *)
Definition taskStep (freeSlots : list FreeSlot.t) (st : PlanState)
  (task : ParsedTask.t) : PlanState :=
  if negb (ParsedTask.include task) || (ParsedTask.durationMinutes task <=? 0)
  then pushUnscheduled st task
  else
    let '(st', remaining) :=
      whileLoop (loopFuel freeSlots) freeSlots task st
                (ParsedTask.durationMinutes task) in
    if 0 <? remaining then pushUnscheduled st' task else st'.

Definition initialState (freeSlots : list FreeSlot.t) : PlanState :=
  let slotIndex := O in
  let currentSlot := nth_error freeSlots slotIndex in
  let slotCursor :=
    match currentSlot with
    | Some s => FreeSlot.startMinutes s
    | None => 0
    end in
  mkPlanState [] [] slotIndex currentSlot slotCursor.

Definition runTasks (freeSlots : list FreeSlot.t) (st : PlanState)
  (tasks : list ParsedTask.t) : PlanState :=
  fold_left (taskStep freeSlots) tasks st.

Record Plan : Type := mkPlan {
  plan_blocks : list PlannedBlock.t;
  unscheduled : list ParsedTask.t
}.

Definition buildPlan (freeSlots : list FreeSlot.t) (tasks : list ParsedTask.t)
  : Plan :=
  let st := runTasks freeSlots (initialState freeSlots) tasks in
  mkPlan (blocks st) (remainingTasks st).

(* ================================================================= *)
(** * Totals and the overload message

    The sums of [reduce] and the difference [diff] are those of the code
    when the totals are safe integers. *)

Definition totalFreeMinutes (freeSlots : list FreeSlot.t) : Z :=
  fold_left
    (fun sum slot => sum + (FreeSlot.endMinutes slot - FreeSlot.startMinutes slot))
    freeSlots 0.

Definition totalPlannedTaskMinutes (planBlocks : list PlannedBlock.t) : Z :=
  fold_left
    (fun sum block =>
       sum + (PlannedBlock.endMinutes block - PlannedBlock.startMinutes block))
    planBlocks 0.

(** U+2013, the dash of the last message. *)
Definition EN_DASH : N := 8211.

Definition overloadMessage (totalFreeMinutes totalPlannedTaskMinutes : Z)
  : jsstring :=
  let diff := totalPlannedTaskMinutes - totalFreeMinutes in
  if totalFreeMinutes =? 0 then js "No free time in your work window."
  else if 0 <? diff then js "Overbooked by " ++ minutesToLabel diff ++ js "."
  else if diff <? 0
       then js "You still have " ++ minutesToLabel (- diff) ++ js " free."
       else js "Perfectly packed " ++ [EN_DASH] ++ js " no free time left.".

(* ================================================================= *)
(** * Notions used to state the properties *)

(** [Number.MAX_SAFE_INTEGER], that is [2^53 - 1]. *)
Definition MAX_SAFE_INTEGER : Z := 9007199254740991.

(** [Number.isSafeInteger]: an integer a double holds exactly and around
    which doubles are one apart.  A sum, difference or product of
    doubles whose exact value is a safe integer is that value. *)
Definition safeInteger (z : Z) : Prop :=
  - MAX_SAFE_INTEGER <= z <= MAX_SAFE_INTEGER.

(** The bounds of the slot and its length are safe integers. *)
Definition safeSlot (slot : FreeSlot.t) : Prop :=
  safeInteger (FreeSlot.startMinutes slot)
  /\ safeInteger (FreeSlot.endMinutes slot)
  /\ safeInteger (FreeSlot.endMinutes slot - FreeSlot.startMinutes slot).

(** The duration of the task is a safe integer. *)
Definition safeTask (task : ParsedTask.t) : Prop :=
  safeInteger (ParsedTask.durationMinutes task).

(** The slots the loop of [computeFreeSlots] adds when it starts at
    [cursor], as a recursive function of the events still to be read. *)
Fixpoint gaps (events : list ParsedEvent.t) (cursor workEnd : Z)
  : list FreeSlot.t :=
  match events with
  | [] => if cursor <? workEnd then [FreeSlot.mk cursor workEnd] else []
  | ev :: rest =>
      (if cursor <? ParsedEvent.startMinutes ev
       then [FreeSlot.mk cursor (ParsedEvent.startMinutes ev)] else [])
      ++ gaps rest (Z.max cursor (ParsedEvent.endMinutes ev)) workEnd
  end.

(** A minute [t] is inside the half-open interval [[a, b)]. *)
Definition inside (a b t : Z) : Prop := a <= t < b.

Definition inSlot (slot : FreeSlot.t) (t : Z) : Prop :=
  inside (FreeSlot.startMinutes slot) (FreeSlot.endMinutes slot) t.

Definition inEvent (ev : ParsedEvent.t) (t : Z) : Prop :=
  inside (ParsedEvent.startMinutes ev) (ParsedEvent.endMinutes ev) t.

Definition inBlock (b : PlannedBlock.t) (t : Z) : Prop :=
  inside (PlannedBlock.startMinutes b) (PlannedBlock.endMinutes b) t.

(** The event is an interval of the window [[s, e)]. *)
Definition eventWithin (s e : Z) (ev : ParsedEvent.t) : Prop :=
  s <= ParsedEvent.startMinutes ev
  /\ ParsedEvent.startMinutes ev <= ParsedEvent.endMinutes ev
  /\ ParsedEvent.endMinutes ev <= e.

(** The order of a list sorted ascending by [startMinutes]. *)
Definition byStart (a b : ParsedEvent.t) : Prop :=
  ParsedEvent.startMinutes a <= ParsedEvent.startMinutes b.

(** [a] ends no later than [b] starts. *)
Definition slotBefore (a b : FreeSlot.t) : Prop :=
  FreeSlot.endMinutes a <= FreeSlot.startMinutes b.

(** [a] ends no later than [b] starts. *)
Definition blockBefore (a b : PlannedBlock.t) : Prop :=
  PlannedBlock.endMinutes a <= PlannedBlock.startMinutes b.

(** The block lies inside the slot. *)
Definition blockInSlot (b : PlannedBlock.t) (slot : FreeSlot.t) : Prop :=
  FreeSlot.startMinutes slot <= PlannedBlock.startMinutes b
  /\ PlannedBlock.endMinutes b <= FreeSlot.endMinutes slot.

Definition slotNonEmpty (slot : FreeSlot.t) : Prop :=
  FreeSlot.startMinutes slot < FreeSlot.endMinutes slot.

(** [currentSlot] is [freeSlots[slotIndex] ?? null], as every assignment
    of the source makes it. *)
Definition consistent (freeSlots : list FreeSlot.t) (st : PlanState) : Prop :=
  currentSlot st = nth_error freeSlots (slotIndex st).

(** The [while] condition fails. *)
Definition loopDone (st : PlanState) (remaining : Z) : Prop :=
  remaining <= 0 \/ currentSlot st = None.

(** A bound on the turns the [while] loop still takes. *)
Definition turnsNeeded (freeSlots : list FreeSlot.t) (st : PlanState)
  (remaining : Z) : nat :=
  match currentSlot st with
  | None => O
  | Some slot =>
      if remaining <=? 0 then O
      else (2 * (List.length freeSlots - slotIndex st)
            - (if (FreeSlot.endMinutes slot <=? slotCursor st)%Z then 1 else 0))%nat
  end.

(** The minutes a list of slots can hold: a slot whose end is not after
    its start holds none. *)
Definition capacity (freeSlots : list FreeSlot.t) : Z :=
  fold_right
    (fun slot acc =>
       Z.max 0 (FreeSlot.endMinutes slot - FreeSlot.startMinutes slot) + acc)
    0 freeSlots.

(** The minutes still free at and after the cursor. *)
Definition capLeft (freeSlots : list FreeSlot.t) (st : PlanState) : Z :=
  match currentSlot st with
  | None => 0
  | Some slot =>
      Z.max 0 (FreeSlot.endMinutes slot - slotCursor st)
      + capacity (skipn (S (slotIndex st)) freeSlots)
  end.

(** The first test of the task loop, negated. *)
Definition schedulable (task : ParsedTask.t) : bool :=
  ParsedTask.include task && (0 <? ParsedTask.durationMinutes task).

(** The unscheduled list as the policy words it, for [cap] free minutes:
    a task that is not included or has no positive duration is
    unscheduled and leaves [cap] alone; any other task takes
    [min duration cap] minutes and is unscheduled when that leaves some of
    its duration unplaced. *)
Fixpoint unscheduledSpec (cap : Z) (tasks : list ParsedTask.t)
  : list ParsedTask.t :=
  match tasks with
  | [] => []
  | task :: rest =>
      if negb (ParsedTask.include task) || (ParsedTask.durationMinutes task <=? 0)
      then task :: unscheduledSpec cap rest
      else if 0 <? ParsedTask.durationMinutes task - cap
           then task :: unscheduledSpec 0 rest
           else unscheduledSpec (cap - ParsedTask.durationMinutes task) rest
  end.

(** The free minutes left of [cap] once [tasks] have been served. *)
Definition capAfter (cap : Z) (tasks : list ParsedTask.t) : Z :=
  fold_left
    (fun c task =>
       if schedulable task
       then Z.max 0 (c - ParsedTask.durationMinutes task)
       else c)
    tasks cap.

(** What holds of the scheduler state when the free slots are ordered and
    non-empty: the blocks are ordered, each is non-empty and inside a free
    slot, and all of them end at or before the cursor, which is inside
    the current slot. *)
Definition planInv (freeSlots : list FreeSlot.t) (st : PlanState) : Prop :=
  consistent freeSlots st
  /\ StronglySorted blockBefore (blocks st)
  /\ Forall (fun b =>
               PlannedBlock.startMinutes b < PlannedBlock.endMinutes b
               /\ exists slot, In slot freeSlots /\ blockInSlot b slot)
            (blocks st)
  /\ (forall slot, currentSlot st = Some slot ->
        FreeSlot.startMinutes slot <= slotCursor st <= FreeSlot.endMinutes slot
        /\ Forall (fun b => PlannedBlock.endMinutes b <= slotCursor st) (blocks st)).

(** The state with another unscheduled list. *)
Definition withRemaining (rt : list ParsedTask.t) (st : PlanState) : PlanState :=
  mkPlanState (blocks st) rt (slotIndex st) (currentSlot st) (slotCursor st).

(** What keeps the arithmetic of the scheduler exact: the cursor is a
    safe integer at or after the start of the current slot, and the
    bounds of the blocks are safe integers. *)
Definition cursorInv (freeSlots : list FreeSlot.t) (st : PlanState) : Prop :=
  consistent freeSlots st
  /\ safeInteger (slotCursor st)
  /\ (forall slot, currentSlot st = Some slot ->
        FreeSlot.startMinutes slot <= slotCursor st)
  /\ Forall (fun b => safeInteger (PlannedBlock.startMinutes b)
                      /\ safeInteger (PlannedBlock.endMinutes b))
            (blocks st).

(** The numbers a placing turn of the [while] loop computes, [available],
    [used], [blockEnd] and the new [remaining], are safe integers. *)
Definition turnExact (slot : FreeSlot.t) (st : PlanState) (remaining : Z)
  : Prop :=
  let available := FreeSlot.endMinutes slot - slotCursor st in
  let used := Z.min available remaining in
  safeInteger available
  /\ safeInteger used
  /\ safeInteger (slotCursor st + used)
  /\ safeInteger (remaining - used).

(** The text is one or two digits, a colon and two digits; [hs] and [ms]
    are the digits before and after the colon. *)
Definition clockShape (s hs ms : jsstring) : Prop :=
  s = hs ++ COLON :: ms
  /\ (List.length hs = 1 \/ List.length hs = 2)%nat
  /\ List.length ms = 2%nat
  /\ forallb isDigit hs = true
  /\ forallb isDigit ms = true.

(** The text is [H:MM] or [HH:MM] with hour in [[0,23]] and minute in
    [[0,59]], and [v] is [hour * 60 + minute]. *)
Definition clockTime (s : jsstring) (v : Z) : Prop :=
  exists hs ms,
    clockShape s hs ms
    /\ 0 <= decimalValue hs <= 23
    /\ 0 <= decimalValue ms <= 59
    /\ v = decimalValue hs * 60 + decimalValue ms.

(** The two captures of [timeRegex], read off the text directly. *)
Definition timeCaptures (t : jsstring) : option (list jsstring) :=
  match t with
  | [a; c; m1; m2] =>
      if isDigit a && isChar COLON c && isDigit m1 && isDigit m2
      then Some [[a]; [m1; m2]] else None
  | [a; b; c; m1; m2] =>
      if isDigit a && isDigit b && isChar COLON c && isDigit m1 && isDigit m2
      then Some [[a; b]; [m1; m2]] else None
  | _ => None
  end.

(** The part of [parseLine] before the clamp: the title and the start
    and end times the line is recognized with, from the range form or
    else the point form. *)
Definition recognizeLine (rawLine : jsstring) : option (jsstring * Z * Z) :=
  let line := trim rawLine in
  if isEmpty line then None
  else
    match regexMatch rangeRegex line with
    | Some [g1; g2; g3] =>
        match parseTimeToMinutes g1, parseTimeToMinutes g2 with
        | Some start, Some end_ =>
            if isEmpty (trim g3) then None else Some (trim g3, start, end_)
        | _, _ => None
        end
    | Some _ => None
    | None =>
        match regexMatch singleRegex line with
        | Some [g1; g2] =>
            match parseTimeToMinutes g1 with
            | Some start =>
                if isEmpty (trim g2) then None else Some (trim g2, start, start + 30)
            | None => None
            end
        | _ => None
        end
    end.

(** The events a recognized line gives once clamped to the window. *)
Definition clampEvent (workStart workEnd : Z) (r : option (jsstring * Z * Z))
  : list ParsedEvent.t :=
  match r with
  | Some (title, start, end_) =>
      if Z.max start workStart <? Z.min end_ workEnd
      then [ParsedEvent.mk title (Z.max start workStart) (Z.min end_ workEnd)]
      else []
  | None => []
  end.

(* ================================================================= *)
(** * The other functions of the planner page *)

(** [s.padStart(targetLength, pad)] for a pad string of the one code
    unit [pad]. *)
Definition padStart (targetLength : nat) (pad : N) (s : jsstring) : jsstring :=
  repeat pad (targetLength - List.length s) ++ s.

Definition ZERO : N := 48.
Definition SPACE : N := 32.
Definition CR : N := 13.

Definition minutesToTimeString (mins : Z) : jsstring :=
  let h := mins / 60 in
  let m := Z.rem mins 60 in
  padStart 2 ZERO (numberToString h) ++ js ":" ++ padStart 2 ZERO (numberToString m).

Definition contextLabel (ctx : TaskContext) : jsstring :=
  match ctx with
  | deep => js "Deep work"
  | admin => js "Admin"
  | calls => js "Calls"
  | errands => js "Errands"
  | other => js "Other"
  end.

Definition formatCountdown (deltaMinutes : Z) : jsstring :=
  if deltaMinutes <=? 0 then []
  else
    let h := deltaMinutes / 60 in
    let m := Z.rem deltaMinutes 60 in
    if h =? 0 then js "Starts in " ++ numberToString m ++ js "m"
    else if m =? 0 then js "Starts in " ++ numberToString h ++ js "h"
    else js "Starts in " ++ numberToString h ++ js "h " ++ numberToString m ++ js "m".

(** The [statusLabel] the list of planned blocks computes for a block;
    [nowMinutes] is [None] for [null].  [delta] is the difference of the
    code when it is a safe integer. *)
Definition statusLabel (nowMinutes : option Z) (block : PlannedBlock.t)
  : jsstring :=
  match nowMinutes with
  | None => []
  | Some now =>
      if now <? PlannedBlock.startMinutes block then
        let delta := PlannedBlock.startMinutes block - now in
        formatCountdown delta
      else if (PlannedBlock.startMinutes block <=? now)
              && (now <? PlannedBlock.endMinutes block)
           then js "In progress"
           else js "Done"
  end.

(** [lines.join("\n")]. *)
Fixpoint joinLines (lines : list jsstring) : jsstring :=
  match lines with
  | [] => []
  | [l] => l
  | l :: rest => l ++ LF :: joinLines rest
  end.

Inductive DayType : Type := workday | admin_day | creative | light.

Module DayConfig.
Record t : Type := mk {
  label : jsstring;
  startMinutes : Z;
  endMinutes : Z
}.
End DayConfig.

Definition DAY_TYPE_CONFIG (dayType : DayType) : DayConfig.t :=
  match dayType with
  | workday =>
      DayConfig.mk (js "Workday (09" ++ [EN_DASH] ++ js "17)") (9 * 60) (17 * 60)
  | admin_day =>
      DayConfig.mk (js "Admin / chores (10" ++ [EN_DASH] ++ js "18)") (10 * 60) (18 * 60)
  | creative =>
      DayConfig.mk (js "Creative (11" ++ [EN_DASH] ++ js "19)") (11 * 60) (19 * 60)
  | light =>
      DayConfig.mk (js "Light day (09" ++ [EN_DASH] ++ js "15)") (9 * 60) (15 * 60)
  end.

(** The string a [ReviewStatus] is. *)
Definition reviewStatusText (rs : ReviewStatus) : jsstring :=
  match rs with
  | rs_none => js "none"
  | rs_done => js "done"
  | rs_delayed => js "delayed"
  | rs_canceled => js "canceled"
  | rs_moved => js "moved"
  | rs_other => js "other"
  end.

(** U+2014, the dash of a review line. *)
Definition EM_DASH : N := 8212.

(** The line [buildResumeText] pushes for one task. *)
Definition resumeTaskLine (task : ParsedTask.t) : jsstring :=
  let status :=
    match ParsedTask.reviewStatus task with
    | Some rs_none => js "no status"
    | Some rs => reviewStatusText rs
    | None => js "no status"
    end in
  let note := option_map trim (ParsedTask.reviewNote task) in
  let line := js "- " ++ ParsedTask.title task ++ [SPACE; EM_DASH; SPACE] ++ status in
  match note with
  | Some n => if isEmpty n then line else line ++ js " (" ++ n ++ js ")"
  | None => line
  end.

(** The array [lines] of [buildResumeText] before it is joined. *)
Definition resumeLines (tasks : list ParsedTask.t) (daySummary : jsstring)
  (dayType : DayType) : list jsstring :=
  let lines :=
    [js "Today Desk " ++ [EN_DASH] ++ js " Resume of the day";
     [];
     js "Day type: " ++ DayConfig.label (DAY_TYPE_CONFIG dayType);
     []] in
  let lines :=
    if isEmpty (trim daySummary) then lines
    else lines ++ [js "Overall notes:"; trim daySummary; []] in
  if (0 <? List.length tasks)%nat
  then fold_left (fun lines task => lines ++ [resumeTaskLine task]) tasks
                 (lines ++ [js "Tasks review:"])
  else lines ++ [js "No tasks recorded for today."].

Definition buildResumeText (tasks : list ParsedTask.t) (daySummary : jsstring)
  (dayType : DayType) : jsstring :=
  joinLines (resumeLines tasks daySummary dayType).

(** The line the "Copy today's plan" button writes for a block. *)
Definition planBlockLabel (block : PlannedBlock.t) : jsstring :=
  minutesToTimeString (PlannedBlock.startMinutes block) ++ js "-"
  ++ minutesToTimeString (PlannedBlock.endMinutes block) ++ js " "
  ++ PlannedBlock.taskTitle block
  ++ js " [" ++ contextLabel (PlannedBlock.context block) ++ js "]".

(** The text the button copies; [None] when it only alerts that there is
    no planned block. *)
Definition planText (planBlocks : list PlannedBlock.t) : option jsstring :=
  if (List.length planBlocks =? 0)%nat then None
  else
    let lines := [js "Today Desk " ++ [EN_DASH] ++ js " planned blocks"; []] in
    let lines :=
      fold_left (fun lines block => lines ++ [planBlockLabel block])
                planBlocks lines in
    Some (joinLines lines).

(** The largest length of an array, [2^32 - 1]. *)
Definition MAX_ARRAY_LENGTH : Z := 4294967295.

(** The hour marks beside the timeline:
    [Array.from({ length: Math.floor((workEnd - workStart) / 60) + 1 },
                (_, i) => workStart + i * 60)],
    for safe integers and a length of at most [MAX_ARRAY_LENGTH],
    beyond which [Array.from] throws. *)
Definition timelineMarks (workStartMinutes workEndMinutes : Z) : list Z :=
  map (fun i => workStartMinutes + Z.of_nat i * 60)
      (seq 0 (Z.to_nat ((workEndMinutes - workStartMinutes) / 60 + 1))).

(* ----------------------------------------------------------------- *)
(** ** The task registry: the updaters given to [setTasks] *)

Definition withInclude (b : bool) (t : ParsedTask.t) : ParsedTask.t :=
  ParsedTask.mk (ParsedTask.id t) (ParsedTask.title t) b
    (ParsedTask.durationMinutes t) (ParsedTask.isImportant t)
    (ParsedTask.context t) (ParsedTask.reviewStatus t) (ParsedTask.reviewNote t).

Definition withImportant (b : bool) (t : ParsedTask.t) : ParsedTask.t :=
  ParsedTask.mk (ParsedTask.id t) (ParsedTask.title t) (ParsedTask.include t)
    (ParsedTask.durationMinutes t) b
    (ParsedTask.context t) (ParsedTask.reviewStatus t) (ParsedTask.reviewNote t).

Definition withDuration (minutes : Z) (t : ParsedTask.t) : ParsedTask.t :=
  ParsedTask.mk (ParsedTask.id t) (ParsedTask.title t) (ParsedTask.include t)
    minutes (ParsedTask.isImportant t)
    (ParsedTask.context t) (ParsedTask.reviewStatus t) (ParsedTask.reviewNote t).

Definition withContext (ctx : TaskContext) (t : ParsedTask.t) : ParsedTask.t :=
  ParsedTask.mk (ParsedTask.id t) (ParsedTask.title t) (ParsedTask.include t)
    (ParsedTask.durationMinutes t) (ParsedTask.isImportant t)
    ctx (ParsedTask.reviewStatus t) (ParsedTask.reviewNote t).

(** [Partial<Pick<ParsedTask, "reviewStatus" | "reviewNote">>]: for each
    key, [None] when the key is absent and [Some v] when it is present
    with value [v] ([v = None] for [undefined]). *)
Record ReviewChanges : Type := mkReviewChanges {
  change_reviewStatus : option (option ReviewStatus);
  change_reviewNote : option (option jsstring)
}.

(** [{ ...t, ...changes }]. *)
Definition withReview (changes : ReviewChanges) (t : ParsedTask.t)
  : ParsedTask.t :=
  ParsedTask.mk (ParsedTask.id t) (ParsedTask.title t) (ParsedTask.include t)
    (ParsedTask.durationMinutes t) (ParsedTask.isImportant t)
    (ParsedTask.context t)
    (match change_reviewStatus changes with
     | Some v => v
     | None => ParsedTask.reviewStatus t
     end)
    (match change_reviewNote changes with
     | Some v => v
     | None => ParsedTask.reviewNote t
     end).

(** [prev.map((t) => (t.id === id ? f(t) : t))]. *)
Definition updateTask (id : Z) (f : ParsedTask.t -> ParsedTask.t)
  (prev : list ParsedTask.t) : list ParsedTask.t :=
  map (fun t => if ParsedTask.id t =? id then f t else t) prev.

(** [handleAddQuickTask]: the new task list for the text [quickTask].
    [id + 1] is the sum of the code when the last id is a safe
    integer. *)
Definition handleAddQuickTask (quickTask : jsstring) (prev : list ParsedTask.t)
  : list ParsedTask.t :=
  let title := trim quickTask in
  if isEmpty title then prev
  else
    prev ++
    [ParsedTask.mk
       (if (0 <? List.length prev)%nat
        then match nth_error prev (List.length prev - 1) with
             | Some t => ParsedTask.id t + 1
             | None => 1
             end
        else 1)
       title true 30 false other None None].

Definition handleToggleTaskInclude (id : Z) (prev : list ParsedTask.t) :=
  updateTask id (fun t => withInclude (negb (ParsedTask.include t)) t) prev.

Definition handleToggleTaskImportant (id : Z) (prev : list ParsedTask.t) :=
  updateTask id (fun t => withImportant (negb (ParsedTask.isImportant t)) t) prev.

Definition handleTaskDurationChange (id : Z) (minutes : Z)
  (prev : list ParsedTask.t) :=
  updateTask id (withDuration minutes) prev.

Definition handleTaskContextChange (id : Z) (ctx : TaskContext)
  (prev : list ParsedTask.t) :=
  updateTask id (withContext ctx) prev.

Definition handleTaskReviewChange (id : Z) (changes : ReviewChanges)
  (prev : list ParsedTask.t) :=
  updateTask id (withReview changes) prev.

(* ----------------------------------------------------------------- *)
(** ** Notions used to state further properties *)

(** The minutes the events take, counted event by event. *)
Definition totalEventMinutes (events : list ParsedEvent.t) : Z :=
  fold_right
    (fun ev acc => (ParsedEvent.endMinutes ev - ParsedEvent.startMinutes ev) + acc)
    0 events.

(** [a] ends no later than [b] starts. *)
Definition eventBefore (a b : ParsedEvent.t) : Prop :=
  ParsedEvent.endMinutes a <= ParsedEvent.startMinutes b.

(** The minutes the tasks the scheduler does not skip ask for. *)
Definition demand (tasks : list ParsedTask.t) : Z :=
  fold_right
    (fun task acc =>
       if schedulable task then ParsedTask.durationMinutes task + acc else acc)
    0 tasks.

(** A text [trim] leaves as it is. *)
Definition trimmed (s : jsstring) : Prop := trim s = s.

(** The text holds no line feed. *)
Definition oneLine (s : jsstring) : Prop := ~ In LF s.

(** [minutesToTimeString n] is two digits, a colon and two digits that
    [parseTimeToMinutes] reads back as [n]. *)
Definition clockString (n : Z) : bool :=
  match minutesToTimeString n with
  | [d1; d2; c; d3; d4] =>
      isDigit d1 && isDigit d2 && isChar COLON c && isDigit d3 && isDigit d4
      && match parseTimeToMinutes [d1; d2; c; d3; d4] with
         | Some v => v =? n
         | None => false
         end
  | _ => false
  end.

(** The slot does not end before it starts. *)
Definition slotOrdered (slot : FreeSlot.t) : Prop :=
  FreeSlot.startMinutes slot <= FreeSlot.endMinutes slot.

(** A line with white space put before and after it. *)
Definition padded (p : jsstring * jsstring * jsstring) : jsstring :=
  let '(pre, line, post) := p in pre ++ line ++ post.

Definition unpadded (p : jsstring * jsstring * jsstring) : jsstring :=
  let '(_, line, _) := p in line.

(** The padding is white space and the three parts hold no line feed. *)
Definition paddingOk (p : jsstring * jsstring * jsstring) : Prop :=
  let '(pre, line, post) := p in
  forallb isSpace pre = true /\ forallb isSpace post = true
  /\ oneLine pre /\ oneLine line /\ oneLine post.

(** The events of the lines of a text before they are sorted. *)
Definition eventsInLineOrder (text : jsstring) (workStart workEnd : Z)
  : list ParsedEvent.t :=
  flat_map (parseLine workStart workEnd) (splitLines text).

(** The task registry after the quick captures [texts], from no task. *)
Definition captureAll (texts : list jsstring) : list ParsedTask.t :=
  fold_left (fun prev quickTask => handleAddQuickTask quickTask prev) texts [].

(** The title and the review note of the task hold no line feed. *)
Definition taskOneLine (task : ParsedTask.t) : Prop :=
  oneLine (ParsedTask.title task)
  /\ forall note, ParsedTask.reviewNote task = Some note -> oneLine note.

(** The title a block has in the copied plan: the task title and the
    context label in brackets. *)
Definition exportedTitle (block : PlannedBlock.t) : jsstring :=
  PlannedBlock.taskTitle block
  ++ js " [" ++ contextLabel (PlannedBlock.context block) ++ js "]".

(** The block is not empty and lies in the window. *)
Definition blockWithin (workStart workEnd : Z) (block : PlannedBlock.t) : Prop :=
  workStart <= PlannedBlock.startMinutes block
  /\ PlannedBlock.startMinutes block < PlannedBlock.endMinutes block
  /\ PlannedBlock.endMinutes block <= workEnd.

(** The event a block is in the copied plan. *)
Definition exportedEvent (block : PlannedBlock.t) : ParsedEvent.t :=
  ParsedEvent.mk (PlannedBlock.taskTitle block
                  ++ js " [" ++ contextLabel (PlannedBlock.context block) ++ js "]")
                 (PlannedBlock.startMinutes block) (PlannedBlock.endMinutes block).

(** The block starts and ends at a minute of the day and its title is a
    trimmed, non-empty text without line terminators. *)
Definition exportable (block : PlannedBlock.t) : Prop :=
  0 <= PlannedBlock.startMinutes block < 1440
  /\ 0 <= PlannedBlock.endMinutes block < 1440
  /\ trimmed (PlannedBlock.taskTitle block)
  /\ PlannedBlock.taskTitle block <> []
  /\ forallb isDot (PlannedBlock.taskTitle block) = true.

(* ================================================================= *)
(** * List facts *)

Section ListFacts.

Context {A : Type}.

Lemma skipn_nth_error_cons (l : list A) : forall n x,
  nth_error l n = Some x -> skipn n l = x :: skipn (S n) l.
Proof.
  induction l as [|a l IH]; intros [|n] x H; simpl in *; try discriminate.
  - now injection H as ->.
  - now apply IH.
Qed.

Lemma skipn_nth_error_nil (l : list A) : forall n,
  nth_error l n = None -> skipn n l = [].
Proof.
  induction l as [|a l IH]; intros [|n] H; simpl in *; try discriminate;
    try reflexivity.
  now apply IH.
Qed.

Lemma StronglySorted_snoc (R : A -> A -> Prop) (l : list A) (x : A) :
  StronglySorted R l -> Forall (fun a => R a x) l ->
  StronglySorted R (l ++ [x]).
Proof.
  induction 1 as [|a l Hl IH Ha]; intros Hx; simpl.
  - repeat constructor.
  - inversion Hx as [|? ? Hax Hlx]; subst.
    constructor; [now apply IH|].
    apply Forall_app; split; [exact Ha | now constructor].
Qed.

Lemma StronglySorted_nth (R : A -> A -> Prop) (l : list A) :
  StronglySorted R l ->
  forall i j a b, (i < j)%nat ->
    nth_error l i = Some a -> nth_error l j = Some b -> R a b.
Proof.
  induction 1 as [|x l Hl IH Hx]; intros i j a b Hij Ha Hb.
  - destruct i; discriminate.
  - destruct j as [|j]; [lia|]. simpl in Hb.
    destruct i as [|i]; simpl in Ha.
    + injection Ha as <-. rewrite Forall_forall in Hx.
      apply Hx. eapply nth_error_In; eauto.
    + apply (IH i j a b); [lia | exact Ha | exact Hb].
Qed.

End ListFacts.

(* ================================================================= *)
(** * The free-time calculator *)

Section FreeSlots.

Import ParsedEvent.

Lemma freeSlots_fold events workEnd : forall slots cursor,
  (let '(slots', cursor') := fold_left freeSlotStep events (slots, cursor) in
   if cursor' <? workEnd then slots' ++ [FreeSlot.mk cursor' workEnd] else slots')
  = slots ++ gaps events cursor workEnd.
Proof.
  induction events as [|ev rest IH]; intros slots cursor; simpl.
  - destruct (cursor <? workEnd); [reflexivity | now rewrite app_nil_r].
  - rewrite IH. destruct (cursor <? startMinutes ev); simpl.
    + now rewrite <- app_assoc.
    + reflexivity.
Qed.

Lemma computeFreeSlots_gaps events workStart workEnd :
  computeFreeSlots events workStart workEnd = gaps events workStart workEnd.
Proof.
  unfold computeFreeSlots.
  exact (freeSlots_fold events workEnd [] workStart).
Qed.

Lemma gaps_bounds e : forall events cursor slot,
  Forall (fun ev => startMinutes ev <= e) events ->
  In slot (gaps events cursor e) ->
  cursor <= FreeSlot.startMinutes slot
  /\ FreeSlot.startMinutes slot < FreeSlot.endMinutes slot
  /\ FreeSlot.endMinutes slot <= e.
Proof.
  induction events as [|ev rest IH]; intros cursor slot Hall Hin; simpl in Hin.
  - destruct (Z.ltb_spec cursor e); simpl in Hin; [|contradiction].
    destruct Hin as [<-|[]]; simpl; lia.
  - inversion Hall as [|? ? Hev Hrest]; subst.
    apply in_app_or in Hin. destruct Hin as [Hin|Hin].
    + destruct (Z.ltb_spec cursor (startMinutes ev)); simpl in Hin; [|contradiction].
      destruct Hin as [<-|[]]; simpl; lia.
    + destruct (IH _ _ Hrest Hin) as (H1 & H2 & H3). lia.
Qed.

Lemma gaps_sorted e : forall events cursor,
  Forall (fun ev => startMinutes ev <= endMinutes ev /\ endMinutes ev <= e) events ->
  StronglySorted slotBefore (gaps events cursor e).
Proof.
  induction events as [|ev rest IH]; intros cursor Hall; simpl.
  - destruct (cursor <? e); repeat constructor.
  - inversion Hall as [|? ? Hev Hrest]; subst.
    specialize (IH (Z.max cursor (endMinutes ev)) Hrest).
    destruct (cursor <? startMinutes ev); simpl; [|exact IH].
    constructor; [exact IH|].
    apply Forall_forall. intros slot Hin.
    apply gaps_bounds in Hin.
    + unfold slotBefore; simpl. lia.
    + eapply Forall_impl; [|exact Hrest]. simpl; intros; lia.
Qed.

Lemma gaps_cover e : forall events cursor t,
  cursor <= t < e ->
  (exists slot, In slot (gaps events cursor e) /\ inSlot slot t)
  \/ (exists ev, In ev events /\ inEvent ev t).
Proof.
  induction events as [|ev rest IH]; intros cursor t Ht; simpl.
  - left. exists (FreeSlot.mk cursor e).
    destruct (Z.ltb_spec cursor e); [|lia].
    split; [now left | unfold inSlot, inside; simpl; lia].
  - destruct (Z_lt_ge_dec t (startMinutes ev)) as [Hlt|Hge].
    + left. exists (FreeSlot.mk cursor (startMinutes ev)).
      destruct (Z.ltb_spec cursor (startMinutes ev)); [|lia].
      split; [now left | unfold inSlot, inside; simpl; lia].
    + destruct (Z_lt_ge_dec t (endMinutes ev)) as [Hlt'|Hge'].
      * right. exists ev. split; [now left | unfold inEvent, inside; lia].
      * destruct (IH (Z.max cursor (endMinutes ev)) t) as [(slot & Hin & Hs)|(ev' & Hin & He)];
          [lia | |].
        -- left. exists slot. split; [apply in_or_app; now right | exact Hs].
        -- right. exists ev'. split; [now right | exact He].
Qed.

Lemma gaps_avoid_events e : forall events cursor slot ev t,
  StronglySorted byStart events ->
  Forall (fun ev => startMinutes ev <= e) events ->
  In slot (gaps events cursor e) -> In ev events ->
  inSlot slot t -> inEvent ev t -> False.
Proof.
  induction events as [|ev0 rest IH]; intros cursor slot ev t Hs Hall Hin Hev Hslot Hevt;
    [contradiction|].
  inversion Hs as [|? ? Hs' Hle]; subst.
  inversion Hall as [|? ? Hev0 Hrest]; subst.
  simpl in Hin. apply in_app_or in Hin.
  unfold inSlot, inEvent, inside in *.
  destruct Hin as [Hin|Hin].
  - destruct (Z.ltb_spec cursor (startMinutes ev0)); simpl in Hin; [|contradiction].
    destruct Hin as [<-|[]]. simpl in Hslot.
    destruct Hev as [<-|Hev]; [lia|].
    rewrite Forall_forall in Hle. specialize (Hle _ Hev). unfold byStart in Hle. lia.
  - destruct Hev as [<-|Hev].
    + apply gaps_bounds in Hin; [lia | exact Hrest].
    + eapply IH; eauto.
Qed.

End FreeSlots.

(** C1. For a window [[s, e)] with [s < e] and events sorted by start
    time that are intervals of the window, the slots of
    [computeFreeSlots] are ordered ([slot[i].end <= slot[j].start] for
    [i < j], hence pairwise disjoint), each is non-empty and inside the
    window, no slot meets an event, and a minute is in the window exactly
    when it is in a slot or in an event. *)
Theorem computeFreeSlots_partition (events : list ParsedEvent.t) (s e : Z) :
  s < e ->
  Sorted byStart events ->
  Forall (eventWithin s e) events ->
  let slots := computeFreeSlots events s e in
  (forall i j a b, (i < j)%nat ->
     nth_error slots i = Some a -> nth_error slots j = Some b ->
     FreeSlot.endMinutes a <= FreeSlot.startMinutes b)
  /\ (forall slot, In slot slots ->
        s <= FreeSlot.startMinutes slot
        /\ FreeSlot.startMinutes slot < FreeSlot.endMinutes slot
        /\ FreeSlot.endMinutes slot <= e)
  /\ (forall slot ev t, In slot slots -> In ev events ->
        ~ (inSlot slot t /\ inEvent ev t))
  /\ (forall a b t, In a slots -> In b slots -> inSlot a t -> inSlot b t -> a = b)
  /\ (forall t, s <= t < e <->
        (exists slot, In slot slots /\ inSlot slot t)
        \/ (exists ev, In ev events /\ inEvent ev t)).
Proof.
  intros Hse Hsorted Hwithin slots. subst slots.
  rewrite computeFreeSlots_gaps.
  assert (Hstart : Forall (fun ev => ParsedEvent.startMinutes ev <= e) events).
  { eapply Forall_impl; [|exact Hwithin]. unfold eventWithin; simpl; intros; lia. }
  assert (Hord : StronglySorted slotBefore (gaps events s e)).
  { apply gaps_sorted. eapply Forall_impl; [|exact Hwithin].
    unfold eventWithin; simpl; intros; lia. }
  assert (Hbnd : forall slot, In slot (gaps events s e) ->
        s <= FreeSlot.startMinutes slot
        /\ FreeSlot.startMinutes slot < FreeSlot.endMinutes slot
        /\ FreeSlot.endMinutes slot <= e).
  { intros slot Hin. exact (gaps_bounds e events s slot Hstart Hin). }
  pose proof (StronglySorted_nth slotBefore) as Hnth.
  split; [exact (Hnth _ Hord)|].
  split; [exact Hbnd|].
  split.
  { intros slot ev t Hin Hev [Hs He].
    eapply gaps_avoid_events; eauto.
    apply Sorted_StronglySorted; [|exact Hsorted].
    unfold Relations_1.Transitive, byStart; intros; lia. }
  split.
  { intros a b t Ha Hb Hta Htb.
    apply In_nth_error in Ha, Hb. destruct Ha as [i Hi], Hb as [j Hj].
    destruct (Nat.lt_trichotomy i j) as [Hlt|[Heq|Hgt]].
    - pose proof (Hnth _ Hord _ _ _ _ Hlt Hi Hj) as H.
      unfold slotBefore, inSlot, inside in *. lia.
    - subst j. congruence.
    - pose proof (Hnth _ Hord _ _ _ _ Hgt Hj Hi) as H.
      unfold slotBefore, inSlot, inside in *. lia. }
  intros t. split.
  - intros Ht. apply gaps_cover. exact Ht.
  - intros [(slot & Hin & Hs)|(ev & Hin & Hev)].
    + apply Hbnd in Hin. unfold inSlot, inside in Hs. lia.
    + rewrite Forall_forall in Hwithin. apply Hwithin in Hin.
      unfold eventWithin, inEvent, inside in *. lia.
Qed.

(** The events have to be intervals: an event that ends before it starts
    makes two slots overlap. *)
Example computeFreeSlots_inverted_event :
  computeFreeSlots [ParsedEvent.mk (js "Back") 5 2] 0 10
  = [FreeSlot.mk 0 5; FreeSlot.mk 2 10].
Proof. reflexivity. Qed.

(** The two examples of the free-time calculator. *)
Example computeFreeSlots_no_events :
  computeFreeSlots [] 540 1020 = [FreeSlot.mk 540 1020].
Proof. reflexivity. Qed.

Example computeFreeSlots_standup :
  computeFreeSlots [ParsedEvent.mk (js "Standup") 570 600] 540 1020
  = [FreeSlot.mk 540 570; FreeSlot.mk 600 1020].
Proof. reflexivity. Qed.

Lemma computeFreeSlots_partition_witness :
  let events := [ParsedEvent.mk (js "Standup") 570 600;
                 ParsedEvent.mk (js "Review") 590 660] in
  computeFreeSlots events 540 1020
    = [FreeSlot.mk 540 570; FreeSlot.mk 660 1020]
  /\ forall t, 540 <= t < 1020 <->
        (exists slot, In slot (computeFreeSlots events 540 1020) /\ inSlot slot t)
        \/ (exists ev, In ev events /\ inEvent ev t).
Proof.
  split; [reflexivity|].
  apply (computeFreeSlots_partition
           [ParsedEvent.mk (js "Standup") 570 600;
            ParsedEvent.mk (js "Review") 590 660] 540 1020).
  - lia.
  - repeat constructor; unfold byStart; simpl; lia.
  - repeat constructor; unfold eventWithin; simpl; lia.
Defined.

(* ================================================================= *)
(** * The scheduler: the [while] loop *)

Section WhileLoop.

Variable freeSlots : list FreeSlot.t.
Variable task : ParsedTask.t.

Lemma whileBody_advance slot st r :
  FreeSlot.endMinutes slot <= slotCursor st ->
  whileBody freeSlots task slot st r =
    (mkPlanState (blocks st) (remainingTasks st) (S (slotIndex st))
       (nth_error freeSlots (S (slotIndex st)))
       (match nth_error freeSlots (S (slotIndex st)) with
        | Some s => FreeSlot.startMinutes s
        | None => slotCursor st
        end),
     r).
Proof.
  intros H. unfold whileBody.
  destruct (Z.leb_spec (FreeSlot.endMinutes slot) (slotCursor st)); [reflexivity | lia].
Qed.

Lemma whileBody_place slot st r :
  slotCursor st < FreeSlot.endMinutes slot ->
  whileBody freeSlots task slot st r =
    (mkPlanState
       (blocks st ++
        [PlannedBlock.mk (ParsedTask.title task) (slotCursor st)
           (slotCursor st + Z.min (FreeSlot.endMinutes slot - slotCursor st) r)
           (ParsedTask.isImportant task) (ParsedTask.context task)])
       (remainingTasks st) (slotIndex st) (currentSlot st)
       (slotCursor st + Z.min (FreeSlot.endMinutes slot - slotCursor st) r),
     r - Z.min (FreeSlot.endMinutes slot - slotCursor st) r).
Proof.
  intros H. unfold whileBody.
  destruct (Z.leb_spec (FreeSlot.endMinutes slot) (slotCursor st)); [lia | reflexivity].
Qed.

(** A property kept by every turn of the body holds when the loop stops,
    whatever the fuel. *)
Lemma whileLoop_invariant (P : PlanState -> Z -> Prop) :
  (forall st r slot, P st r -> currentSlot st = Some slot -> 0 < r ->
     P (fst (whileBody freeSlots task slot st r))
       (snd (whileBody freeSlots task slot st r))) ->
  forall fuel st r, P st r ->
    P (fst (whileLoop fuel freeSlots task st r))
      (snd (whileLoop fuel freeSlots task st r)).
Proof.
  intros Hstep. induction fuel as [|fuel IH]; intros st r HP; simpl; [exact HP|].
  destruct (currentSlot st) as [slot|] eqn:Hcs; [|exact HP].
  destruct (Z.ltb_spec 0 r) as [Hr|Hr]; [|exact HP].
  specialize (Hstep st r slot HP Hcs Hr).
  destruct (whileBody freeSlots task slot st r) as [st' r']. simpl in Hstep.
  apply IH. exact Hstep.
Qed.

(** Every turn keeps [currentSlot] in step with [slotIndex] and lowers
    [turnsNeeded]. *)
Lemma whileBody_turns st r slot :
  consistent freeSlots st -> currentSlot st = Some slot -> 0 < r ->
  consistent freeSlots (fst (whileBody freeSlots task slot st r))
  /\ (S (turnsNeeded freeSlots (fst (whileBody freeSlots task slot st r))
                     (snd (whileBody freeSlots task slot st r)))
      <= turnsNeeded freeSlots st r)%nat.
Proof.
  intros Hc Hcs Hr.
  assert (Hidx : (slotIndex st < List.length freeSlots)%nat).
  { apply nth_error_Some. unfold consistent in Hc. congruence. }
  unfold turnsNeeded at 2. rewrite Hcs.
  destruct (Z.leb_spec r 0) as [|_]; [lia|].
  destruct (Z.leb_spec (FreeSlot.endMinutes slot) (slotCursor st)) as [Hge|Hlt].
  - rewrite whileBody_advance by exact Hge.
    cbn [fst snd]. split; [reflexivity|].
    unfold turnsNeeded; cbn [slotIndex currentSlot slotCursor].
    destruct (nth_error freeSlots (S (slotIndex st))) as [s'|]; [|lia].
    destruct (r <=? 0); [lia|].
    destruct (FreeSlot.endMinutes s' <=? FreeSlot.startMinutes s'); lia.
  - rewrite whileBody_place by exact Hlt.
    cbn [fst snd]. split; [exact Hc|].
    unfold turnsNeeded; cbn [slotIndex currentSlot slotCursor]. rewrite Hcs.
    destruct (Z.leb_spec (r - Z.min (FreeSlot.endMinutes slot - slotCursor st) r) 0);
      [lia|].
    destruct (Z.leb_spec (FreeSlot.endMinutes slot)
                (slotCursor st + Z.min (FreeSlot.endMinutes slot - slotCursor st) r));
      lia.
Qed.

Lemma turnsNeeded_zero st r :
  consistent freeSlots st -> turnsNeeded freeSlots st r = O -> loopDone st r.
Proof.
  unfold consistent, turnsNeeded, loopDone. intros Hc H.
  destruct (currentSlot st) as [slot|] eqn:Hcs; [|now right].
  destruct (Z.leb_spec r 0); [now left|].
  assert (slotIndex st < List.length freeSlots)%nat
    by (apply nth_error_Some; congruence).
  destruct (FreeSlot.endMinutes slot <=? slotCursor st); lia.
Qed.

Lemma turnsNeeded_loopFuel st r :
  (turnsNeeded freeSlots st r <= loopFuel freeSlots)%nat.
Proof.
  unfold turnsNeeded, loopFuel.
  destruct (currentSlot st); [|lia]. destruct (r <=? 0); lia.
Qed.

(** With enough fuel the loop stops because its condition fails. *)
Lemma whileLoop_done : forall fuel st r,
  consistent freeSlots st -> (turnsNeeded freeSlots st r <= fuel)%nat ->
  loopDone (fst (whileLoop fuel freeSlots task st r))
           (snd (whileLoop fuel freeSlots task st r)).
Proof.
  induction fuel as [|fuel IH]; intros st r Hc Hfuel; simpl.
  - apply turnsNeeded_zero; [exact Hc | lia].
  - destruct (currentSlot st) as [slot|] eqn:Hcs; [|now right].
    destruct (Z.ltb_spec 0 r) as [Hr|Hr]; [|now left].
    destruct (whileBody_turns st r slot Hc Hcs Hr) as [Hc' Hlt].
    destruct (whileBody freeSlots task slot st r) as [st' r']. simpl in *.
    apply IH; [exact Hc' | lia].
Qed.

(** More fuel than needed changes nothing: the fuelled loop is the
    [while] loop of the source. *)
Lemma whileLoop_fuel : forall fuel1 fuel2 st r,
  consistent freeSlots st ->
  (turnsNeeded freeSlots st r <= fuel1)%nat ->
  (turnsNeeded freeSlots st r <= fuel2)%nat ->
  whileLoop fuel1 freeSlots task st r = whileLoop fuel2 freeSlots task st r.
Proof.
  induction fuel1 as [|fuel1 IH]; intros fuel2 st r Hc H1 H2.
  - assert (Hd : loopDone st r) by (apply turnsNeeded_zero; [exact Hc | lia]).
    destruct fuel2 as [|fuel2]; [reflexivity|]. simpl.
    destruct Hd as [Hd|Hd].
    + destruct (currentSlot st); [|reflexivity].
      destruct (Z.ltb_spec 0 r); [lia | reflexivity].
    + now rewrite Hd.
  - destruct fuel2 as [|fuel2].
    + assert (Hd : loopDone st r) by (apply turnsNeeded_zero; [exact Hc | lia]).
      simpl. destruct Hd as [Hd|Hd].
      * destruct (currentSlot st); [|reflexivity].
        destruct (Z.ltb_spec 0 r); [lia | reflexivity].
      * now rewrite Hd.
    + simpl. destruct (currentSlot st) as [slot|] eqn:Hcs; [|reflexivity].
      destruct (Z.ltb_spec 0 r) as [Hr|Hr]; [|reflexivity].
      destruct (whileBody_turns st r slot Hc Hcs Hr) as [Hc' Hlt].
      destruct (whileBody freeSlots task slot st r) as [st' r']. simpl in *.
      apply IH; [exact Hc' | lia | lia].
Qed.

End WhileLoop.

(* ================================================================= *)
(** * The scheduler: capacity *)

Section Capacity.

Variable freeSlots : list FreeSlot.t.

Lemma capacity_nonneg (l : list FreeSlot.t) : 0 <= capacity l.
Proof. induction l as [|s l IH]; simpl; lia. Qed.

Lemma capLeft_nonneg st : 0 <= capLeft freeSlots st.
Proof.
  unfold capLeft. destruct (currentSlot st); [|lia].
  pose proof (capacity_nonneg (skipn (S (slotIndex st)) freeSlots)). lia.
Qed.

Lemma capLeft_initialState : capLeft freeSlots (initialState freeSlots) = capacity freeSlots.
Proof.
  unfold capLeft, initialState; simpl.
  destruct freeSlots as [|s l]; reflexivity.
Qed.

Lemma consistent_initialState : consistent freeSlots (initialState freeSlots).
Proof. reflexivity. Qed.

Lemma totalPlanned_snoc l b :
  totalPlannedTaskMinutes (l ++ [b])
  = totalPlannedTaskMinutes l
    + (PlannedBlock.endMinutes b - PlannedBlock.startMinutes b).
Proof. unfold totalPlannedTaskMinutes. now rewrite fold_left_app. Qed.

(** What one run of the [while] loop does to the state, entered with
    [remaining = r >= 0]: the free capacity and the remaining duration
    drop by the minutes placed, nothing but [blocks] and the cursor
    moves, and the cursor only moves forward. *)
Lemma whileLoop_conserve task fuel st r :
  consistent freeSlots st -> 0 <= r ->
  let st' := fst (whileLoop fuel freeSlots task st r) in
  let r' := snd (whileLoop fuel freeSlots task st r) in
  consistent freeSlots st'
  /\ 0 <= r'
  /\ r' - capLeft freeSlots st' = r - capLeft freeSlots st
  /\ totalPlannedTaskMinutes (blocks st') + r'
     = totalPlannedTaskMinutes (blocks st) + r
  /\ remainingTasks st' = remainingTasks st
  /\ (slotIndex st <= slotIndex st')%nat
  /\ (slotIndex st' = slotIndex st -> slotCursor st <= slotCursor st')
  /\ (exists new, blocks st' = blocks st ++ new).
Proof.
  intros Hc Hr.
  apply (whileLoop_invariant freeSlots task
           (fun st' r' =>
              consistent freeSlots st'
              /\ 0 <= r'
              /\ r' - capLeft freeSlots st' = r - capLeft freeSlots st
              /\ totalPlannedTaskMinutes (blocks st') + r'
                 = totalPlannedTaskMinutes (blocks st) + r
              /\ remainingTasks st' = remainingTasks st
              /\ (slotIndex st <= slotIndex st')%nat
              /\ (slotIndex st' = slotIndex st -> slotCursor st <= slotCursor st')
              /\ (exists new, blocks st' = blocks st ++ new))).
  - clear fuel. intros st1 r1 slot (Hc1 & Hr1 & Hcap & Htot & Hrt & Hidx & Hcur & new & Hnew)
      Hcs Hpos.
    destruct (Z.leb_spec (FreeSlot.endMinutes slot) (slotCursor st1)) as [Hge|Hlt].
    + rewrite whileBody_advance by exact Hge. cbn [fst snd].
      cbn [blocks remainingTasks slotIndex currentSlot slotCursor].
      split; [reflexivity|]. split; [exact Hr1|].
      split.
      { rewrite <- Hcap. f_equal.
        unfold capLeft at 2. rewrite Hcs.
        unfold capLeft; cbn [slotIndex currentSlot slotCursor].
        destruct (nth_error freeSlots (S (slotIndex st1))) as [s'|] eqn:Hn.
        - rewrite (skipn_nth_error_cons _ _ _ Hn).
          cbn [capacity fold_right]. fold (capacity (skipn (S (S (slotIndex st1))) freeSlots)).
          lia.
        - rewrite (skipn_nth_error_nil _ _ Hn). simpl. lia. }
      split; [exact Htot|]. split; [exact Hrt|].
      split; [lia|]. split; [lia|].
      exists new. exact Hnew.
    + rewrite whileBody_place by exact Hlt. cbn [fst snd].
      cbn [blocks remainingTasks slotIndex currentSlot slotCursor].
      split; [exact Hc1|]. split; [lia|].
      split.
      { rewrite <- Hcap. unfold capLeft; cbn [slotIndex currentSlot slotCursor].
        rewrite Hcs. lia. }
      split.
      { rewrite totalPlanned_snoc. cbn [PlannedBlock.startMinutes PlannedBlock.endMinutes].
        lia. }
      split; [exact Hrt|]. split; [exact Hidx|].
      split; [intros Heq; specialize (Hcur Heq); lia|].
      eexists. rewrite Hnew, <- app_assoc. reflexivity.
  - split; [exact Hc|]. split; [exact Hr|].
    repeat (split; [reflexivity || lia|]).
    exists []. now rewrite app_nil_r.
Qed.

Lemma schedulable_skip task :
  negb (ParsedTask.include task) || (ParsedTask.durationMinutes task <=? 0)
  = negb (schedulable task).
Proof.
  unfold schedulable. destruct (ParsedTask.include task); simpl; [|reflexivity].
  destruct (Z.leb_spec (ParsedTask.durationMinutes task) 0);
    destruct (Z.ltb_spec 0 (ParsedTask.durationMinutes task)); simpl; lia || reflexivity.
Qed.

(** What one turn of the task loop does. *)
Lemma taskStep_spec st task :
  consistent freeSlots st ->
  let st' := taskStep freeSlots st task in
  consistent freeSlots st'
  /\ capLeft freeSlots st' = capAfter (capLeft freeSlots st) [task]
  /\ remainingTasks st'
     = remainingTasks st ++ unscheduledSpec (capLeft freeSlots st) [task]
  /\ totalPlannedTaskMinutes (blocks st')
     = totalPlannedTaskMinutes (blocks st)
       + (capLeft freeSlots st - capLeft freeSlots st')
  /\ (slotIndex st <= slotIndex st')%nat
  /\ (slotIndex st' = slotIndex st -> slotCursor st <= slotCursor st')
  /\ (exists new, blocks st' = blocks st ++ new).
Proof.
  intros Hc. unfold taskStep. cbn [capAfter fold_left unscheduledSpec].
  rewrite schedulable_skip.
  destruct (schedulable task) eqn:Hs; cbn [negb].
  - assert (Hd : 0 < ParsedTask.durationMinutes task).
    { unfold schedulable in Hs. apply andb_prop in Hs. destruct Hs as [_ Hs].
      now apply Z.ltb_lt. }
    pose proof (whileLoop_conserve task (loopFuel freeSlots) st
                  (ParsedTask.durationMinutes task) Hc ltac:(lia)) as Hw.
    pose proof (whileLoop_done freeSlots task (loopFuel freeSlots) st
                  (ParsedTask.durationMinutes task) Hc
                  (turnsNeeded_loopFuel freeSlots st _)) as Hdone.
    destruct (whileLoop (loopFuel freeSlots) freeSlots task st
                (ParsedTask.durationMinutes task)) as [st' r'].
    cbn [fst snd] in Hw, Hdone. cbv zeta in Hw.
    destruct Hw as (Hc' & Hr' & Hcap & Htot & Hrt & Hidx & Hcur & Hnew).
    pose proof (capLeft_nonneg st') as Hnn.
    assert (Hcases : (r' = 0 /\ capLeft freeSlots st'
                                = capLeft freeSlots st - ParsedTask.durationMinutes task)
                     \/ (capLeft freeSlots st' = 0
                         /\ r' = ParsedTask.durationMinutes task - capLeft freeSlots st)).
    { destruct Hdone as [Hd0|Hnone].
      - left. lia.
      - right. unfold capLeft at 1 in Hcap. unfold capLeft at 1. rewrite Hnone in *. lia. }
    destruct (Z.ltb_spec 0 r') as [Hpos|Hzero];
      destruct (Z.ltb_spec 0 (ParsedTask.durationMinutes task - capLeft freeSlots st));
      try lia;
      unfold pushUnscheduled; cbn [blocks remainingTasks slotIndex currentSlot slotCursor];
      (split; [exact Hc'|]);
      (split; [unfold capLeft in *;
               cbn [blocks remainingTasks slotIndex currentSlot slotCursor] in *; lia|]);
      (split; [rewrite Hrt; now rewrite ?app_nil_r|]);
      (split; [unfold capLeft in *;
               cbn [blocks remainingTasks slotIndex currentSlot slotCursor] in *; lia|]);
      (split; [exact Hidx|]); (split; [exact Hcur | exact Hnew]).
  - unfold pushUnscheduled; cbn [blocks remainingTasks slotIndex currentSlot slotCursor].
    split; [exact Hc|].
    split; [reflexivity|]. split; [reflexivity|].
    split; [unfold capLeft; cbn [slotIndex currentSlot slotCursor]; lia|].
    split; [lia|]. split; [lia|]. exists []. now rewrite app_nil_r.
Qed.

Lemma unscheduledSpec_cons cap task rest :
  unscheduledSpec cap (task :: rest)
  = unscheduledSpec cap [task] ++ unscheduledSpec (capAfter cap [task]) rest.
Proof.
  cbn [unscheduledSpec capAfter fold_left]. rewrite schedulable_skip.
  destruct (schedulable task); cbn [negb]; [|reflexivity].
  destruct (Z.ltb_spec 0 (ParsedTask.durationMinutes task - cap)).
  - rewrite Z.max_l by lia. reflexivity.
  - rewrite Z.max_r by lia. reflexivity.
Qed.

Lemma capAfter_cons cap task rest :
  capAfter cap (task :: rest) = capAfter (capAfter cap [task]) rest.
Proof. reflexivity. Qed.

Lemma capAfter_le tasks : forall cap, 0 <= cap -> 0 <= capAfter cap tasks <= cap.
Proof.
  induction tasks as [|t ts IH]; intros cap Hcap; [simpl; lia|].
  rewrite capAfter_cons.
  assert (0 <= capAfter cap [t] <= cap).
  { cbn [capAfter fold_left]. destruct (schedulable t) eqn:Hs; [|lia].
    unfold schedulable in Hs. apply andb_prop in Hs. destruct Hs as [_ Hs].
    apply Z.ltb_lt in Hs. lia. }
  specialize (IH (capAfter cap [t])). lia.
Qed.

(** What the task loop does. *)
Lemma runTasks_spec tasks : forall st,
  consistent freeSlots st ->
  let st' := runTasks freeSlots st tasks in
  consistent freeSlots st'
  /\ capLeft freeSlots st' = capAfter (capLeft freeSlots st) tasks
  /\ remainingTasks st'
     = remainingTasks st ++ unscheduledSpec (capLeft freeSlots st) tasks
  /\ totalPlannedTaskMinutes (blocks st')
     = totalPlannedTaskMinutes (blocks st)
       + (capLeft freeSlots st - capLeft freeSlots st')
  /\ (exists new, blocks st' = blocks st ++ new).
Proof.
  induction tasks as [|t ts IH]; intros st Hc; cbv zeta.
  - cbn [runTasks fold_left capAfter unscheduledSpec].
    split; [exact Hc|]. split; [reflexivity|].
    split; [now rewrite app_nil_r|]. split; [lia|].
    exists []. now rewrite app_nil_r.
  - destruct (taskStep_spec st t Hc) as (Hc1 & Hcap1 & Hrt1 & Htot1 & _ & _ & new1 & Hnew1).
    destruct (IH _ Hc1) as (Hc2 & Hcap2 & Hrt2 & Htot2 & new2 & Hnew2).
    change (runTasks freeSlots st (t :: ts))
      with (runTasks freeSlots (taskStep freeSlots st t) ts).
    split; [exact Hc2|].
    split; [rewrite Hcap2, Hcap1; reflexivity|].
    split; [rewrite Hrt2, Hrt1, Hcap1, <- app_assoc, <- unscheduledSpec_cons; reflexivity|].
    split; [lia|].
    exists (new1 ++ new2). rewrite Hnew2, Hnew1, app_assoc. reflexivity.
Qed.

End Capacity.

(* ================================================================= *)
(** * The scheduler: tasks that are skipped *)

Section Skipped.

Variable freeSlots : list FreeSlot.t.

Lemma withRemaining_eq st1 st2 :
  withRemaining [] st1 = withRemaining [] st2 ->
  st1 = withRemaining (remainingTasks st1) st2.
Proof.
  destruct st1, st2; unfold withRemaining; simpl. intros H.
  injection H as -> -> -> ->. reflexivity.
Qed.

Lemma whileLoop_withRemaining task rt : forall fuel st r,
  whileLoop fuel freeSlots task (withRemaining rt st) r
  = (withRemaining rt (fst (whileLoop fuel freeSlots task st r)),
     snd (whileLoop fuel freeSlots task st r)).
Proof.
  induction fuel as [|fuel IH]; intros st r; [reflexivity|].
  cbn [whileLoop]. cbn [withRemaining currentSlot].
  destruct (currentSlot st) as [slot|] eqn:Hcs; [|reflexivity].
  destruct (0 <? r); [|reflexivity].
  assert (Hb : whileBody freeSlots task slot (withRemaining rt st) r
               = (withRemaining rt (fst (whileBody freeSlots task slot st r)),
                  snd (whileBody freeSlots task slot st r))).
  { unfold whileBody, withRemaining; simpl.
    destruct (FreeSlot.endMinutes slot <=? slotCursor st); reflexivity. }
  rewrite Hb.
  destruct (whileBody freeSlots task slot st r) as [st' r']. cbn [fst snd].
  apply IH.
Qed.

(** The unscheduled list has no influence on the rest of the state. *)
Lemma taskStep_withRemaining rt st task :
  withRemaining [] (taskStep freeSlots (withRemaining rt st) task)
  = withRemaining [] (taskStep freeSlots st task).
Proof.
  unfold taskStep.
  destruct (negb (ParsedTask.include task) || (ParsedTask.durationMinutes task <=? 0));
    [reflexivity|].
  rewrite whileLoop_withRemaining.
  destruct (whileLoop (loopFuel freeSlots) freeSlots task st
              (ParsedTask.durationMinutes task)) as [st' r'].
  cbn [fst snd]. destruct (0 <? r'); reflexivity.
Qed.

Lemma runTasks_withRemaining tasks : forall rt st,
  withRemaining [] (runTasks freeSlots (withRemaining rt st) tasks)
  = withRemaining [] (runTasks freeSlots st tasks).
Proof.
  induction tasks as [|t ts IH]; intros rt st; [reflexivity|].
  change (runTasks freeSlots (withRemaining rt st) (t :: ts))
    with (runTasks freeSlots (taskStep freeSlots (withRemaining rt st) t) ts).
  change (runTasks freeSlots st (t :: ts))
    with (runTasks freeSlots (taskStep freeSlots st t) ts).
  rewrite (withRemaining_eq _ _ (taskStep_withRemaining rt st t)).
  apply IH.
Qed.

(** Leaving out the tasks the loop skips changes nothing but the
    unscheduled list. *)
Lemma runTasks_filter tasks : forall st,
  withRemaining [] (runTasks freeSlots st (filter schedulable tasks))
  = withRemaining [] (runTasks freeSlots st tasks).
Proof.
  induction tasks as [|t ts IH]; intros st; [reflexivity|].
  change (runTasks freeSlots st (t :: ts))
    with (runTasks freeSlots (taskStep freeSlots st t) ts).
  cbn [filter]. destruct (schedulable t) eqn:Hs.
  - change (runTasks freeSlots st (t :: filter schedulable ts))
      with (runTasks freeSlots (taskStep freeSlots st t) (filter schedulable ts)).
    apply IH.
  - unfold taskStep. rewrite schedulable_skip, Hs. cbn [negb].
    change (pushUnscheduled st t) with (withRemaining (remainingTasks st ++ [t]) st).
    rewrite runTasks_withRemaining. apply IH.
Qed.

Lemma unscheduledSpec_filter tasks : forall cap,
  unscheduledSpec cap (filter schedulable tasks)
  = filter schedulable (unscheduledSpec cap tasks).
Proof.
  induction tasks as [|t ts IH]; intros cap; [reflexivity|].
  cbn [filter unscheduledSpec]. rewrite schedulable_skip.
  destruct (schedulable t) eqn:Hs; cbn [negb].
  - cbn [unscheduledSpec]. rewrite schedulable_skip, Hs. cbn [negb].
    destruct (0 <? ParsedTask.durationMinutes t - cap); cbn [filter];
      rewrite ?Hs, IH; reflexivity.
  - cbn [filter]. rewrite Hs. apply IH.
Qed.

End Skipped.

(* ================================================================= *)
(** * The scheduler: blocks and slots *)

Lemma sorted_slots_strongly (l : list FreeSlot.t) :
  Sorted slotBefore l -> Forall slotNonEmpty l -> StronglySorted slotBefore l.
Proof.
  induction 1 as [|a l Hl IH Hhd]; intros Hne; [constructor|].
  inversion Hne as [|? ? Ha Hne']; subst.
  specialize (IH Hne').
  constructor; [exact IH|].
  destruct Hhd as [|b l' Hab]; [constructor|].
  constructor; [exact Hab|].
  inversion IH as [|? ? _ Hb]; subst.
  inversion Hne' as [|? ? Hbne _]; subst.
  eapply Forall_impl; [|exact Hb].
  unfold slotBefore, slotNonEmpty in *. intros c Hbc. lia.
Qed.

Lemma totalFree_capacity (l : list FreeSlot.t) :
  Forall slotNonEmpty l -> totalFreeMinutes l = capacity l.
Proof.
  unfold totalFreeMinutes. intros Hne.
  enough (H : forall acc,
             fold_left (fun sum slot =>
                          sum + (FreeSlot.endMinutes slot - FreeSlot.startMinutes slot))
                       l acc = acc + capacity l)
    by (rewrite H; lia).
  induction Hne as [|s l Hs Hl IH]; intros acc; simpl; [lia|].
  rewrite IH. unfold slotNonEmpty in Hs. lia.
Qed.

Section Blocks.

Variable freeSlots : list FreeSlot.t.
Hypothesis slots_sorted : StronglySorted slotBefore freeSlots.
Hypothesis slots_nonempty : Forall slotNonEmpty freeSlots.

Lemma planInv_initialState : planInv freeSlots (initialState freeSlots).
Proof.
  unfold planInv, initialState; cbn [blocks currentSlot slotCursor slotIndex].
  split; [reflexivity|]. split; [constructor|]. split; [constructor|].
  intros slot Hs. rewrite Hs. split; [|constructor].
  apply nth_error_In in Hs. rewrite Forall_forall in slots_nonempty.
  specialize (slots_nonempty _ Hs). unfold slotNonEmpty in slots_nonempty. lia.
Qed.

Lemma whileBody_planInv task st r slot :
  planInv freeSlots st -> currentSlot st = Some slot -> 0 < r ->
  planInv freeSlots (fst (whileBody freeSlots task slot st r)).
Proof.
  intros (Hc & Hsorted & Hall & Hcur) Hcs Hr.
  destruct (Hcur slot Hcs) as [Hin Hend].
  assert (Hnth : nth_error freeSlots (slotIndex st) = Some slot)
    by (unfold consistent in Hc; congruence).
  destruct (Z.leb_spec (FreeSlot.endMinutes slot) (slotCursor st)) as [Hge|Hlt].
  - rewrite whileBody_advance by exact Hge. cbn [fst].
    unfold planInv; cbn [blocks currentSlot slotCursor slotIndex].
    split; [reflexivity|]. split; [exact Hsorted|]. split; [exact Hall|].
    intros slot' Hs'. rewrite Hs'.
    pose proof (StronglySorted_nth _ _ slots_sorted _ _ _ _
                  (Nat.lt_succ_diag_r (slotIndex st)) Hnth Hs') as Hbefore.
    unfold slotBefore in Hbefore.
    pose proof (nth_error_In _ _ Hs') as Hin'.
    rewrite Forall_forall in slots_nonempty.
    specialize (slots_nonempty _ Hin'). unfold slotNonEmpty in slots_nonempty.
    split; [lia|].
    eapply Forall_impl; [|exact Hend]. cbv beta. intros b Hb. lia.
  - rewrite whileBody_place by exact Hlt. cbn [fst].
    unfold planInv; cbn [blocks currentSlot slotCursor slotIndex].
    split; [exact Hc|].
    split.
    { apply StronglySorted_snoc; [exact Hsorted|].
      eapply Forall_impl; [|exact Hend].
      unfold blockBefore. cbn [PlannedBlock.startMinutes]. intros b Hb. exact Hb. }
    split.
    { apply Forall_app; split; [exact Hall|].
      constructor; [|constructor].
      cbn [PlannedBlock.startMinutes PlannedBlock.endMinutes].
      split; [lia|].
      exists slot. split; [eapply nth_error_In; exact Hnth|].
      unfold blockInSlot. cbn [PlannedBlock.startMinutes PlannedBlock.endMinutes]. lia. }
    intros slot' Hs'. rewrite Hcs in Hs'. injection Hs' as <-.
    split; [lia|].
    apply Forall_app; split.
    + eapply Forall_impl; [|exact Hend]. cbv beta. intros b Hb. lia.
    + constructor; [|constructor]. cbn [PlannedBlock.endMinutes]. lia.
Qed.

Lemma taskStep_planInv st task :
  planInv freeSlots st -> planInv freeSlots (taskStep freeSlots st task).
Proof.
  intros Hinv. unfold taskStep.
  destruct (negb (ParsedTask.include task) || (ParsedTask.durationMinutes task <=? 0));
    [exact Hinv|].
  pose proof (whileLoop_invariant freeSlots task (fun st' _ => planInv freeSlots st')
                (fun st1 r1 slot H1 Hcs Hr => whileBody_planInv task st1 r1 slot H1 Hcs Hr)
                (loopFuel freeSlots) st (ParsedTask.durationMinutes task) Hinv) as Hw.
  destruct (whileLoop (loopFuel freeSlots) freeSlots task st
              (ParsedTask.durationMinutes task)) as [st' r'].
  cbn [fst] in Hw. destruct (0 <? r'); exact Hw.
Qed.

Lemma runTasks_planInv tasks : forall st,
  planInv freeSlots st -> planInv freeSlots (runTasks freeSlots st tasks).
Proof.
  induction tasks as [|t ts IH]; intros st Hinv; [exact Hinv|].
  apply (IH (taskStep freeSlots st t)). now apply taskStep_planInv.
Qed.

End Blocks.

(* ================================================================= *)
(** * The scheduler: the remaining duration of a task *)

(** The value of [remaining] when the [while] loop of a task of duration
    [d > 0] stops: what the free capacity could not take.  When it is
    positive the loop has stopped because no current slot is left. *)
Lemma whileLoop_remaining freeSlots task st d :
  consistent freeSlots st -> 0 < d ->
  let st' := fst (whileLoop (loopFuel freeSlots) freeSlots task st d) in
  let r' := snd (whileLoop (loopFuel freeSlots) freeSlots task st d) in
  r' = Z.max 0 (d - capLeft freeSlots st)
  /\ capLeft freeSlots st' = Z.max 0 (capLeft freeSlots st - d)
  /\ (0 < r' -> currentSlot st' = None).
Proof.
  intros Hc Hd.
  pose proof (whileLoop_conserve freeSlots task (loopFuel freeSlots) st d Hc ltac:(lia))
    as Hw.
  pose proof (whileLoop_done freeSlots task (loopFuel freeSlots) st d Hc
                (turnsNeeded_loopFuel freeSlots st _)) as Hdone.
  destruct (whileLoop (loopFuel freeSlots) freeSlots task st d) as [st' r'].
  cbn [fst snd] in *. cbv zeta in Hw.
  destruct Hw as (_ & Hr' & Hcap & _).
  pose proof (capLeft_nonneg freeSlots st') as Hnn.
  pose proof (capLeft_nonneg freeSlots st) as Hnn0.
  destruct Hdone as [Hd0|Hnone].
  - split; [lia|]. split; [lia|]. intros; lia.
  - assert (capLeft freeSlots st' = 0) by (unfold capLeft; now rewrite Hnone).
    split; [lia|]. split; [lia|]. intros _; exact Hnone.
Qed.

Lemma buildPlan_blocks freeSlots tasks :
  plan_blocks (buildPlan freeSlots tasks)
  = blocks (runTasks freeSlots (initialState freeSlots) tasks).
Proof. reflexivity. Qed.

Lemma buildPlan_unscheduled_state freeSlots tasks :
  unscheduled (buildPlan freeSlots tasks)
  = remainingTasks (runTasks freeSlots (initialState freeSlots) tasks).
Proof. reflexivity. Qed.

Lemma runTasks_app freeSlots st tasks1 tasks2 :
  runTasks freeSlots st (tasks1 ++ tasks2)
  = runTasks freeSlots (runTasks freeSlots st tasks1) tasks2.
Proof. unfold runTasks. apply fold_left_app. Qed.

Lemma unscheduledSpec_app tasks1 : forall cap tasks2,
  unscheduledSpec cap (tasks1 ++ tasks2)
  = unscheduledSpec cap tasks1 ++ unscheduledSpec (capAfter cap tasks1) tasks2.
Proof.
  induction tasks1 as [|t ts IH]; intros cap tasks2; [reflexivity|].
  rewrite <- app_comm_cons, unscheduledSpec_cons, IH, capAfter_cons.
  rewrite (unscheduledSpec_cons cap t ts), app_assoc. reflexivity.
Qed.

(* ================================================================= *)
(** * The scheduler: its numbers are safe integers *)

Section Exact.

Variable freeSlots : list FreeSlot.t.
Hypothesis slots_safe : Forall safeSlot freeSlots.

Lemma cursorInv_initialState : cursorInv freeSlots (initialState freeSlots).
Proof.
  unfold cursorInv, initialState; cbn [blocks currentSlot slotCursor slotIndex].
  split; [reflexivity|].
  split.
  { destruct (nth_error freeSlots 0) as [s|] eqn:Hs.
    - apply nth_error_In in Hs. rewrite Forall_forall in slots_safe.
      apply (slots_safe _ Hs).
    - unfold safeInteger, MAX_SAFE_INTEGER. lia. }
  split; [|constructor].
  intros slot Hs. rewrite Hs. lia.
Qed.

(** A turn of the loop keeps [cursorInv] and leaves a remaining duration
    that is a non-negative safe integer; when it places a block, what it
    computes are safe integers. *)
Lemma whileBody_exact task st r slot :
  cursorInv freeSlots st -> currentSlot st = Some slot ->
  0 < r -> safeInteger r ->
  cursorInv freeSlots (fst (whileBody freeSlots task slot st r))
  /\ 0 <= snd (whileBody freeSlots task slot st r)
  /\ safeInteger (snd (whileBody freeSlots task slot st r))
  /\ (slotCursor st < FreeSlot.endMinutes slot -> turnExact slot st r).
Proof.
  intros (Hc & Hcur & Hstart & Hbs) Hcs Hr Hsafe.
  specialize (Hstart slot Hcs).
  assert (Hnth : nth_error freeSlots (slotIndex st) = Some slot)
    by (unfold consistent in Hc; congruence).
  pose proof (nth_error_In _ _ Hnth) as Hin.
  pose proof slots_safe as Hall. rewrite Forall_forall in Hall.
  destruct (Hall _ Hin) as (Hs1 & Hs2 & Hs3).
  unfold safeInteger, MAX_SAFE_INTEGER in *.
  destruct (Z.leb_spec (FreeSlot.endMinutes slot) (slotCursor st)) as [Hge|Hlt].
  - rewrite whileBody_advance by exact Hge. cbn [fst snd].
    split; [|split; [lia|split; [lia|lia]]].
    unfold cursorInv; cbn [blocks currentSlot slotCursor slotIndex].
    split; [reflexivity|].
    split.
    { destruct (nth_error freeSlots (S (slotIndex st))) as [s|] eqn:Hs; [|exact Hcur].
      apply nth_error_In in Hs. apply (Hall _ Hs). }
    split; [|exact Hbs].
    intros slot' Hs'. rewrite Hs'. lia.
  - rewrite whileBody_place by exact Hlt. cbn [fst snd].
    split; [|split; [lia|split; [lia|]]].
    + unfold cursorInv; cbn [blocks currentSlot slotCursor slotIndex].
      split; [exact Hc|].
      split; [unfold safeInteger, MAX_SAFE_INTEGER; lia|].
      split.
      * intros slot' Hs'. rewrite Hcs in Hs'. injection Hs' as <-. lia.
      * apply Forall_app; split; [exact Hbs|].
        constructor; [|constructor].
        cbn [PlannedBlock.startMinutes PlannedBlock.endMinutes].
        unfold safeInteger, MAX_SAFE_INTEGER. lia.
    + intros _. unfold turnExact, safeInteger, MAX_SAFE_INTEGER. cbv zeta. lia.
Qed.

Lemma taskStep_exact st task :
  safeTask task -> cursorInv freeSlots st ->
  cursorInv freeSlots (taskStep freeSlots st task).
Proof.
  intros Ht Hinv. unfold taskStep.
  destruct (negb (ParsedTask.include task)) eqn:Hi; [exact Hinv|].
  destruct (Z.leb_spec (ParsedTask.durationMinutes task) 0) as [Hd|Hd]; [exact Hinv|].
  cbn [orb].
  pose proof (whileLoop_invariant freeSlots task
                (fun st' r' => cursorInv freeSlots st' /\ 0 <= r' /\ safeInteger r')
                (fun st1 r1 slot H1 Hcs Hr =>
                   match whileBody_exact task st1 r1 slot
                           (proj1 H1) Hcs Hr (proj2 (proj2 H1)) with
                   | conj Ha (conj Hb (conj Hc' _)) => conj Ha (conj Hb Hc')
                   end)
                (loopFuel freeSlots) st (ParsedTask.durationMinutes task)
                (conj Hinv (conj (Z.lt_le_incl _ _ Hd) Ht))) as (Hw & _).
  destruct (whileLoop (loopFuel freeSlots) freeSlots task st
              (ParsedTask.durationMinutes task)) as [st' r'].
  cbn [fst] in Hw. destruct (0 <? r'); exact Hw.
Qed.

Lemma runTasks_exact tasks : forall st,
  Forall safeTask tasks -> cursorInv freeSlots st ->
  cursorInv freeSlots (runTasks freeSlots st tasks).
Proof.
  induction tasks as [|t ts IH]; intros st Hts Hinv; [exact Hinv|].
  inversion Hts as [|? ? Ht Hts']; subst.
  apply (IH (taskStep freeSlots st t) Hts'). now apply taskStep_exact.
Qed.

End Exact.

(* ================================================================= *)
(** * Clock times *)

Lemma isDigit_bounds c : isDigit c = true -> (48 <= c <= 57)%N.
Proof.
  unfold isDigit. intros H. apply andb_prop in H. destruct H as [H1 H2].
  apply N.leb_le in H1, H2. lia.
Qed.

Lemma isDigit_not_space c : isDigit c = true -> isSpace c = false.
Proof.
  intros H. apply isDigit_bounds in H.
  unfold isSpace, isWhiteSpace, isLineTerminator.
  repeat match goal with
         | |- context [(c =? ?k)%N] => destruct (N.eqb_spec c k); [lia|]
         end.
  destruct (N.leb_spec 8192 c); [lia|]. reflexivity.
Qed.

Lemma isDigit_not_sign c :
  isDigit c = true -> (c =? HYPHEN)%N = false /\ (c =? PLUS_SIGN)%N = false.
Proof.
  intros H. apply isDigit_bounds in H. unfold HYPHEN, PLUS_SIGN.
  split; apply N.eqb_neq; lia.
Qed.

Lemma digitValue_bounds c : isDigit c = true -> 0 <= digitValue c <= 9.
Proof. intros H. apply isDigit_bounds in H. unfold digitValue. lia. Qed.

Lemma takeDigits_all s : forallb isDigit s = true -> takeDigits s = s.
Proof.
  induction s as [|c s IH]; simpl; [reflexivity|].
  intros H. apply andb_prop in H. destruct H as [Hc Hs].
  rewrite Hc, IH by exact Hs. reflexivity.
Qed.

(** On a non-empty run of digits [parseInt] is the decimal value. *)
Lemma parseInt10_digits c s :
  forallb isDigit (c :: s) = true ->
  parseInt10 (c :: s) = Some (decimalValue (c :: s)).
Proof.
  intros H. pose proof H as H'. simpl in H'. apply andb_prop in H'.
  destruct H' as [Hc Hs].
  unfold parseInt10. cbn [trimStart]. rewrite (isDigit_not_space c Hc).
  destruct (isDigit_not_sign c Hc) as [-> ->].
  rewrite (takeDigits_all _ H). f_equal. lia.
Qed.

(** [timeRegex] matches exactly the texts [timeCaptures] reads. *)
Lemma regexMatch_timeRegex t : regexMatch timeRegex t = timeCaptures t.
Proof.
  unfold regexMatch, timeCaptures.
  destruct t as [|c1 [|c2 [|c3 [|c4 [|c5 [|c6 t]]]]]]; cbn -[isDigit isChar];
    repeat match goal with
           | |- context [isDigit ?c] =>
               destruct (isDigit c) eqn:?; cbn -[isDigit isChar]
           | |- context [isChar COLON ?c] =>
               destruct (isChar COLON c) eqn:?; cbn -[isDigit isChar]
           end;
    reflexivity || congruence.
Qed.

Lemma timeCaptures_shape t g :
  timeCaptures t = Some g -> exists hs ms, g = [hs; ms] /\ clockShape t hs ms.
Proof.
  unfold timeCaptures, clockShape.
  destruct t as [|c1 [|c2 [|c3 [|c4 [|c5 [|c6 t]]]]]]; try discriminate.
  - destruct (isDigit c1) eqn:H1; [|discriminate].
    destruct (isChar COLON c2) eqn:H2; [|discriminate].
    destruct (isDigit c3) eqn:H3; [|discriminate].
    destruct (isDigit c4) eqn:H4; [|discriminate].
    cbn [andb]. intros H. injection H as <-.
    apply N.eqb_eq in H2. subst c2.
    exists [c1], [c3; c4]. cbn [forallb List.length app]. rewrite H1, H3, H4.
    repeat split; auto.
  - destruct (isDigit c1) eqn:H1; [|discriminate].
    destruct (isDigit c2) eqn:H2; [|discriminate].
    destruct (isChar COLON c3) eqn:H3; [|discriminate].
    destruct (isDigit c4) eqn:H4; [|discriminate].
    destruct (isDigit c5) eqn:H5; [|discriminate].
    cbn [andb]. intros H. injection H as <-.
    apply N.eqb_eq in H3. subst c3.
    exists [c1; c2], [c4; c5]. cbn [forallb List.length app]. rewrite H1, H2, H4, H5.
    repeat split; auto.
Qed.

Lemma shape_timeCaptures t hs ms :
  clockShape t hs ms -> timeCaptures t = Some [hs; ms].
Proof.
  intros (-> & Hlh & Hlm & Hdh & Hdm).
  destruct ms as [|m1 [|m2 [|m3 ms]]]; try discriminate Hlm.
  cbn [forallb] in Hdm. apply andb_prop in Hdm. destruct Hdm as [Hm1 Hdm].
  apply andb_prop in Hdm. destruct Hdm as [Hm2 _].
  destruct hs as [|a [|b [|c hs]]]; cbn [List.length] in Hlh;
    try (exfalso; destruct Hlh; discriminate).
  - cbn [forallb] in Hdh. apply andb_prop in Hdh. destruct Hdh as [Ha _].
    cbn [app timeCaptures]. rewrite Ha, Hm1, Hm2.
    unfold isChar. rewrite N.eqb_refl. reflexivity.
  - cbn [forallb] in Hdh. apply andb_prop in Hdh. destruct Hdh as [Ha Hdh].
    apply andb_prop in Hdh. destruct Hdh as [Hb _].
    cbn [app timeCaptures]. rewrite Ha, Hb, Hm1, Hm2.
    unfold isChar. rewrite N.eqb_refl. reflexivity.
Qed.

Lemma decimalValue_digits s :
  forallb isDigit s = true -> 0 <= decimalValue s.
Proof.
  unfold decimalValue.
  enough (H : forall acc, 0 <= acc -> forallb isDigit s = true ->
                          0 <= fold_left (fun a c => a * 10 + digitValue c) s acc)
    by (apply H; lia).
  induction s as [|c s IH]; intros acc Hacc Hd; [exact Hacc|].
  cbn [fold_left forallb] in *. apply andb_prop in Hd. destruct Hd as [Hc Hs].
  apply IH; [|exact Hs]. pose proof (digitValue_bounds c Hc). lia.
Qed.

Lemma clockShape_parseInt t hs ms :
  clockShape t hs ms ->
  parseInt10 hs = Some (decimalValue hs)
  /\ parseInt10 ms = Some (decimalValue ms)
  /\ 0 <= decimalValue hs /\ 0 <= decimalValue ms
  /\ isEmpty t = false.
Proof.
  intros (-> & Hlh & Hlm & Hdh & Hdm).
  destruct hs as [|a hs]; [exfalso; destruct Hlh; discriminate|].
  destruct ms as [|m ms]; [discriminate|].
  repeat split; try (now apply parseInt10_digits); now apply decimalValue_digits.
Qed.

(** What [parseTimeToMinutes] returns on a text of the clock shape. *)
Lemma parseTimeToMinutes_shape s hs ms :
  clockShape (trim s) hs ms ->
  parseTimeToMinutes s
  = if (decimalValue hs <? 0) || (23 <? decimalValue hs)
       || (decimalValue ms <? 0) || (59 <? decimalValue ms)
    then None
    else Some (decimalValue hs * 60 + decimalValue ms).
Proof.
  intros Hshape.
  destruct (clockShape_parseInt _ _ _ Hshape) as (Hh & Hm & _ & _ & Hne).
  unfold parseTimeToMinutes.
  rewrite Hne, regexMatch_timeRegex, (shape_timeCaptures _ _ _ Hshape), Hh, Hm.
  reflexivity.
Qed.

Lemma parseTimeToMinutes_some s v :
  parseTimeToMinutes s = Some v -> exists hs ms, clockShape (trim s) hs ms.
Proof.
  unfold parseTimeToMinutes.
  destruct (isEmpty (trim s)); [discriminate|].
  rewrite regexMatch_timeRegex.
  destruct (timeCaptures (trim s)) as [g|] eqn:Hc; [|discriminate].
  destruct (timeCaptures_shape _ _ Hc) as (hs & ms & _ & Hshape).
  intros _. now exists hs, ms.
Qed.

(** C7 (as the code has it). [parseTimeToMinutes] returns a value exactly
    when the input, once surrounding white space is trimmed, is [H:MM] or
    [HH:MM] with hour in [[0,23]] and minute in [[0,59]]; the value is
    then [hour * 60 + minute].  Every other input gives [None]. *)
Theorem parseTimeToMinutes_iff (s : jsstring) (v : Z) :
  parseTimeToMinutes s = Some v <-> clockTime (trim s) v.
Proof.
  split.
  - intros H. destruct (parseTimeToMinutes_some s v H) as (hs & ms & Hshape).
    rewrite (parseTimeToMinutes_shape s hs ms Hshape) in H.
    destruct (Z.ltb_spec (decimalValue hs) 0); [discriminate|].
    destruct (Z.ltb_spec 23 (decimalValue hs)); [discriminate|].
    destruct (Z.ltb_spec (decimalValue ms) 0); [discriminate|].
    destruct (Z.ltb_spec 59 (decimalValue ms)); [discriminate|].
    cbn [orb] in H. injection H as <-.
    exists hs, ms.
    split; [exact Hshape|]. split; [lia|]. split; [lia | reflexivity].
  - intros (hs & ms & Hshape & Hh & Hm & ->).
    rewrite (parseTimeToMinutes_shape s hs ms Hshape).
    destruct (Z.ltb_spec (decimalValue hs) 0); [lia|].
    destruct (Z.ltb_spec 23 (decimalValue hs)); [lia|].
    destruct (Z.ltb_spec (decimalValue ms) 0); [lia|].
    destruct (Z.ltb_spec 59 (decimalValue ms)); [lia|].
    reflexivity.
Qed.

(** C7 (as stated, refuted). The input [" 9:30"], with a leading space, is
    not of the shape [H:MM] or [HH:MM], yet it has the value 570. *)
Lemma parseTimeToMinutes_padded :
  parseTimeToMinutes (js " 9:30") = Some 570
  /\ ~ (exists v, clockTime (js " 9:30") v).
Proof.
  split; [reflexivity|].
  intros (v & hs & ms & (Heq & Hlh & _ & Hdh & _) & _).
  destruct hs as [|a hs]; [destruct Hlh; discriminate|].
  cbn in Heq. injection Heq as <- _.
  cbn in Hdh. discriminate.
Qed.

(* ================================================================= *)
(** * The event parser *)

Lemma parseLine_recognize workStart workEnd rawLine :
  parseLine workStart workEnd rawLine
  = clampEvent workStart workEnd (recognizeLine rawLine).
Proof.
  unfold parseLine, recognizeLine, clampEvent.
  destruct (isEmpty (trim rawLine)); [reflexivity|].
  destruct (regexMatch rangeRegex (trim rawLine))
    as [[|g1 [|g2 [|g3 [|g4 gs]]]]|]; try reflexivity.
  - destruct (parseTimeToMinutes g1); [|reflexivity].
    destruct (parseTimeToMinutes g2); [|reflexivity].
    destruct (isEmpty (trim g3)); reflexivity.
  - destruct (regexMatch singleRegex (trim rawLine))
      as [[|g1 [|g2 [|g3 gs]]]|]; try reflexivity.
    destruct (parseTimeToMinutes g1); [|reflexivity].
    destruct (isEmpty (trim g2)); reflexivity.
Qed.

Lemma fold_left_push {A B : Type} (f : A -> list B) (l : list A) : forall acc,
  fold_left (fun acc x => acc ++ f x) l acc = acc ++ flat_map f l.
Proof.
  induction l as [|x l IH]; intros acc; simpl; [now rewrite app_nil_r|].
  now rewrite IH, app_assoc.
Qed.

Lemma parseEvents_flat text workStart workEnd :
  parseEvents text workStart workEnd
  = sortByStart
      (flat_map (fun line => clampEvent workStart workEnd (recognizeLine line))
                (splitLines text)).
Proof.
  unfold parseEvents. rewrite fold_left_push. cbn [app]. f_equal.
  apply flat_map_ext. intros line. apply parseLine_recognize.
Qed.

Lemma insertByStart_perm e l : Permutation (insertByStart e l) (e :: l).
Proof.
  induction l as [|x l IH]; simpl; [reflexivity|].
  destruct (ParsedEvent.startMinutes e <=? ParsedEvent.startMinutes x); [reflexivity|].
  rewrite IH. apply perm_swap.
Qed.

Lemma sortByStart_perm l : Permutation (sortByStart l) l.
Proof.
  induction l as [|x l IH]; simpl; [reflexivity|].
  rewrite insertByStart_perm. now constructor.
Qed.

Lemma insertByStart_sorted e l :
  Sorted byStart l -> Sorted byStart (insertByStart e l).
Proof.
  induction 1 as [|x l Hl IH Hhd]; simpl; [repeat constructor|].
  destruct (Z.leb_spec (ParsedEvent.startMinutes e) (ParsedEvent.startMinutes x)).
  - constructor; [now constructor|]. constructor. exact H.
  - constructor; [exact IH|].
    destruct Hhd as [|y l' Hxy]; simpl.
    + constructor. unfold byStart. lia.
    + destruct (ParsedEvent.startMinutes e <=? ParsedEvent.startMinutes y);
        constructor; [unfold byStart; lia | exact Hxy].
Qed.

(** The events come out sorted by start time. *)
Lemma parseEvents_sorted text workStart workEnd :
  Sorted byStart (parseEvents text workStart workEnd).
Proof.
  rewrite parseEvents_flat. unfold sortByStart.
  induction (flat_map _ _) as [|x l IH]; simpl; [constructor|].
  now apply insertByStart_sorted.
Qed.

Lemma clampEvent_bounds workStart workEnd r ev :
  In ev (clampEvent workStart workEnd r) ->
  workStart <= ParsedEvent.startMinutes ev
  /\ ParsedEvent.startMinutes ev < ParsedEvent.endMinutes ev
  /\ ParsedEvent.endMinutes ev <= workEnd.
Proof.
  destruct r as [[[title start] end_]|]; simpl; [|contradiction].
  destruct (Z.ltb_spec (Z.max start workStart) (Z.min end_ workEnd));
    simpl; [|contradiction].
  intros [<-|[]]. simpl. lia.
Qed.

Lemma splitLines_nonempty s : splitLines s <> [].
Proof.
  destruct s as [|c s]; simpl; [discriminate|].
  destruct (c =? LF)%N; [discriminate|].
  destruct (splitLines s); discriminate.
Qed.

Lemma splitLines_app a b :
  splitLines (a ++ LF :: b) = splitLines a ++ splitLines b.
Proof.
  induction a as [|c a IH]; simpl.
  - reflexivity.
  - destruct (c =? LF)%N; [now rewrite IH|].
    rewrite IH. pose proof (splitLines_nonempty a) as Hne.
    destruct (splitLines a); [contradiction | reflexivity].
Qed.

Lemma splitLines_single line : ~ In LF line -> splitLines line = [line].
Proof.
  induction line as [|c line IH]; intros Hno; simpl; [reflexivity|].
  destruct (N.eqb_spec c LF) as [->|_]; [exfalso; apply Hno; now left|].
  rewrite IH; [reflexivity|]. intros Hin. apply Hno. now right.
Qed.



(** C6. The events of [parseEvents] are, up to order, the recognized lines
    of the text clamped to the window: start [max start workStart], end
    [min end workEnd], and nothing for a line whose clamped end is not
    after its clamped start.  Hence every event [ev] of the output has
    [workStart <= startMinutes ev < endMinutes ev <= workEnd]. *)
Theorem parseEvents_clamped (text : jsstring) (workStart workEnd : Z) :
  Permutation
    (parseEvents text workStart workEnd)
    (flat_map (fun line => clampEvent workStart workEnd (recognizeLine line))
              (splitLines text))
  /\ (forall ev, In ev (parseEvents text workStart workEnd) <->
        exists line title start end_,
          In line (splitLines text)
          /\ recognizeLine line = Some (title, start, end_)
          /\ Z.max start workStart < Z.min end_ workEnd
          /\ ev = ParsedEvent.mk title (Z.max start workStart) (Z.min end_ workEnd))
  /\ (forall ev, In ev (parseEvents text workStart workEnd) ->
        workStart <= ParsedEvent.startMinutes ev
        /\ ParsedEvent.startMinutes ev < ParsedEvent.endMinutes ev
        /\ ParsedEvent.endMinutes ev <= workEnd).
Proof.
  assert (Hperm : Permutation
    (parseEvents text workStart workEnd)
    (flat_map (fun line => clampEvent workStart workEnd (recognizeLine line))
              (splitLines text))).
  { rewrite parseEvents_flat. apply sortByStart_perm. }
  split; [exact Hperm|]. split.
  - intros ev. split.
    + intros Hin. apply (Permutation_in _ Hperm) in Hin.
      apply in_flat_map in Hin. destruct Hin as (line & Hline & Hev).
      destruct (recognizeLine line) as [[[title start] end_]|] eqn:Hrec;
        simpl in Hev; [|contradiction].
      destruct (Z.ltb_spec (Z.max start workStart) (Z.min end_ workEnd));
        simpl in Hev; [|contradiction].
      destruct Hev as [<-|[]].
      exists line, title, start, end_. repeat split; assumption.
    + intros (line & title & start & end_ & Hline & Hrec & Hlt & ->).
      apply (Permutation_in _ (Permutation_sym Hperm)).
      apply in_flat_map. exists line. split; [exact Hline|].
      rewrite Hrec. simpl.
      destruct (Z.ltb_spec (Z.max start workStart) (Z.min end_ workEnd)); [|lia].
      now left.
  - intros ev Hin. apply (Permutation_in _ Hperm) in Hin.
    apply in_flat_map in Hin. destruct Hin as (line & _ & Hev).
    exact (clampEvent_bounds _ _ _ _ Hev).
Qed.

Lemma parseEvents_clamped_witness :
  let ev := ParsedEvent.mk (js "Early") 540 570 in
  In ev (parseEvents (js "08:00-09:30 Early") 540 1020)
  /\ 540 <= ParsedEvent.startMinutes ev
  /\ ParsedEvent.startMinutes ev < ParsedEvent.endMinutes ev
  /\ ParsedEvent.endMinutes ev <= 1020.
Proof.
  intros ev.
  assert (Hin : In ev (parseEvents (js "08:00-09:30 Early") 540 1020))
    by (left; reflexivity).
  split; [exact Hin|].
  destruct (parseEvents_clamped (js "08:00-09:30 Early") 540 1020) as (_ & _ & H).
  exact (H ev Hin).
Defined.

(* ================================================================= *)
(** * Duration labels and the overload message *)

Lemma uintUnits_digits d : forallb isDigit (uintUnits d) = true.
Proof. induction d; simpl; auto. Qed.

Lemma uintUnits_zero d : uintUnits d = [48%N] -> d = Decimal.D0 Decimal.Nil.
Proof.
  destruct d as [|d|d|d|d|d|d|d|d|d|d]; simpl; try discriminate.
  intros H. injection H as H. destruct d; simpl in H; try discriminate.
  reflexivity.
Qed.

Lemma numberToString_nonneg n :
  0 <= n -> exists d, Z.to_int n = Decimal.Pos d /\ numberToString n = uintUnits d.
Proof.
  intros Hn. unfold numberToString.
  destruct n as [|p|p]; [| |lia]; simpl; eexists; split; reflexivity.
Qed.

Lemma numberToString_zero n : 0 <= n -> numberToString n = [48%N] -> n = 0.
Proof.
  intros Hn H. destruct (numberToString_nonneg n Hn) as (d & Hd & Hs).
  rewrite Hs in H. apply uintUnits_zero in H. subst d.
  pose proof (DecimalZ.of_to n) as Hz. rewrite Hd in Hz.
  change (Z.of_int (Decimal.Pos (Decimal.D0 Decimal.Nil))) with 0 in Hz. lia.
Qed.

(** The digits [numberToString] writes denote the number. *)
Lemma uintUnits_value_acc d : forall acc,
  fold_left (fun a c => a * 10 + digitValue c) (uintUnits d) (Z.pos acc)
  = Z.pos (Pos.of_uint_acc d acc).
Proof.
  induction d; intros acc; cbn [uintUnits fold_left Pos.of_uint_acc];
    try reflexivity;
    rewrite <- IHd; f_equal; unfold digitValue; lia.
Qed.

Lemma uintUnits_value d : decimalValue (uintUnits d) = Z.of_uint d.
Proof.
  unfold decimalValue, Z.of_uint.
  induction d; cbn [uintUnits fold_left Pos.of_uint]; try reflexivity;
    try exact IHd;
    change (0 * 10 + digitValue _) with (Z.pos 1) ||
    change (0 * 10 + digitValue _) with (Z.pos 2) ||
    change (0 * 10 + digitValue _) with (Z.pos 3) ||
    change (0 * 10 + digitValue _) with (Z.pos 4) ||
    change (0 * 10 + digitValue _) with (Z.pos 5) ||
    change (0 * 10 + digitValue _) with (Z.pos 6) ||
    change (0 * 10 + digitValue _) with (Z.pos 7) ||
    change (0 * 10 + digitValue _) with (Z.pos 8) ||
    change (0 * 10 + digitValue _) with (Z.pos 9);
    rewrite uintUnits_value_acc; reflexivity.
Qed.

Lemma numberToString_value n :
  0 <= n -> decimalValue (numberToString n) = n.
Proof.
  intros Hn. destruct (numberToString_nonneg n Hn) as (d & Hd & ->).
  rewrite uintUnits_value. pose proof (DecimalZ.of_to n) as Hz.
  rewrite Hd in Hz. exact Hz.
Qed.

Example numberToString_135 : numberToString 135 = js "135".
Proof. reflexivity. Qed.

Example numberToString_minus_30 : numberToString (-30) = js "-30".
Proof. reflexivity. Qed.

Lemma minutesToLabel_parts n :
  0 <= n -> 0 <= n / 60 /\ Z.rem n 60 = n mod 60 /\ 0 <= n mod 60 < 60.
Proof.
  intros Hn. split; [apply Z.div_pos; lia|].
  split; [apply Z.rem_mod_nonneg; lia | apply Z.mod_pos_bound; lia].
Qed.

(** C8. For a minute count [n >= 0] that is a safe integer (so that
    [Math.floor(n / 60)] is the quotient and the numbers print all their
    digits), [minutesToLabel] gives ["0m"] for 0,
    the hours followed by [h] for a positive multiple of 60, the minutes
    followed by [m] under one hour, and hours, [h], a space, minutes, [m]
    otherwise; it never gives ["0h 0m"].  In particular 0 is ["0m"], 60 is
    ["1h"] and 90 is ["1h 30m"]. *)
Theorem minutesToLabel_format (n : Z) :
  0 <= n ->
  safeInteger n ->
  minutesToLabel 0 = js "0m"
  /\ minutesToLabel 60 = js "1h"
  /\ minutesToLabel 90 = js "1h 30m"
  /\ (0 < n -> n mod 60 = 0 ->
      minutesToLabel n = numberToString (n / 60) ++ js "h")
  /\ (0 < n < 60 -> minutesToLabel n = numberToString n ++ js "m")
  /\ (60 <= n -> n mod 60 <> 0 ->
      minutesToLabel n
      = numberToString (n / 60) ++ js "h " ++ numberToString (n mod 60) ++ js "m")
  /\ minutesToLabel n <> js "0h 0m".
Proof.
  intros Hn _.
  destruct (minutesToLabel_parts n Hn) as (Hh & Hrem & Hm).
  split; [reflexivity|]. split; [reflexivity|]. split; [reflexivity|].
  split.
  { intros Hpos Hdiv. unfold minutesToLabel. rewrite Hrem, Hdiv.
    destruct (Z.eqb_spec (n / 60) 0) as [Hz|_]; [|reflexivity].
    apply Z.div_small_iff in Hz; [|lia].
    rewrite Z.mod_small in Hdiv by lia. lia. }
  split.
  { intros Hlt. unfold minutesToLabel. rewrite Hrem.
    rewrite Z.div_small, Z.mod_small by lia. reflexivity. }
  split.
  { intros Hge Hnd. unfold minutesToLabel. rewrite Hrem.
    destruct (Z.eqb_spec (n / 60) 0) as [Hz|_].
    - apply Z.div_small_iff in Hz; lia.
    - destruct (Z.eqb_spec (n mod 60) 0); [contradiction | reflexivity]. }
  unfold minutesToLabel. rewrite Hrem.
  change (js "0h 0m") with ([48; 104; 32; 48] ++ [109])%N.
  destruct (numberToString_nonneg (n / 60) Hh) as (dh & _ & Hsh).
  destruct (numberToString_nonneg (n mod 60) ltac:(lia)) as (dm & _ & Hsm).
  destruct (Z.eqb_spec (n / 60) 0) as [Hz|Hnz].
  - change (js "m") with [109%N]. intros H. apply app_inj_tail in H.
    destruct H as [H _]. rewrite Hsm in H.
    pose proof (uintUnits_digits dm) as Hd. rewrite H in Hd. discriminate.
  - destruct (Z.eqb_spec (n mod 60) 0) as [_|_].
    + change (js "h") with [104%N]. intros H. apply app_inj_tail in H.
      destruct H as [_ H]. discriminate.
    + intros H.
      pose proof (uintUnits_digits dh) as Hd.
      pose proof (numberToString_zero (n / 60) Hh) as Hzero.
      rewrite Hsh in H, Hzero.
      change (js "h ") with [104; 32]%N in H.
      destruct (uintUnits dh) as [|x [|y l]]; cbn [app] in H.
      * discriminate.
      * injection H as -> _. apply Hnz, Hzero. reflexivity.
      * injection H as _ Hy _. subst y.
        cbn [forallb] in Hd. apply andb_prop in Hd. destruct Hd as [_ Hd].
        apply andb_prop in Hd. destruct Hd as [Hd _].
        vm_compute in Hd. discriminate Hd.
Qed.

Lemma minutesToLabel_format_witness :
  minutesToLabel 120 = numberToString 2 ++ js "h"
  /\ minutesToLabel 135 = js "2h 15m"
  /\ minutesToLabel 135 <> js "0h 0m".
Proof.
  split.
  - destruct (minutesToLabel_format 120 ltac:(lia)
                ltac:(unfold safeInteger, MAX_SAFE_INTEGER; lia))
      as (_ & _ & _ & H & _).
    apply H; [lia | reflexivity].
  - split; [reflexivity|].
    destruct (minutesToLabel_format 135 ltac:(lia)
                ltac:(unfold safeInteger, MAX_SAFE_INTEGER; lia))
      as (_ & _ & _ & _ & _ & _ & H).
    exact H.
Defined.

(** C9. For free and planned minutes that are safe integers, as is
    their difference (so that [diff] is the difference and its label
    is that of C8), the overload message is decided in this order: with no free
    minutes it is the no-free-time sentence whatever is planned; otherwise
    with more planned than free it is "Overbooked by" and the label of the
    excess; otherwise with less planned than free it is the label of the
    minutes still free; otherwise the perfectly-packed sentence. *)
Theorem overloadMessage_cases (free planned : Z) :
  safeInteger free -> safeInteger planned -> safeInteger (planned - free) ->
  (free = 0 ->
   overloadMessage free planned = js "No free time in your work window.")
  /\ (free <> 0 -> free < planned ->
      overloadMessage free planned
      = js "Overbooked by " ++ minutesToLabel (planned - free) ++ js ".")
  /\ (free <> 0 -> planned < free ->
      overloadMessage free planned
      = js "You still have " ++ minutesToLabel (free - planned) ++ js " free.")
  /\ (free <> 0 -> planned = free ->
      overloadMessage free planned
      = js "Perfectly packed " ++ [EN_DASH] ++ js " no free time left.").
Proof.
  intros _ _ _. unfold overloadMessage.
  split; [intros ->; reflexivity|].
  split.
  { intros Hf Hlt. destruct (Z.eqb_spec free 0); [contradiction|].
    destruct (Z.ltb_spec 0 (planned - free)); [reflexivity | lia]. }
  split.
  { intros Hf Hlt. destruct (Z.eqb_spec free 0); [contradiction|].
    destruct (Z.ltb_spec 0 (planned - free)); [lia|].
    destruct (Z.ltb_spec (planned - free) 0); [|lia].
    replace (- (planned - free)) with (free - planned) by lia. reflexivity. }
  intros Hf ->. destruct (Z.eqb_spec free 0); [contradiction|].
  destruct (Z.ltb_spec 0 (free - free)); [lia|].
  destruct (Z.ltb_spec (free - free) 0); [lia | reflexivity].
Qed.

Lemma overloadMessage_cases_witness :
  overloadMessage 0 45 = js "No free time in your work window."
  /\ overloadMessage 60 150 = js "Overbooked by 1h 30m."
  /\ overloadMessage 480 450 = js "You still have 30m free."
  /\ overloadMessage 60 60
     = js "Perfectly packed " ++ [EN_DASH] ++ js " no free time left.".
Proof.
  split.
  - destruct (overloadMessage_cases 0 45) as (H & _);
      [unfold safeInteger, MAX_SAFE_INTEGER; lia ..|].
    apply H. reflexivity.
  - split.
    + destruct (overloadMessage_cases 60 150) as (_ & H & _);
        [unfold safeInteger, MAX_SAFE_INTEGER; lia ..|].
      rewrite H by lia. reflexivity.
    + split.
      * destruct (overloadMessage_cases 480 450) as (_ & _ & H & _);
          [unfold safeInteger, MAX_SAFE_INTEGER; lia ..|].
        rewrite H by lia. reflexivity.
      * destruct (overloadMessage_cases 60 60) as (_ & _ & _ & H);
          [unfold safeInteger, MAX_SAFE_INTEGER; lia ..|].
        apply H; [lia | reflexivity].
Defined.

(* ================================================================= *)
(** * Properties of [buildPlan] *)

(** C2 (as the code has it). With the free slots [{0,30}] and [{60,90}] and
    one included task of 45 minutes, [buildPlan] returns the two blocks
    [{0,30}] and [{60,75}] and an empty unscheduled list: the 45 minutes
    fit into the 60 free minutes, so the task is fully placed. *)
Theorem buildPlan_split_across_slots
  (id : Z) (title : jsstring) (isImportant : bool) (context : TaskContext)
  (reviewStatus : option ReviewStatus) (reviewNote : option jsstring) :
  buildPlan [FreeSlot.mk 0 30; FreeSlot.mk 60 90]
            [ParsedTask.mk id title true 45 isImportant context
               reviewStatus reviewNote]
  = mkPlan [PlannedBlock.mk title 0 30 isImportant context;
            PlannedBlock.mk title 60 75 isImportant context]
           [].
Proof. reflexivity. Qed.

(** C2 (as stated, refuted). The task of the example is not in the
    unscheduled list. *)
Lemma buildPlan_split_not_unscheduled :
  let task := ParsedTask.mk 1 (js "Write report") true 45 false deep None None in
  let plan := buildPlan [FreeSlot.mk 0 30; FreeSlot.mk 60 90] [task] in
  ~ (map (fun b => (PlannedBlock.startMinutes b, PlannedBlock.endMinutes b))
         (plan_blocks plan) = [(0, 30); (60, 75)]
     /\ In task (unscheduled plan)).
Proof. intros task plan [_ Hin]. exact Hin. Qed.

(** C3. For free slots and durations that are safe integers, as is the
    capacity of the slots (so that the sums and differences of the code
    are exact, see [whileBody_exact]), the unscheduled list of
    [buildPlan] holds, in task order, exactly
    the tasks that are not included, or have no positive duration, or
    whose duration exceeds the capacity the earlier tasks left (their
    [remaining] is positive when the loop stops, which it then does for
    want of a slot).  Skipped tasks use no capacity: without them the
    blocks are the same and so are the other unscheduled tasks.  A task
    that only partly fits keeps the blocks it got and is unscheduled. *)
Theorem buildPlan_unscheduled_iff (freeSlots : list FreeSlot.t)
  (tasks : list ParsedTask.t) :
  Forall safeSlot freeSlots ->
  Forall safeTask tasks ->
  safeInteger (capacity freeSlots) ->
  unscheduled (buildPlan freeSlots tasks)
    = unscheduledSpec (capacity freeSlots) tasks
  /\ plan_blocks (buildPlan freeSlots (filter schedulable tasks))
     = plan_blocks (buildPlan freeSlots tasks)
  /\ unscheduled (buildPlan freeSlots (filter schedulable tasks))
     = filter schedulable (unscheduled (buildPlan freeSlots tasks))
  /\ (forall pre task post, tasks = pre ++ task :: post ->
      schedulable task = true ->
      let st := runTasks freeSlots (initialState freeSlots) pre in
      let out := whileLoop (loopFuel freeSlots) freeSlots task st
                           (ParsedTask.durationMinutes task) in
      let left := capAfter (capacity freeSlots) pre in
      snd out = Z.max 0 (ParsedTask.durationMinutes task - left)
      /\ (0 < snd out -> currentSlot (fst out) = None)
      /\ unscheduled (buildPlan freeSlots (pre ++ [task]))
         = unscheduled (buildPlan freeSlots pre)
           ++ (if 0 <? snd out then [task] else [])
      /\ totalPlannedTaskMinutes (plan_blocks (buildPlan freeSlots (pre ++ [task])))
         = totalPlannedTaskMinutes (plan_blocks (buildPlan freeSlots pre))
           + Z.min (ParsedTask.durationMinutes task) left).
Proof.
  intros _ _ _.
  pose proof (consistent_initialState freeSlots) as Hc0.
  split.
  { rewrite buildPlan_unscheduled_state.
    destruct (runTasks_spec freeSlots tasks _ Hc0) as (_ & _ & Hrt & _).
    rewrite Hrt, capLeft_initialState. reflexivity. }
  split.
  { rewrite !buildPlan_blocks.
    pose proof (runTasks_filter freeSlots tasks (initialState freeSlots)) as H.
    apply (f_equal blocks) in H. exact H. }
  split.
  { rewrite !buildPlan_unscheduled_state.
    destruct (runTasks_spec freeSlots tasks _ Hc0) as (_ & _ & Hrt & _).
    destruct (runTasks_spec freeSlots (filter schedulable tasks) _ Hc0)
      as (_ & _ & Hrt' & _).
    rewrite Hrt, Hrt'. cbn [initialState remainingTasks app].
    apply unscheduledSpec_filter. }
  intros pre task post _ Hs st out left.
  assert (Hd : 0 < ParsedTask.durationMinutes task).
  { unfold schedulable in Hs. apply andb_prop in Hs. destruct Hs as [_ Hs].
    now apply Z.ltb_lt. }
  destruct (runTasks_spec freeSlots pre _ Hc0) as (Hc & Hcap & Hrt & Htot & _).
  fold st in Hc, Hcap, Hrt, Htot.
  rewrite capLeft_initialState in Hcap, Hrt, Htot. fold left in Hcap.
  destruct (whileLoop_remaining freeSlots task st _ Hc Hd) as (Hr & Hcap' & Hnone).
  fold out in Hr, Hcap', Hnone. rewrite Hcap in Hr, Hcap'.
  split; [exact Hr|]. split; [exact Hnone|].
  destruct (taskStep_spec freeSlots st task Hc) as (_ & Hcap1 & Hrt1 & Htot1 & _).
  rewrite Hcap in Hcap1, Hrt1, Htot1.
  pose proof (capAfter_le pre (capacity freeSlots) (capacity_nonneg freeSlots)) as Hle.
  fold left in Hle.
  split.
  - rewrite !buildPlan_unscheduled_state, runTasks_app. fold st.
    change (runTasks freeSlots st [task]) with (taskStep freeSlots st task).
    rewrite Hrt1. f_equal.
    cbn [unscheduledSpec]. rewrite schedulable_skip, Hs. cbn [negb]. rewrite Hr.
    destruct (Z.ltb_spec 0 (ParsedTask.durationMinutes task - left));
      destruct (Z.ltb_spec 0 (Z.max 0 (ParsedTask.durationMinutes task - left)));
      try lia; reflexivity.
  - rewrite !buildPlan_blocks, runTasks_app. fold st.
    change (runTasks freeSlots st [task]) with (taskStep freeSlots st task).
    rewrite Htot1, Hcap1. cbn [capAfter fold_left]. rewrite Hs. lia.
Qed.

Lemma buildPlan_unscheduled_iff_witness :
  let t1 := ParsedTask.mk 1 (js "Inbox") true 20 false admin None None in
  let t2 := ParsedTask.mk 2 (js "Report") true 45 true deep None None in
  let t3 := ParsedTask.mk 3 (js "Call") false 15 false calls None None in
  let slots := [FreeSlot.mk 0 30; FreeSlot.mk 60 90] in
  unscheduled (buildPlan slots [t1; t2])
    = unscheduled (buildPlan slots [t1]) ++ [t2]
  /\ totalPlannedTaskMinutes (plan_blocks (buildPlan slots [t1; t2]))
     = totalPlannedTaskMinutes (plan_blocks (buildPlan slots [t1])) + 40.
Proof.
  intros t1 t2 t3 slots.
  destruct (buildPlan_unscheduled_iff slots [t1; t2; t3]) as (_ & _ & _ & H).
  - repeat constructor;
      unfold safeInteger, MAX_SAFE_INTEGER; simpl; lia.
  - repeat constructor;
      unfold safeTask, safeInteger, MAX_SAFE_INTEGER; simpl; lia.
  - unfold safeInteger, MAX_SAFE_INTEGER, capacity; simpl; lia.
  - destruct (H [t1] t2 [t3] eq_refl eq_refl) as (_ & _ & Hu & Hb).
    split; [exact Hu | exact Hb].
Defined.

(** C4. The slot index and the cursor are never reset between tasks:
    for free slots and durations that are safe integers (so that the
    sums and differences of the code are exact, see [whileBody_exact]),
    across a task the index does not decrease, within one slot the
    cursor does not decrease, and the capacity left to the task is what
    the earlier tasks have left.  With the single slot [{0,30}] and two
    included tasks of 30 and 10 minutes the first is the block [{0,30}]
    and the second is unscheduled with no block.  With no free slot no
    block is produced and every task is unscheduled. *)
Theorem buildPlan_shared_cursor :
  (forall freeSlots pre task,
     Forall safeSlot freeSlots -> Forall safeTask pre -> safeTask task ->
     let st := runTasks freeSlots (initialState freeSlots) pre in
     let st' := taskStep freeSlots st task in
     (slotIndex st <= slotIndex st')%nat
     /\ (slotIndex st' = slotIndex st -> slotCursor st <= slotCursor st')
     /\ capLeft freeSlots st = capAfter (capacity freeSlots) pre
     /\ capLeft freeSlots st' = capAfter (capLeft freeSlots st) [task]
     /\ capLeft freeSlots st' <= capLeft freeSlots st)
  /\ (forall id1 title1 imp1 ctx1 rs1 rn1 id2 title2 imp2 ctx2 rs2 rn2,
        let task1 := ParsedTask.mk id1 title1 true 30 imp1 ctx1 rs1 rn1 in
        let task2 := ParsedTask.mk id2 title2 true 10 imp2 ctx2 rs2 rn2 in
        buildPlan [FreeSlot.mk 0 30] [task1]
        = mkPlan [PlannedBlock.mk title1 0 30 imp1 ctx1] []
        /\ buildPlan [FreeSlot.mk 0 30] [task1; task2]
           = mkPlan [PlannedBlock.mk title1 0 30 imp1 ctx1] [task2])
  /\ (forall tasks, buildPlan [] tasks = mkPlan [] tasks).
Proof.
  split.
  { intros freeSlots pre task _ _ _ st st'.
    destruct (runTasks_spec freeSlots pre _ (consistent_initialState freeSlots))
      as (Hc & Hcap & _).
    fold st in Hc, Hcap. rewrite capLeft_initialState in Hcap.
    destruct (taskStep_spec freeSlots st task Hc) as (_ & Hcap1 & _ & _ & Hidx & Hcur & _).
    fold st' in Hcap1, Hidx, Hcur.
    pose proof (capAfter_le [task] _ (capLeft_nonneg freeSlots st)).
    repeat split; try assumption; lia. }
  split; [intros; split; reflexivity|].
  intros tasks. unfold buildPlan.
  enough (H : forall rt, runTasks [] (mkPlanState [] rt O None 0) tasks
                         = mkPlanState [] (rt ++ tasks) O None 0)
    by (change (initialState []) with (mkPlanState [] [] O None 0); now rewrite H).
  induction tasks as [|t ts IH]; intros rt; [now rewrite app_nil_r|].
  change (runTasks [] (mkPlanState [] rt O None 0) (t :: ts))
    with (runTasks [] (taskStep [] (mkPlanState [] rt O None 0) t) ts).
  assert (Hstep : taskStep [] (mkPlanState [] rt O None 0) t
                  = mkPlanState [] (rt ++ [t]) O None 0).
  { unfold taskStep.
    destruct (negb (ParsedTask.include t)) eqn:Hi; [reflexivity|].
    destruct (Z.leb_spec (ParsedTask.durationMinutes t) 0) as [Hd|Hd]; [reflexivity|].
    change (loopFuel []) with O. cbn [orb whileLoop].
    destruct (Z.ltb_spec 0 (ParsedTask.durationMinutes t)); [reflexivity | lia]. }
  rewrite Hstep, IH, <- app_assoc. reflexivity.
Qed.

Lemma buildPlan_shared_cursor_witness :
  let slots := [FreeSlot.mk 0 30; FreeSlot.mk 60 90] in
  let t1 := ParsedTask.mk 1 (js "Inbox") true 20 false admin None None in
  let t2 := ParsedTask.mk 2 (js "Notes") true 5 false other None None in
  slotCursor (runTasks slots (initialState slots) [t1])
  <= slotCursor (taskStep slots (runTasks slots (initialState slots) [t1]) t2).
Proof.
  intros slots t1 t2.
  destruct buildPlan_shared_cursor as (H & _ & _).
  destruct (H slots [t1] t2) as (_ & Hcur & _).
  - repeat constructor;
      unfold safeInteger, MAX_SAFE_INTEGER; simpl; lia.
  - repeat constructor;
      unfold safeTask, safeInteger, MAX_SAFE_INTEGER; simpl; lia.
  - unfold safeTask, safeInteger, MAX_SAFE_INTEGER; simpl; lia.
  - apply Hcur. reflexivity.
Defined.

(** C10. When the free slots are ordered ([slot[i].end <= slot[i+1].start])
    and each is non-empty, for free slots and durations that are safe
    integers, as is the total of the free minutes (so that the sums and
    differences of the code are exact, see [whileBody_exact]), every block of [buildPlan] is non-empty, the
    blocks are ordered ([block[i].end <= block[j].start] for [i < j],
    hence pairwise disjoint and ascending), every block lies inside one
    of the free slots, and the planned minutes do not exceed the free
    minutes. *)
Theorem buildPlan_blocks_invariant (freeSlots : list FreeSlot.t)
  (tasks : list ParsedTask.t) :
  Sorted slotBefore freeSlots ->
  Forall slotNonEmpty freeSlots ->
  Forall safeSlot freeSlots ->
  Forall safeTask tasks ->
  safeInteger (totalFreeMinutes freeSlots) ->
  let planBlocks := plan_blocks (buildPlan freeSlots tasks) in
  (forall b, In b planBlocks ->
     PlannedBlock.startMinutes b < PlannedBlock.endMinutes b)
  /\ (forall i j a b, (i < j)%nat ->
        nth_error planBlocks i = Some a -> nth_error planBlocks j = Some b ->
        PlannedBlock.endMinutes a <= PlannedBlock.startMinutes b)
  /\ (forall a b t, In a planBlocks -> In b planBlocks ->
        inBlock a t -> inBlock b t -> a = b)
  /\ (forall b, In b planBlocks ->
        exists slot, In slot freeSlots /\ blockInSlot b slot)
  /\ totalPlannedTaskMinutes planBlocks <= totalFreeMinutes freeSlots.
Proof.
  intros Hsorted Hne _ _ _ planBlocks. subst planBlocks. rewrite buildPlan_blocks.
  pose proof (sorted_slots_strongly _ Hsorted Hne) as Hss.
  pose proof (runTasks_planInv freeSlots Hss Hne tasks _
                (planInv_initialState freeSlots Hne)) as (_ & Hord & Hall & _).
  set (bs := blocks (runTasks freeSlots (initialState freeSlots) tasks)) in *.
  rewrite Forall_forall in Hall.
  split; [intros b Hb; apply (Hall b Hb)|].
  split; [exact (StronglySorted_nth _ _ Hord)|].
  split.
  { intros a b t Ha Hb Hta Htb.
    apply In_nth_error in Ha, Hb. destruct Ha as [i Hi], Hb as [j Hj].
    unfold inBlock, inside in *.
    destruct (Nat.lt_trichotomy i j) as [Hlt|[Heq|Hgt]].
    - pose proof (StronglySorted_nth _ _ Hord _ _ _ _ Hlt Hi Hj) as H.
      unfold blockBefore in H. lia.
    - subst j. congruence.
    - pose proof (StronglySorted_nth _ _ Hord _ _ _ _ Hgt Hj Hi) as H.
      unfold blockBefore in H. lia. }
  split; [intros b Hb; apply (Hall b Hb)|].
  destruct (runTasks_spec freeSlots tasks _ (consistent_initialState freeSlots))
    as (_ & _ & _ & Htot & _).
  fold bs in Htot. rewrite Htot, capLeft_initialState, totalFree_capacity by exact Hne.
  pose proof (capLeft_nonneg freeSlots
                (runTasks freeSlots (initialState freeSlots) tasks)).
  cbn [initialState blocks]. change (totalPlannedTaskMinutes []) with 0. lia.
Qed.

Lemma buildPlan_blocks_invariant_witness :
  let slots := [FreeSlot.mk 0 30; FreeSlot.mk 60 90] in
  let tasks := [ParsedTask.mk 1 (js "Report") true 45 true deep None None;
                ParsedTask.mk 2 (js "Inbox") true 100 false admin None None] in
  totalPlannedTaskMinutes (plan_blocks (buildPlan slots tasks))
  <= totalFreeMinutes slots.
Proof.
  intros slots tasks.
  apply (buildPlan_blocks_invariant slots tasks).
  - repeat constructor. unfold slotBefore; simpl; lia.
  - repeat constructor; unfold slotNonEmpty; simpl; lia.
  - repeat constructor;
      unfold safeInteger, MAX_SAFE_INTEGER; simpl; lia.
  - repeat constructor;
      unfold safeTask, safeInteger, MAX_SAFE_INTEGER; simpl; lia.
  - unfold safeInteger, MAX_SAFE_INTEGER, totalFreeMinutes; simpl; lia.
Defined.

(* ================================================================= *)
(** * Clock strings *)

Lemma seq_Z_in (n : Z) (len : nat) :
  0 <= n < Z.of_nat len -> In n (map Z.of_nat (seq 0 len)).
Proof.
  intros Hn. apply in_map_iff. exists (Z.to_nat n).
  split; [lia|]. apply in_seq. lia.
Qed.

Lemma clockString_all : forallb clockString (map Z.of_nat (seq 0 1440)) = true.
Proof. vm_compute. reflexivity. Qed.

Lemma clockString_day n : 0 <= n < 1440 -> clockString n = true.
Proof.
  intros Hn. pose proof clockString_all as H. rewrite forallb_forall in H.
  apply H. apply seq_Z_in. simpl. lia.
Qed.

(** The shape of the text of a minute of the day. *)
Lemma minutesToTimeString_shape n :
  0 <= n < 1440 ->
  exists d1 d2 d3 d4,
    minutesToTimeString n = [d1; d2; COLON; d3; d4]
    /\ isDigit d1 = true /\ isDigit d2 = true
    /\ isDigit d3 = true /\ isDigit d4 = true
    /\ parseTimeToMinutes [d1; d2; COLON; d3; d4] = Some n.
Proof.
  intros Hn. pose proof (clockString_day n Hn) as H. unfold clockString in H.
  destruct (minutesToTimeString n) as [|d1 [|d2 [|c [|d3 [|d4 [|x l]]]]]];
    try discriminate.
  repeat (apply andb_prop in H; destruct H as [H ?]).
  match goal with Hc : isChar COLON c = true |- _ =>
    apply N.eqb_eq in Hc; subst c end.
  exists d1, d2, d3, d4.
  destruct (parseTimeToMinutes [d1; d2; COLON; d3; d4]) as [v|]; [|discriminate].
  match goal with Hv : (v =? n) = true |- _ => apply Z.eqb_eq in Hv; subst v end.
  repeat split;
    first [assumption | reflexivity
          | unfold isDigit; apply andb_true_intro; split; assumption].
Qed.

(** A value of [parseTimeToMinutes] is a minute of the day. *)
Lemma parseTimeToMinutes_range s v :
  parseTimeToMinutes s = Some v -> 0 <= v < 1440.
Proof.
  intros H. destruct (parseTimeToMinutes_some s v H) as (hs & ms & Hshape).
  rewrite (parseTimeToMinutes_shape s hs ms Hshape) in H.
  destruct (Z.ltb_spec (decimalValue hs) 0); [discriminate|].
  destruct (Z.ltb_spec 23 (decimalValue hs)); [discriminate|].
  destruct (Z.ltb_spec (decimalValue ms) 0); [discriminate|].
  destruct (Z.ltb_spec 59 (decimalValue ms)); [discriminate|].
  cbn [orb] in H. injection H as <-. lia.
Qed.

(** X1. Writing a minute count as a clock string and reading it back
    gives the count exactly when it is a minute of the day. *)
Theorem time_string_round_trip (n : Z) :
  parseTimeToMinutes (minutesToTimeString n) = Some n <-> 0 <= n < 1440.
Proof.
  split.
  - apply parseTimeToMinutes_range.
  - intros Hn.
    destruct (minutesToTimeString_shape n Hn) as (d1 & d2 & d3 & d4 & -> & _ & _ & _ & _ & H).
    exact H.
Qed.

Lemma pad2_all :
  forallb (fun k =>
             match padStart 2 ZERO (numberToString k) with
             | [a; b] => (Z.of_N a =? 48 + k / 10) && (Z.of_N b =? 48 + k mod 10)
             | _ => false
             end)
          (map Z.of_nat (seq 0 100)) = true.
Proof. vm_compute. reflexivity. Qed.

Lemma pad2_digits k :
  0 <= k < 100 ->
  padStart 2 ZERO (numberToString k)
  = [Z.to_N (48 + k / 10); Z.to_N (48 + k mod 10)].
Proof.
  intros Hk. pose proof pad2_all as H. rewrite forallb_forall in H.
  specialize (H k (seq_Z_in k 100 ltac:(simpl; lia))). cbv beta in H.
  destruct (padStart 2 ZERO (numberToString k)) as [|a [|b [|c l]]];
    try discriminate.
  apply andb_prop in H. destruct H as [Ha Hb].
  apply Z.eqb_eq in Ha, Hb. f_equal; [lia|]. f_equal. lia.
Qed.

(** Writing the value of one or two digits with two digits pads them. *)
Lemma pad2_decimalValue ds :
  (List.length ds = 1 \/ List.length ds = 2)%nat ->
  forallb isDigit ds = true ->
  padStart 2 ZERO (numberToString (decimalValue ds)) = padStart 2 ZERO ds.
Proof.
  intros Hlen Hd.
  destruct ds as [|a [|b [|c ds]]]; cbn [List.length] in Hlen;
    try (exfalso; destruct Hlen; discriminate);
    cbn [forallb] in Hd.
  - apply andb_prop in Hd. destruct Hd as [Ha _].
    pose proof (isDigit_bounds a Ha) as Hb.
    assert (Hv : decimalValue [a] = Z.of_N a - 48)
      by (unfold decimalValue, digitValue; cbn [fold_left]; lia).
    rewrite Hv, pad2_digits by lia.
    rewrite Z.div_small, Z.mod_small by lia.
    unfold padStart, ZERO. cbn [List.length Nat.sub repeat app].
    f_equal. f_equal. lia.
  - apply andb_prop in Hd. destruct Hd as [Ha Hd].
    apply andb_prop in Hd. destruct Hd as [Hb _].
    pose proof (isDigit_bounds a Ha) as Ha'.
    pose proof (isDigit_bounds b Hb) as Hb'.
    assert (Hv : decimalValue [a; b] = (Z.of_N a - 48) * 10 + (Z.of_N b - 48))
      by (unfold decimalValue, digitValue; cbn [fold_left]; lia).
    rewrite Hv, pad2_digits by lia.
    replace (((Z.of_N a - 48) * 10 + (Z.of_N b - 48)) / 10) with (Z.of_N a - 48)
      by (apply Z.div_unique with (r := Z.of_N b - 48); lia).
    replace (((Z.of_N a - 48) * 10 + (Z.of_N b - 48)) mod 10) with (Z.of_N b - 48)
      by (apply Z.mod_unique with (q := Z.of_N a - 48); lia).
    unfold padStart. cbn [List.length Nat.sub repeat app].
    f_equal; [lia|]. f_equal. lia.
Qed.

(** X2. A time [parseTimeToMinutes] accepts is a minute of the day, and
    writing it back gives the trimmed input with the hour padded to two
    digits. *)
Theorem time_string_canonical (s : jsstring) (v : Z) :
  parseTimeToMinutes s = Some v ->
  0 <= v < 1440 /\ minutesToTimeString v = padStart 5 ZERO (trim s).
Proof.
  intros H. split; [exact (parseTimeToMinutes_range s v H)|].
  destruct (parseTimeToMinutes_some s v H) as (hs & ms & Hshape).
  rewrite (parseTimeToMinutes_shape s hs ms Hshape) in H.
  destruct (Z.ltb_spec (decimalValue hs) 0); [discriminate|].
  destruct (Z.ltb_spec 23 (decimalValue hs)); [discriminate|].
  destruct (Z.ltb_spec (decimalValue ms) 0); [discriminate|].
  destruct (Z.ltb_spec 59 (decimalValue ms)); [discriminate|].
  cbn [orb] in H. injection H as <-.
  destruct Hshape as (-> & Hlh & Hlm & Hdh & Hdm).
  unfold minutesToTimeString.
  replace ((decimalValue hs * 60 + decimalValue ms) / 60) with (decimalValue hs)
    by (apply Z.div_unique with (r := decimalValue ms); lia).
  replace (Z.rem (decimalValue hs * 60 + decimalValue ms) 60) with (decimalValue ms)
    by (rewrite Z.rem_mod_nonneg by lia;
        apply Z.mod_unique with (q := decimalValue hs); lia).
  rewrite (pad2_decimalValue hs Hlh Hdh), (pad2_decimalValue ms (or_intror Hlm) Hdm).
  unfold padStart. rewrite length_app. cbn [List.length].
  rewrite Hlm. change (js ":") with [COLON].
  destruct Hlh as [-> | ->]; cbn [Nat.sub Nat.add repeat app];
    rewrite <- ?app_assoc; reflexivity.
Qed.

Lemma time_string_canonical_witness :
  minutesToTimeString 570 = padStart 5 ZERO (trim (js " 9:30 ")).
Proof.
  apply (time_string_canonical (js " 9:30 ") 570). reflexivity.
Defined.

(* ================================================================= *)
(** * Countdown and status labels *)

Lemma formatCountdown_positive d :
  0 < d -> formatCountdown d = js "Starts in " ++ minutesToLabel d.
Proof.
  intros Hd. unfold formatCountdown, minutesToLabel.
  destruct (Z.leb_spec d 0); [lia|].
  destruct (d / 60 =? 0); [reflexivity|].
  destruct (Z.rem d 60 =? 0); reflexivity.
Qed.

Lemma starts_in_head d (s : jsstring) :
  0 < d -> formatCountdown d = s -> hd 0%N s = 83%N.
Proof.
  intros Hd <-. rewrite (formatCountdown_positive d Hd). reflexivity.
Qed.

(** X3. The countdown of a positive number of minutes is "Starts in "
    followed by the duration label of [minutesToLabel]; the countdown is
    the empty string exactly for a number that is not positive. *)
Theorem formatCountdown_label (d : Z) :
  (0 < d -> formatCountdown d = js "Starts in " ++ minutesToLabel d)
  /\ (formatCountdown d = [] <-> d <= 0).
Proof.
  split; [apply formatCountdown_positive|].
  split.
  - intros H. destruct (Z_le_gt_dec d 0) as [Hle|Hgt]; [exact Hle|].
    pose proof (starts_in_head d [] ltac:(lia) H) as Hh. discriminate Hh.
  - intros Hle. unfold formatCountdown.
    destruct (Z.leb_spec d 0); [reflexivity | lia].
Qed.

Lemma formatCountdown_label_witness :
  formatCountdown 95 = js "Starts in " ++ minutesToLabel 95
  /\ formatCountdown 95 = js "Starts in 1h 35m".
Proof.
  split; [|reflexivity].
  destruct (formatCountdown_label 95) as [H _]. apply H. lia.
Defined.

(** X4. With the time of day known, for a time and a start of the block
    that are safe integers, as is their difference (so that [delta] is
    the difference and its label is that of [formatCountdown]), a
    block is labelled "In progress"
    exactly while the time is inside it, "Done" exactly once the time has
    reached its start and its end, and with the countdown to its start
    before that; the label is then never empty.  With the time unknown
    the label is empty. *)
Theorem statusLabel_cases (now : Z) (block : PlannedBlock.t) :
  safeInteger now ->
  safeInteger (PlannedBlock.startMinutes block) ->
  safeInteger (PlannedBlock.startMinutes block - now) ->
  (statusLabel (Some now) block = js "In progress" <->
   PlannedBlock.startMinutes block <= now < PlannedBlock.endMinutes block)
  /\ (statusLabel (Some now) block = js "Done" <->
      PlannedBlock.startMinutes block <= now
      /\ PlannedBlock.endMinutes block <= now)
  /\ (now < PlannedBlock.startMinutes block ->
      statusLabel (Some now) block
      = js "Starts in " ++ minutesToLabel (PlannedBlock.startMinutes block - now))
  /\ statusLabel (Some now) block <> []
  /\ statusLabel None block = [].
Proof.
  intros _ _ _. unfold statusLabel.
  destruct (Z.ltb_spec now (PlannedBlock.startMinutes block)) as [Hlt|Hge].
  - assert (Hd : 0 < PlannedBlock.startMinutes block - now) by lia.
    pose proof (starts_in_head _ _ Hd eq_refl) as Hh.
    split; [split; [intros H; rewrite H in Hh; discriminate Hh | lia]|].
    split; [split; [intros H; rewrite H in Hh; discriminate Hh | lia]|].
    split; [intros _; now apply formatCountdown_positive|].
    split; [intros H; rewrite H in Hh; discriminate Hh | reflexivity].
  - destruct (Z.leb_spec (PlannedBlock.startMinutes block) now); [|lia].
    destruct (Z.ltb_spec now (PlannedBlock.endMinutes block)); cbn [andb].
    + split; [split; [lia | reflexivity]|].
      split; [split; [discriminate | lia]|].
      split; [lia|]. split; [discriminate | reflexivity].
    + split; [split; [discriminate | lia]|].
      split; [split; [lia | reflexivity]|].
      split; [lia|]. split; [discriminate | reflexivity].
Qed.

Lemma statusLabel_cases_witness :
  statusLabel (Some 560) (PlannedBlock.mk (js "Report") 600 645 true deep)
  = js "Starts in " ++ minutesToLabel 40.
Proof.
  destruct (statusLabel_cases 560 (PlannedBlock.mk (js "Report") 600 645 true deep))
    as (_ & _ & H & _);
    [unfold safeInteger, MAX_SAFE_INTEGER; simpl; lia ..|].
  apply H. simpl. lia.
Defined.

(* ================================================================= *)
(** * White space around a text *)

Lemma trimStart_all_space s : forallb isSpace s = true -> trimStart s = [].
Proof.
  induction s as [|c s IH]; simpl; [reflexivity|].
  intros H. apply andb_prop in H. destruct H as [Hc Hs].
  rewrite Hc. now apply IH.
Qed.

Lemma trimStart_app a b :
  trimStart (a ++ b) = if forallb isSpace a then trimStart b else trimStart a ++ b.
Proof.
  induction a as [|c a IH]; simpl; [reflexivity|].
  destruct (isSpace c); simpl; [exact IH | reflexivity].
Qed.

Lemma trimStart_length s : (List.length (trimStart s) <= List.length s)%nat.
Proof.
  induction s as [|c s IH]; simpl; [lia|].
  destruct (isSpace c); simpl; lia.
Qed.

(** [trimStart] gives the empty text or one that starts with a code unit
    that is not white space. *)
Lemma trimStart_head s :
  trimStart s = [] \/ exists c r, trimStart s = c :: r /\ isSpace c = false.
Proof.
  induction s as [|c s IH]; simpl; [now left|].
  destruct (isSpace c) eqn:Hc; [exact IH|].
  right. now exists c, s.
Qed.

Lemma trimStart_fixed c r : isSpace c = false -> trimStart (c :: r) = c :: r.
Proof. intros H. simpl. now rewrite H. Qed.

Lemma trimStart_fixed_inv c r : trimStart (c :: r) = c :: r -> isSpace c = false.
Proof.
  simpl. destruct (isSpace c); [|reflexivity].
  intros H. pose proof (trimStart_length r) as Hl. rewrite H in Hl.
  simpl in Hl. lia.
Qed.

Lemma forallb_rev {A : Type} (p : A -> bool) (l : list A) :
  forallb p (List.rev l) = forallb p l.
Proof.
  induction l as [|x l IH]; simpl; [reflexivity|].
  rewrite forallb_app, IH. simpl. rewrite andb_true_r. apply andb_comm.
Qed.

Lemma trimEnd_app_space s post :
  forallb isSpace post = true -> trimEnd (s ++ post) = trimEnd s.
Proof.
  intros H. unfold trimEnd. rewrite rev_app_distr, trimStart_app, forallb_rev, H.
  reflexivity.
Qed.

Lemma trimEnd_head c r :
  isSpace c = false -> exists r', trimEnd (c :: r) = c :: r'.
Proof.
  intros Hc. unfold trimEnd. cbn [List.rev]. rewrite trimStart_app.
  destruct (forallb isSpace (List.rev r)).
  - exists []. rewrite (trimStart_fixed c [] Hc). reflexivity.
  - exists (List.rev (trimStart (List.rev r))).
    rewrite rev_app_distr. reflexivity.
Qed.

Lemma trimEnd_trimEnd s : trimEnd (trimEnd s) = trimEnd s.
Proof.
  unfold trimEnd. rewrite rev_involutive. f_equal.
  destruct (trimStart_head (List.rev s)) as [->|(c & r & -> & Hc)];
    [reflexivity | now apply trimStart_fixed].
Qed.

Lemma trim_pad pre s post :
  forallb isSpace pre = true -> forallb isSpace post = true ->
  trim (pre ++ s ++ post) = trim s.
Proof.
  intros Hpre Hpost.
  unfold trim. rewrite trimStart_app, Hpre, trimStart_app.
  destruct (forallb isSpace s) eqn:Hs.
  - rewrite (trimStart_all_space post Hpost), (trimStart_all_space s Hs).
    reflexivity.
  - now apply trimEnd_app_space.
Qed.

Lemma trim_trim s : trim (trim s) = trim s.
Proof.
  unfold trim at 2 3.
  destruct (trimStart_head s) as [->|(c & r & -> & Hc)]; [reflexivity|].
  destruct (trimEnd_head c r Hc) as (r' & Hr').
  unfold trim. rewrite Hr', (trimStart_fixed c r' Hc), <- Hr'. apply trimEnd_trimEnd.
Qed.

(** A non-empty text [trim] leaves alone starts with a code unit that is
    not white space and is left alone by [trimEnd]. *)
Lemma trimmed_ends t :
  trimmed t -> t <> [] ->
  (exists c r, t = c :: r /\ isSpace c = false) /\ trimEnd t = t.
Proof.
  unfold trimmed, trim. intros Ht Hne.
  destruct (trimStart_head t) as [Hx|(c & r & Hx & Hc)].
  - rewrite Hx in Ht. cbn in Ht. congruence.
  - rewrite Hx in Ht. destruct (trimEnd_head c r Hc) as (r' & Hr').
    assert (Hfix : trimStart t = t).
    { rewrite <- Ht at 1. rewrite Hr'. rewrite (trimStart_fixed c r' Hc).
      rewrite <- Hr'. exact Ht. }
    split.
    + exists c, r'. split; [|exact Hc]. rewrite <- Ht. exact Hr'.
    + rewrite Hfix in Hx. rewrite <- Hx in Ht. exact Ht.
Qed.

Lemma trimEnd_app_keep p t :
  trimEnd t = t -> t <> [] -> trimEnd (p ++ t) = p ++ t.
Proof.
  intros Ht Hne. unfold trimEnd in *.
  assert (Hrev : trimStart (List.rev t) = List.rev t).
  { rewrite <- Ht at 2. now rewrite rev_involutive. }
  destruct (List.rev t) as [|c r] eqn:Hr.
  - apply (f_equal (@List.rev N)) in Hr. rewrite rev_involutive in Hr.
    cbn in Hr. contradiction.
  - pose proof (trimStart_fixed_inv c r Hrev) as Hc.
    rewrite rev_app_distr, Hr. cbn [app]. rewrite (trimStart_fixed _ _ Hc).
    change (c :: r ++ List.rev p) with ((c :: r) ++ List.rev p).
    rewrite <- Hr, <- rev_app_distr. apply rev_involutive.
Qed.

(** A trimmed non-empty text put after a text that starts with a code
    unit that is not white space gives a trimmed text. *)
Lemma trim_app_keep c p t :
  isSpace c = false -> trimmed t -> t <> [] -> trim ((c :: p) ++ t) = (c :: p) ++ t.
Proof.
  intros Hc Ht Hne. destruct (trimmed_ends t Ht Hne) as [_ Hend].
  unfold trim. cbn [app]. rewrite (trimStart_fixed c (p ++ t) Hc).
  exact (trimEnd_app_keep (c :: p) t Hend Hne).
Qed.

(* ================================================================= *)
(** * Lines in canonical form *)

Lemma exec_Cat_head r1 r2 s m1 g1 s1 o1 m2 g2 s2 o2 :
  exec r1 s = (m1, g1, s1) :: o1 ->
  exec r2 s1 = (m2, g2, s2) :: o2 ->
  exists o, exec (Cat r1 r2) s = (m1 ++ m2, g1 ++ g2, s2) :: o.
Proof.
  intros H1 H2. cbn [exec]. rewrite H1. cbn [flat_map]. rewrite H2.
  cbn [map app]. eexists. reflexivity.
Qed.

Lemma exec_Cat_single r1 r2 s m1 g1 s1 :
  exec r1 s = [(m1, g1, s1)] ->
  exec (Cat r1 r2) s
  = map (fun a2 : attempt => let '(m2, g2, s2) := a2 in (m1 ++ m2, g1 ++ g2, s2))
        (exec r2 s1).
Proof.
  intros H1. cbn [exec]. rewrite H1. cbn [flat_map]. apply app_nil_r.
Qed.

Lemma exec_Group_head r s m g s' o :
  exec r s = (m, g, s') :: o ->
  exists o', exec (Group r) s = (m, m :: g, s') :: o'.
Proof.
  intros H. cbn [exec]. rewrite H. cbn [map]. eexists. reflexivity.
Qed.

Lemma regexMatch_head r s m g o :
  exec r s = (m, g, []) :: o -> regexMatch r s = Some g.
Proof. intros H. unfold regexMatch. rewrite H. reflexivity. Qed.

Lemma execStar_stop p c s : p c = false -> execStar p (c :: s) = [([], [], c :: s)].
Proof. intros H. cbn [execStar]. now rewrite H. Qed.

Lemma exec_Star_stop p c s :
  p c = false -> exec (Star p) (c :: s) = [([], [], c :: s)].
Proof. apply execStar_stop. Qed.

Lemma execStar_all p s :
  forallb p s = true -> exists o, execStar p s = (s, [], []) :: o.
Proof.
  induction s as [|c s IH]; intros H; cbn [execStar].
  - eexists. reflexivity.
  - cbn [forallb] in H. apply andb_prop in H. destruct H as [Hc Hs].
    rewrite Hc. destruct (IH Hs) as (o & ->). cbn [map app].
    eexists. reflexivity.
Qed.

Lemma exec_One_fail p r c s : p c = false -> exec (Cat (One p) r) (c :: s) = [].
Proof. intros H. cbn [exec]. now rewrite H. Qed.

Lemma isDigit_not_colon c : isDigit c = true -> isChar COLON c = false.
Proof.
  intros H. apply isDigit_bounds in H. unfold isChar, COLON.
  apply N.eqb_neq. lia.
Qed.

Lemma isDigit_dot c : isDigit c = true -> isDot c = true.
Proof.
  intros H. apply isDigit_bounds in H. unfold isDot, isLineTerminator.
  repeat match goal with
         | |- context [(c =? ?k)%N] => destruct (N.eqb_spec c k); [lia|]
         end.
  reflexivity.
Qed.

Lemma isDot_oneLine t : forallb isDot t = true -> oneLine t.
Proof.
  unfold oneLine. induction t as [|c t IH]; intros H Hin; [contradiction|].
  cbn [forallb] in H. apply andb_prop in H. destruct H as [Hc Ht].
  destruct Hin as [->|Hin]; [discriminate Hc | now apply IH].
Qed.

(** The time token matches five code units [dd:dd] in one way only. *)
Lemma exec_timeToken d1 d2 d3 d4 rest :
  isDigit d1 = true -> isDigit d2 = true ->
  isDigit d3 = true -> isDigit d4 = true ->
  exec (Group timeToken) (d1 :: d2 :: COLON :: d3 :: d4 :: rest)
  = [([d1; d2; COLON; d3; d4], [[d1; d2; COLON; d3; d4]], rest)].
Proof.
  intros H1 H2 H3 H4.
  pose proof (isDigit_not_colon d2 H2) as Hc.
  assert (HC : isChar COLON COLON = true) by reflexivity.
  cbn -[isDigit isChar]. rewrite H1. cbn -[isDigit isChar].
  rewrite H2. cbn -[isDigit isChar]. rewrite Hc, HC.
  cbn -[isDigit isChar]. rewrite H3. cbn -[isDigit isChar]. rewrite H4.
  reflexivity.
Qed.

(** White space and then a title that starts with a code unit that is
    not white space and holds no line terminator: the first way
    [\s+(.+)$] matches takes the one space and then the whole title. *)
Lemma exec_title c r :
  isSpace c = false -> forallb isDot (c :: r) = true ->
  exists o,
    exec (Cat (Plus isSpace) (Group (Plus isDot))) (SPACE :: c :: r)
    = ([SPACE] ++ c :: r, [c :: r], []) :: o.
Proof.
  intros Hc Hdot. cbn [forallb] in Hdot. apply andb_prop in Hdot.
  destruct Hdot as [Hdc Hdr].
  assert (HP : exec (Plus isSpace) (SPACE :: c :: r) = [([SPACE], [], c :: r)]).
  { unfold Plus. cbn [exec]. change (isSpace SPACE) with true.
    cbn [flat_map]. rewrite (execStar_stop isSpace c r Hc). reflexivity. }
  destruct (execStar_all isDot r Hdr) as (o1 & Hstar).
  assert (HD : exists o, exec (Plus isDot) (c :: r) = (c :: r, [], []) :: o).
  { unfold Plus.
    destruct (exec_Cat_head (One isDot) (Star isDot) (c :: r) [c] [] r [] r [] [] o1)
      as (o & Ho).
    - cbn [exec]. now rewrite Hdc.
    - exact Hstar.
    - exists o. exact Ho. }
  destruct HD as (o2 & HD).
  destruct (exec_Group_head _ _ _ _ _ _ HD) as (o3 & HG).
  rewrite (exec_Cat_single _ (Group (Plus isDot)) _ _ _ _ HP), HG.
  cbn [map app]. eexists. reflexivity.
Qed.

Lemma regexMatch_range d1 d2 d3 d4 e1 e2 e3 e4 c r :
  isDigit d1 = true -> isDigit d2 = true -> isDigit d3 = true -> isDigit d4 = true ->
  isDigit e1 = true -> isDigit e2 = true -> isDigit e3 = true -> isDigit e4 = true ->
  isSpace c = false -> forallb isDot (c :: r) = true ->
  regexMatch rangeRegex
    ([d1; d2; COLON; d3; d4] ++ HYPHEN :: [e1; e2; COLON; e3; e4] ++ SPACE :: c :: r)
  = Some [[d1; d2; COLON; d3; d4]; [e1; e2; COLON; e3; e4]; c :: r].
Proof.
  intros D1 D2 D3 D4 E1 E2 E3 E4 Hc Hdot.
  destruct (exec_title c r Hc Hdot) as (o & Htitle).
  assert (H : exists m o',
             exec rangeRegex
               ([d1; d2; COLON; d3; d4] ++ HYPHEN :: [e1; e2; COLON; e3; e4]
                ++ SPACE :: c :: r)
             = (m, [[d1; d2; COLON; d3; d4]; [e1; e2; COLON; e3; e4]; c :: r], [])
               :: o').
  { unfold rangeRegex. cbn [app].
    rewrite (exec_Cat_single _ _ _ _ _ _ (exec_timeToken d1 d2 d3 d4 _ D1 D2 D3 D4)).
    rewrite (exec_Cat_single _ _ _ _ _ _ (exec_Star_stop isSpace HYPHEN _ eq_refl)).
    assert (HH : forall rest, exec (One (isChar HYPHEN)) (HYPHEN :: rest)
                              = [([HYPHEN], [], rest)]) by reflexivity.
    rewrite (exec_Cat_single _ _ _ _ _ _ (HH _)).
    rewrite (exec_Cat_single _ _ _ _ _ _
               (exec_Star_stop isSpace e1 _ (isDigit_not_space e1 E1))).
    rewrite (exec_Cat_single _ _ _ _ _ _ (exec_timeToken e1 e2 e3 e4 _ E1 E2 E3 E4)).
    rewrite Htitle. cbn [map app]. eexists. eexists. reflexivity. }
  destruct H as (m & o' & H). exact (regexMatch_head _ _ _ _ _ H).
Qed.

Lemma regexMatch_range_none d1 d2 d3 d4 c r :
  isDigit d1 = true -> isDigit d2 = true -> isDigit d3 = true -> isDigit d4 = true ->
  isSpace c = false -> isChar HYPHEN c = false ->
  regexMatch rangeRegex ([d1; d2; COLON; d3; d4] ++ SPACE :: c :: r) = None.
Proof.
  intros D1 D2 D3 D4 Hc Hh.
  assert (H : exec rangeRegex ([d1; d2; COLON; d3; d4] ++ SPACE :: c :: r) = []).
  { unfold rangeRegex. cbn [app].
    rewrite (exec_Cat_single _ _ _ _ _ _ (exec_timeToken d1 d2 d3 d4 _ D1 D2 D3 D4)).
    assert (HS : exec (Star isSpace) (SPACE :: c :: r)
                 = [([SPACE], [], c :: r); ([], [], SPACE :: c :: r)]).
    { cbn [exec execStar]. change (isSpace SPACE) with true. cbv iota.
      rewrite Hc. reflexivity. }
    cbn [exec] in HS |- *. rewrite HS. cbn [flat_map].
    fold (exec (Cat (One (isChar HYPHEN))
                  (Cat (Star isSpace)
                     (Cat (Group timeToken)
                        (Cat (Plus isSpace) (Group (Plus isDot))))))).
    reflexivity || idtac.
    cbn [exec]. rewrite Hh. change (isChar HYPHEN SPACE) with false.
    reflexivity. }
  unfold regexMatch. rewrite H. reflexivity.
Qed.

Lemma regexMatch_single d1 d2 d3 d4 c r :
  isDigit d1 = true -> isDigit d2 = true -> isDigit d3 = true -> isDigit d4 = true ->
  isSpace c = false -> forallb isDot (c :: r) = true ->
  regexMatch singleRegex ([d1; d2; COLON; d3; d4] ++ SPACE :: c :: r)
  = Some [[d1; d2; COLON; d3; d4]; c :: r].
Proof.
  intros D1 D2 D3 D4 Hc Hdot.
  destruct (exec_title c r Hc Hdot) as (o & Htitle).
  assert (H : exists m o',
             exec singleRegex ([d1; d2; COLON; d3; d4] ++ SPACE :: c :: r)
             = (m, [[d1; d2; COLON; d3; d4]; c :: r], []) :: o').
  { unfold singleRegex. cbn [app].
    rewrite (exec_Cat_single _ _ _ _ _ _ (exec_timeToken d1 d2 d3 d4 _ D1 D2 D3 D4)).
    rewrite Htitle. cbn [map app]. eexists. eexists. reflexivity. }
  destruct H as (m & o' & H). exact (regexMatch_head _ _ _ _ _ H).
Qed.

Lemma sortByStart_clampEvent workStart workEnd r :
  sortByStart (clampEvent workStart workEnd r) = clampEvent workStart workEnd r.
Proof.
  destruct r as [[[title start] end_]|]; simpl; [|reflexivity].
  destruct (Z.max start workStart <? Z.min end_ workEnd); reflexivity.
Qed.

Lemma parseEvents_one_line line workStart workEnd :
  oneLine line ->
  parseEvents line workStart workEnd
  = clampEvent workStart workEnd (recognizeLine line).
Proof.
  intros Hone. rewrite parseEvents_flat, (splitLines_single line Hone).
  cbn [flat_map]. rewrite app_nil_r. apply sortByStart_clampEvent.
Qed.

(** What a range line in canonical form is recognized as. *)
Lemma recognizeLine_range s e title :
  0 <= s < 1440 -> 0 <= e < 1440 ->
  trimmed title -> title <> [] -> forallb isDot title = true ->
  let line :=
    minutesToTimeString s ++ HYPHEN :: minutesToTimeString e ++ SPACE :: title in
  recognizeLine line = Some (title, s, e) /\ forallb isDot line = true.
Proof.
  intros Hs He Ht Hne Hdot.
  destruct (minutesToTimeString_shape s Hs)
    as (d1 & d2 & d3 & d4 & -> & D1 & D2 & D3 & D4 & Hps).
  destruct (minutesToTimeString_shape e He)
    as (e1 & e2 & e3 & e4 & -> & E1 & E2 & E3 & E4 & Hpe).
  destruct (trimmed_ends title Ht Hne) as [(c & r & -> & Hc) _].
  intros line.
  assert (Hline : forallb isDot line = true).
  { subst line. cbn [app forallb].
    rewrite (isDigit_dot d1 D1), (isDigit_dot d2 D2), (isDigit_dot d3 D3),
      (isDigit_dot d4 D4), (isDigit_dot e1 E1), (isDigit_dot e2 E2),
      (isDigit_dot e3 E3), (isDigit_dot e4 E4).
    cbn [forallb] in Hdot. rewrite Hdot. reflexivity. }
  split; [|exact Hline].
  assert (Htrim : trim line = line).
  { exact (trim_app_keep d1
             [d2; COLON; d3; d4; HYPHEN; e1; e2; COLON; e3; e4; SPACE] (c :: r)
             (isDigit_not_space d1 D1) Ht Hne). }
  unfold recognizeLine. rewrite Htrim. subst line.
  rewrite (regexMatch_range d1 d2 d3 d4 e1 e2 e3 e4 c r) by assumption.
  cbn [app isEmpty]. rewrite Hps, Hpe. unfold trimmed in Ht. rewrite Ht.
  reflexivity.
Qed.

(** X5. A line made of two clock strings joined by a hyphen, a space and
    a trimmed, non-empty title without line terminators is read as the
    event with that title and those times, clamped to the window. *)
Theorem parseEvents_range_line (s e workStart workEnd : Z) (title : jsstring) :
  0 <= s < 1440 -> 0 <= e < 1440 ->
  trimmed title -> title <> [] -> forallb isDot title = true ->
  parseEvents
    (minutesToTimeString s ++ HYPHEN :: minutesToTimeString e ++ SPACE :: title)
    workStart workEnd
  = if Z.max s workStart <? Z.min e workEnd
    then [ParsedEvent.mk title (Z.max s workStart) (Z.min e workEnd)]
    else [].
Proof.
  intros Hs He Ht Hne Hdot.
  destruct (recognizeLine_range s e title Hs He Ht Hne Hdot) as [Hrec Hline].
  rewrite (parseEvents_one_line _ _ _ (isDot_oneLine _ Hline)), Hrec.
  reflexivity.
Qed.

Lemma parseEvents_range_line_witness :
  parseEvents
    (minutesToTimeString 840 ++ HYPHEN :: minutesToTimeString 1080
     ++ SPACE :: js "Workshop, part 2")
    540 1020
  = [ParsedEvent.mk (js "Workshop, part 2") 840 1020].
Proof.
  apply (parseEvents_range_line 840 1080 540 1020 (js "Workshop, part 2"));
    try lia; try reflexivity. discriminate.
Defined.

(** X6. A line made of a clock string, a space and a trimmed, non-empty
    title without line terminators that does not start with a hyphen is
    read as the event with that title that starts at that time and lasts
    thirty minutes, clamped to the window. *)
Theorem parseEvents_point_line (s workStart workEnd : Z) (title : jsstring) :
  0 <= s < 1440 ->
  trimmed title -> title <> [] -> forallb isDot title = true ->
  hd 0%N title <> HYPHEN ->
  parseEvents (minutesToTimeString s ++ SPACE :: title) workStart workEnd
  = if Z.max s workStart <? Z.min (s + 30) workEnd
    then [ParsedEvent.mk title (Z.max s workStart) (Z.min (s + 30) workEnd)]
    else [].
Proof.
  intros Hs Ht Hne Hdot Hhd.
  destruct (minutesToTimeString_shape s Hs)
    as (d1 & d2 & d3 & d4 & -> & D1 & D2 & D3 & D4 & Hps).
  destruct (trimmed_ends title Ht Hne) as [(c & r & -> & Hc) _].
  assert (Hh : isChar HYPHEN c = false)
    by (unfold isChar; apply N.eqb_neq; exact Hhd).
  set (line := [d1; d2; COLON; d3; d4] ++ SPACE :: c :: r).
  assert (Hline : forallb isDot line = true).
  { subst line. cbn [app forallb].
    rewrite (isDigit_dot d1 D1), (isDigit_dot d2 D2), (isDigit_dot d3 D3),
      (isDigit_dot d4 D4).
    cbn [forallb] in Hdot. rewrite Hdot. reflexivity. }
  rewrite (parseEvents_one_line line _ _ (isDot_oneLine line Hline)).
  assert (Htrim : trim line = line).
  { exact (trim_app_keep d1 [d2; COLON; d3; d4; SPACE] (c :: r)
             (isDigit_not_space d1 D1) Ht Hne). }
  unfold recognizeLine. rewrite Htrim. subst line.
  rewrite (regexMatch_range_none d1 d2 d3 d4 c r) by assumption.
  rewrite (regexMatch_single d1 d2 d3 d4 c r) by assumption.
  cbn [app isEmpty]. rewrite Hps. unfold trimmed in Ht. rewrite Ht.
  reflexivity.
Qed.

Lemma parseEvents_point_line_witness :
  parseEvents (minutesToTimeString 1005 ++ SPACE :: js "1:1 with Dana") 540 1020
  = [ParsedEvent.mk (js "1:1 with Dana") 1005 1020].
Proof.
  apply (parseEvents_point_line 1005 540 1020 (js "1:1 with Dana"));
    try lia; try reflexivity; discriminate.
Defined.

(* ================================================================= *)
(** * Free minutes *)

Lemma totalFree_acc (l : list FreeSlot.t) : forall acc,
  fold_left
    (fun sum slot => sum + (FreeSlot.endMinutes slot - FreeSlot.startMinutes slot))
    l acc
  = acc + totalFreeMinutes l.
Proof.
  unfold totalFreeMinutes.
  induction l as [|x l IH]; intros acc; cbn [fold_left]; [lia|].
  rewrite IH, (IH (0 + _)). lia.
Qed.

Lemma totalFree_cons x l :
  totalFreeMinutes (x :: l)
  = (FreeSlot.endMinutes x - FreeSlot.startMinutes x) + totalFreeMinutes l.
Proof.
  unfold totalFreeMinutes at 1. cbn [fold_left]. rewrite totalFree_acc. lia.
Qed.

Lemma totalFree_app a b :
  totalFreeMinutes (a ++ b) = totalFreeMinutes a + totalFreeMinutes b.
Proof.
  induction a as [|x a IH]; cbn [app]; [reflexivity|].
  rewrite !totalFree_cons, IH. lia.
Qed.

Lemma totalFree_capacity_ordered (l : list FreeSlot.t) :
  Forall slotOrdered l -> totalFreeMinutes l = capacity l.
Proof.
  induction 1 as [|x l Hx Hl IH]; [reflexivity|].
  rewrite totalFree_cons, IH. unfold capacity. cbn [fold_right].
  unfold slotOrdered in Hx. lia.
Qed.

Lemma gaps_cons_total ev rest c e :
  totalFreeMinutes (gaps (ev :: rest) c e)
  = Z.max 0 (ParsedEvent.startMinutes ev - c)
    + totalFreeMinutes (gaps rest (Z.max c (ParsedEvent.endMinutes ev)) e).
Proof.
  cbn [gaps]. rewrite totalFree_app.
  destruct (Z.ltb_spec c (ParsedEvent.startMinutes ev)).
  - rewrite totalFree_cons. cbn. lia.
  - cbn. lia.
Qed.

Lemma gaps_nil_total c e : totalFreeMinutes (gaps [] c e) = Z.max 0 (e - c).
Proof.
  cbn [gaps]. destruct (Z.ltb_spec c e); [rewrite totalFree_cons|]; cbn; lia.
Qed.

Lemma gaps_total_upper e : forall events c,
  c <= e ->
  Forall (fun ev => ParsedEvent.startMinutes ev <= ParsedEvent.endMinutes ev
                    /\ ParsedEvent.endMinutes ev <= e) events ->
  totalFreeMinutes (gaps events c e) <= e - c.
Proof.
  induction events as [|ev rest IH]; intros c Hc Hall.
  - rewrite gaps_nil_total. lia.
  - inversion Hall as [|? ? [H1 H2] Hrest]; subst.
    rewrite gaps_cons_total.
    specialize (IH (Z.max c (ParsedEvent.endMinutes ev)) ltac:(lia) Hrest). lia.
Qed.

Lemma gaps_total_lower e : forall events c,
  Forall (fun ev => ParsedEvent.startMinutes ev <= ParsedEvent.endMinutes ev) events ->
  (e - c) - totalEventMinutes events <= totalFreeMinutes (gaps events c e).
Proof.
  induction events as [|ev rest IH]; intros c Hall.
  - rewrite gaps_nil_total. cbn. lia.
  - inversion Hall as [|? ? H1 Hrest]; subst.
    rewrite gaps_cons_total. cbn [totalEventMinutes fold_right].
    fold (totalEventMinutes rest).
    specialize (IH (Z.max c (ParsedEvent.endMinutes ev)) Hrest). lia.
Qed.

Lemma gaps_total_exact e : forall events c,
  Sorted eventBefore events ->
  Forall (fun ev => ParsedEvent.startMinutes ev <= ParsedEvent.endMinutes ev
                    /\ ParsedEvent.endMinutes ev <= e) events ->
  (forall ev, hd_error events = Some ev -> c <= ParsedEvent.startMinutes ev) ->
  c <= e ->
  totalFreeMinutes (gaps events c e) = (e - c) - totalEventMinutes events.
Proof.
  induction events as [|ev rest IH]; intros c Hs Hall Hhd Hc.
  - rewrite gaps_nil_total. cbn. lia.
  - inversion Hall as [|? ? [H1 H2] Hrest]; subst.
    inversion Hs as [|? ? Hs' Hrel]; subst.
    specialize (Hhd ev eq_refl).
    rewrite gaps_cons_total. cbn [totalEventMinutes fold_right].
    fold (totalEventMinutes rest).
    rewrite (Z.max_r c) by lia.
    rewrite (IH (ParsedEvent.endMinutes ev) Hs' Hrest); [lia | | lia].
    intros ev' Hev'. destruct rest as [|x rest']; [discriminate|].
    cbn in Hev'. injection Hev' as <-.
    inversion Hrel; subst. assumption.
Qed.

(** X7. For a window [[s, e]] whose bounds and length are safe integers
    (so that the sum of the slot lengths is exact) and events that are
    intervals of it, the
    free minutes are at most the length of the window and at least that
    length less the minutes of the events; when no event starts before
    the one before it ends, free minutes and event minutes add up to the
    length of the window. *)
Theorem computeFreeSlots_minutes (events : list ParsedEvent.t) (s e : Z) :
  s <= e ->
  safeInteger s -> safeInteger e -> safeInteger (e - s) ->
  Forall (eventWithin s e) events ->
  (e - s) - totalEventMinutes events
    <= totalFreeMinutes (computeFreeSlots events s e) <= e - s
  /\ (Sorted eventBefore events ->
      totalFreeMinutes (computeFreeSlots events s e) + totalEventMinutes events
      = e - s).
Proof.
  intros Hse _ _ _ Hin. rewrite computeFreeSlots_gaps.
  assert (H1 : Forall (fun ev => ParsedEvent.startMinutes ev <= ParsedEvent.endMinutes ev
                                 /\ ParsedEvent.endMinutes ev <= e) events)
    by (eapply Forall_impl; [|exact Hin]; unfold eventWithin; cbv beta; intros; lia).
  assert (H2 : Forall (fun ev => ParsedEvent.startMinutes ev
                                 <= ParsedEvent.endMinutes ev) events)
    by (eapply Forall_impl; [|exact Hin]; unfold eventWithin; cbv beta; intros; lia).
  split; [split|].
  - apply gaps_total_lower, H2.
  - apply gaps_total_upper; assumption.
  - intros Hs. rewrite (gaps_total_exact e events s Hs H1); [lia | | exact Hse].
    intros ev Hev. destruct events as [|x l]; [discriminate|].
    cbn in Hev. injection Hev as <-.
    inversion Hin as [|? ? Hx _]; subst. unfold eventWithin in Hx. lia.
Qed.

Lemma computeFreeSlots_minutes_witness :
  let events := [ParsedEvent.mk (js "Standup") 570 600;
                 ParsedEvent.mk (js "Lunch") 720 780] in
  totalFreeMinutes (computeFreeSlots events 540 1020) + totalEventMinutes events
  = 1020 - 540.
Proof.
  intros events.
  destruct (computeFreeSlots_minutes events 540 1020) as [_ H].
  - lia.
  - unfold safeInteger, MAX_SAFE_INTEGER; lia.
  - unfold safeInteger, MAX_SAFE_INTEGER; lia.
  - unfold safeInteger, MAX_SAFE_INTEGER; lia.
  - repeat constructor; unfold eventWithin; simpl; lia.
  - apply H. repeat constructor. unfold eventBefore; simpl; lia.
Defined.

(* ================================================================= *)
(** * From the calendar text to the plan *)

Lemma parseEvents_within text workStart workEnd ev :
  In ev (parseEvents text workStart workEnd) ->
  workStart <= ParsedEvent.startMinutes ev
  /\ ParsedEvent.startMinutes ev < ParsedEvent.endMinutes ev
  /\ ParsedEvent.endMinutes ev <= workEnd.
Proof.
  rewrite parseEvents_flat. intros Hin.
  apply (Permutation_in _ (sortByStart_perm _)) in Hin.
  apply in_flat_map in Hin. destruct Hin as (line & _ & Hev).
  exact (clampEvent_bounds _ _ _ _ Hev).
Qed.

(** X8. Whatever the calendar text, for a window whose bounds and length
    are safe integers and durations that are safe integers (so that the
    sums and differences of the code are exact): every block
    of the plan built in the free slots of the parsed events is non-empty
    and inside the window, meets no parsed event, and ends before every
    later block starts; the planned minutes do not exceed the free
    minutes. *)
Theorem plan_avoids_events (text : jsstring) (workStart workEnd : Z)
  (tasks : list ParsedTask.t) :
  safeInteger workStart -> safeInteger workEnd ->
  safeInteger (workEnd - workStart) ->
  Forall safeTask tasks ->
  let events := parseEvents text workStart workEnd in
  let freeSlots := computeFreeSlots events workStart workEnd in
  let planBlocks := plan_blocks (buildPlan freeSlots tasks) in
  (forall b, In b planBlocks ->
     workStart <= PlannedBlock.startMinutes b
     /\ PlannedBlock.startMinutes b < PlannedBlock.endMinutes b
     /\ PlannedBlock.endMinutes b <= workEnd)
  /\ (forall b ev t, In b planBlocks -> In ev events ->
        ~ (inBlock b t /\ inEvent ev t))
  /\ (forall i j a b, (i < j)%nat ->
        nth_error planBlocks i = Some a -> nth_error planBlocks j = Some b ->
        PlannedBlock.endMinutes a <= PlannedBlock.startMinutes b)
  /\ totalPlannedTaskMinutes planBlocks <= totalFreeMinutes freeSlots.
Proof.
  intros _ _ _ _ events freeSlots planBlocks.
  assert (Hev : Forall (fun ev => workStart <= ParsedEvent.startMinutes ev
                                  /\ ParsedEvent.startMinutes ev < ParsedEvent.endMinutes ev
                                  /\ ParsedEvent.endMinutes ev <= workEnd) events)
    by (apply Forall_forall; intros ev; apply parseEvents_within).
  assert (Hsorted : StronglySorted byStart events).
  { apply Sorted_StronglySorted; [|apply parseEvents_sorted].
    unfold Relations_1.Transitive, byStart; intros; lia. }
  assert (Hgaps : freeSlots = gaps events workStart workEnd)
    by apply computeFreeSlots_gaps.
  assert (Hstart : Forall (fun ev => ParsedEvent.startMinutes ev <= workEnd) events)
    by (eapply Forall_impl; [|exact Hev]; cbv beta; intros; lia).
  assert (Hbnd : forall slot, In slot freeSlots ->
             workStart <= FreeSlot.startMinutes slot
             /\ FreeSlot.startMinutes slot < FreeSlot.endMinutes slot
             /\ FreeSlot.endMinutes slot <= workEnd).
  { intros slot Hin. rewrite Hgaps in Hin.
    exact (gaps_bounds workEnd events workStart slot Hstart Hin). }
  assert (Hss : StronglySorted slotBefore freeSlots).
  { rewrite Hgaps. apply gaps_sorted.
    eapply Forall_impl; [|exact Hev]. cbv beta; intros; lia. }
  assert (Hne : Forall slotNonEmpty freeSlots)
    by (apply Forall_forall; intros slot Hin; apply (Hbnd slot Hin)).
  pose proof (runTasks_planInv freeSlots Hss Hne tasks _
                (planInv_initialState freeSlots Hne)) as (_ & Hord & Hall & _).
  fold (plan_blocks (buildPlan freeSlots tasks)) in Hord, Hall.
  change (plan_blocks (buildPlan freeSlots tasks)) with planBlocks in Hord, Hall.
  rewrite Forall_forall in Hall.
  split.
  { intros b Hb. destruct (Hall b Hb) as (Hlt & slot & Hslot & Hin1 & Hin2).
    destruct (Hbnd slot Hslot) as (? & ? & ?). lia. }
  split.
  { intros b ev t Hb Hevin [Htb Hte].
    destruct (Hall b Hb) as (_ & slot & Hslot & Hin1 & Hin2).
    rewrite Hgaps in Hslot.
    apply (gaps_avoid_events workEnd events workStart slot ev t
             Hsorted Hstart Hslot Hevin); [|exact Hte].
    unfold inSlot, inBlock, inside in *. lia. }
  split; [exact (StronglySorted_nth _ _ Hord)|].
  destruct (runTasks_spec freeSlots tasks _ (consistent_initialState freeSlots))
    as (_ & _ & _ & Htot & _).
  change (blocks (runTasks freeSlots (initialState freeSlots) tasks))
    with planBlocks in Htot.
  rewrite Htot, capLeft_initialState, (totalFree_capacity freeSlots Hne).
  pose proof (capLeft_nonneg freeSlots
                (runTasks freeSlots (initialState freeSlots) tasks)).
  cbn [initialState blocks]. change (totalPlannedTaskMinutes []) with 0. lia.
Qed.

Lemma plan_avoids_events_witness :
  let text := js "09:30-10:00 Standup" ++ LF :: js "12:00 Lunch" in
  let tasks := [ParsedTask.mk 1 (js "Report") true 90 true deep None None] in
  let b := PlannedBlock.mk (js "Report") 600 660 true deep in
  In b (plan_blocks
          (buildPlan (computeFreeSlots (parseEvents text 540 1020) 540 1020) tasks))
  /\ 540 <= PlannedBlock.startMinutes b
  /\ PlannedBlock.startMinutes b < PlannedBlock.endMinutes b
  /\ PlannedBlock.endMinutes b <= 1020.
Proof.
  intros text tasks b.
  assert (Hin : In b (plan_blocks
                        (buildPlan
                           (computeFreeSlots (parseEvents text 540 1020) 540 1020)
                           tasks)))
    by (right; left; reflexivity).
  split; [exact Hin|].
  destruct (plan_avoids_events text 540 1020 tasks) as (H & _).
  - unfold safeInteger, MAX_SAFE_INTEGER; lia.
  - unfold safeInteger, MAX_SAFE_INTEGER; lia.
  - unfold safeInteger, MAX_SAFE_INTEGER; lia.
  - repeat constructor;
      unfold safeTask, safeInteger, MAX_SAFE_INTEGER; simpl; lia.
  - exact (H b Hin).
Defined.

(* ================================================================= *)
(** * How much the plan places *)

Lemma demand_nonneg tasks : 0 <= demand tasks.
Proof.
  induction tasks as [|t ts IH]; cbn [demand fold_right]; [lia|].
  fold (demand ts). destruct (schedulable t) eqn:Hs; [|exact IH].
  unfold schedulable in Hs. apply andb_prop in Hs. destruct Hs as [_ Hs].
  apply Z.ltb_lt in Hs. lia.
Qed.

Lemma demand_cons t ts :
  demand (t :: ts)
  = (if schedulable t then ParsedTask.durationMinutes t else 0) + demand ts.
Proof.
  cbn [demand fold_right]. fold (demand ts). destruct (schedulable t); lia.
Qed.

Lemma capAfter_demand tasks : forall cap,
  0 <= cap -> capAfter cap tasks = Z.max 0 (cap - demand tasks).
Proof.
  induction tasks as [|t ts IH]; intros cap Hcap.
  - cbn. lia.
  - rewrite capAfter_cons, demand_cons.
    pose proof (demand_nonneg ts) as Hd.
    cbn [capAfter fold_left]. destruct (schedulable t) eqn:Hs.
    + rewrite IH by lia. lia.
    + rewrite IH by lia. lia.
Qed.

Lemma unscheduledSpec_all_placed tasks : forall cap,
  0 <= cap ->
  (filter schedulable (unscheduledSpec cap tasks) = [] <-> demand tasks <= cap).
Proof.
  induction tasks as [|t ts IH]; intros cap Hcap.
  - cbn. split; [lia | reflexivity].
  - rewrite demand_cons. pose proof (demand_nonneg ts) as Hd.
    cbn [unscheduledSpec]. rewrite schedulable_skip.
    destruct (schedulable t) eqn:Hs; cbn [negb].
    + assert (Hpos : 0 < ParsedTask.durationMinutes t).
      { unfold schedulable in Hs. apply andb_prop in Hs. destruct Hs as [_ Hs].
        now apply Z.ltb_lt. }
      destruct (Z.ltb_spec 0 (ParsedTask.durationMinutes t - cap)).
      * cbn [filter]. rewrite Hs. split; [discriminate | lia].
      * rewrite (IH (cap - ParsedTask.durationMinutes t)) by lia. lia.
    + cbn [filter]. rewrite Hs. rewrite (IH cap Hcap). lia.
Qed.

(** X9. When no free slot ends before it starts, for free slots and
    durations that are safe integers, as is the total of the free
    minutes (so that the sums and differences of the code are exact),
    the plan places as many
    minutes as the free slots or the tasks allow: the planned minutes are
    the smaller of the free minutes and the minutes the included tasks of
    positive duration ask for; and none of these tasks is unscheduled
    exactly when they ask for no more than the free minutes. *)
Theorem buildPlan_places_most (freeSlots : list FreeSlot.t)
  (tasks : list ParsedTask.t) :
  Forall slotOrdered freeSlots ->
  Forall safeSlot freeSlots ->
  Forall safeTask tasks ->
  safeInteger (totalFreeMinutes freeSlots) ->
  let plan := buildPlan freeSlots tasks in
  totalPlannedTaskMinutes (plan_blocks plan)
    = Z.min (totalFreeMinutes freeSlots) (demand tasks)
  /\ (filter schedulable (unscheduled plan) = [] <->
      demand tasks <= totalFreeMinutes freeSlots).
Proof.
  intros Hord _ _ _ plan. subst plan.
  rewrite (totalFree_capacity_ordered freeSlots Hord).
  rewrite buildPlan_blocks, buildPlan_unscheduled_state.
  destruct (runTasks_spec freeSlots tasks _ (consistent_initialState freeSlots))
    as (_ & Hcap & Hrt & Htot & _).
  rewrite capLeft_initialState in Hcap, Hrt, Htot.
  pose proof (capacity_nonneg freeSlots) as Hnn.
  split.
  - rewrite Htot, Hcap, (capAfter_demand tasks _ Hnn).
    cbn [initialState blocks]. change (totalPlannedTaskMinutes []) with 0.
    pose proof (demand_nonneg tasks). lia.
  - rewrite Hrt. cbn [initialState remainingTasks app].
    apply unscheduledSpec_all_placed, Hnn.
Qed.

Lemma buildPlan_places_most_witness :
  let slots := [FreeSlot.mk 540 570; FreeSlot.mk 600 720] in
  let tasks := [ParsedTask.mk 1 (js "Report") true 90 true deep None None;
                ParsedTask.mk 2 (js "Later") false 60 false other None None;
                ParsedTask.mk 3 (js "Inbox") true 100 false admin None None] in
  totalPlannedTaskMinutes (plan_blocks (buildPlan slots tasks))
  = Z.min (totalFreeMinutes slots) (demand tasks).
Proof.
  intros slots tasks.
  apply (buildPlan_places_most slots tasks).
  - repeat constructor; unfold slotOrdered; simpl; lia.
  - repeat constructor;
      unfold safeInteger, MAX_SAFE_INTEGER; simpl; lia.
  - repeat constructor;
      unfold safeTask, safeInteger, MAX_SAFE_INTEGER; simpl; lia.
  - unfold safeInteger, MAX_SAFE_INTEGER, totalFreeMinutes; simpl; lia.
Defined.

(** X10. For a plan just built from free slots none of which ends before
    it starts, with free slots and durations that are safe integers, as
    is the total of the free minutes (so that the sums and differences
    of the code are exact), the overload message is never the overbooked one: it is
    the no-free-time sentence when there are no free minutes, otherwise
    the minutes still free when the tasks ask for less than the free
    minutes, otherwise the perfectly-packed sentence. *)
Theorem fresh_plan_message (freeSlots : list FreeSlot.t)
  (tasks : list ParsedTask.t) :
  Forall slotOrdered freeSlots ->
  Forall safeSlot freeSlots ->
  Forall safeTask tasks ->
  safeInteger (totalFreeMinutes freeSlots) ->
  let free := totalFreeMinutes freeSlots in
  let planned := totalPlannedTaskMinutes (plan_blocks (buildPlan freeSlots tasks)) in
  planned <= free
  /\ overloadMessage free planned
     = if free =? 0 then js "No free time in your work window."
       else if demand tasks <? free
            then js "You still have " ++ minutesToLabel (free - demand tasks)
                 ++ js " free."
            else js "Perfectly packed " ++ [EN_DASH] ++ js " no free time left.".
Proof.
  intros Hord _ _ _ free planned.
  assert (Hp : planned = Z.min free (demand tasks)).
  { subst planned free.
    rewrite (totalFree_capacity_ordered freeSlots Hord).
    rewrite buildPlan_blocks.
    destruct (runTasks_spec freeSlots tasks _ (consistent_initialState freeSlots))
      as (_ & Hcap & _ & Htot & _).
    rewrite capLeft_initialState in Hcap, Htot.
    rewrite Htot, Hcap, (capAfter_demand tasks _ (capacity_nonneg freeSlots)).
    cbn [initialState blocks]. change (totalPlannedTaskMinutes []) with 0.
    pose proof (demand_nonneg tasks). pose proof (capacity_nonneg freeSlots). lia. }
  split; [lia|].
  unfold overloadMessage. destruct (Z.eqb_spec free 0); [reflexivity|].
  destruct (Z.ltb_spec 0 (planned - free)); [lia|].
  destruct (Z.ltb_spec (planned - free) 0);
    destruct (Z.ltb_spec (demand tasks) free); try lia.
  - replace (- (planned - free)) with (free - demand tasks) by lia. reflexivity.
  - reflexivity.
Qed.

Lemma fresh_plan_message_witness :
  let slots := [FreeSlot.mk 540 570; FreeSlot.mk 600 720] in
  let tasks := [ParsedTask.mk 1 (js "Report") true 90 true deep None None] in
  overloadMessage (totalFreeMinutes slots)
    (totalPlannedTaskMinutes (plan_blocks (buildPlan slots tasks)))
  = js "You still have 1h free.".
Proof.
  intros slots tasks.
  destruct (fresh_plan_message slots tasks) as [_ H].
  - repeat constructor; unfold slotOrdered; simpl; lia.
  - repeat constructor;
      unfold safeInteger, MAX_SAFE_INTEGER; simpl; lia.
  - repeat constructor;
      unfold safeTask, safeInteger, MAX_SAFE_INTEGER; simpl; lia.
  - unfold safeInteger, MAX_SAFE_INTEGER, totalFreeMinutes; simpl; lia.
  - rewrite H. reflexivity.
Defined.

(* ================================================================= *)
(** * The task registry *)

Lemma StronglySorted_last {A : Type} (R : A -> A -> Prop) (l : list A) (x : A) :
  StronglySorted R (l ++ [x]) -> Forall (fun a => R a x) l.
Proof.
  induction l as [|a l IH]; intros H; [constructor|].
  cbn [app] in H. inversion H as [|? ? Hl Ha]; subst.
  constructor; [|now apply IH].
  rewrite Forall_forall in Ha. apply Ha. apply in_or_app. right. now left.
Qed.

Lemma nth_error_last {A : Type} (l : list A) (x : A) :
  nth_error (l ++ [x]) (List.length (l ++ [x]) - 1) = Some x.
Proof.
  rewrite length_app. cbn [List.length].
  replace (List.length l + 1 - 1)%nat with (List.length l) by lia.
  rewrite nth_error_app2 by lia. rewrite Nat.sub_diag. reflexivity.
Qed.

Lemma updateTask_ids i f prev :
  (forall t, ParsedTask.id (f t) = ParsedTask.id t) ->
  map ParsedTask.id (updateTask i f prev) = map ParsedTask.id prev.
Proof.
  intros Hf. unfold updateTask. rewrite map_map. apply map_ext.
  intros t. destruct (ParsedTask.id t =? i); [apply Hf | reflexivity].
Qed.

Lemma updateTask_twice i f g prev :
  (forall t, ParsedTask.id (f t) = ParsedTask.id t) ->
  updateTask i g (updateTask i f prev) = updateTask i (fun t => g (f t)) prev.
Proof.
  intros Hf. unfold updateTask. rewrite map_map. apply map_ext.
  intros t. destruct (ParsedTask.id t =? i) eqn:Hi.
  - rewrite Hf, Hi. reflexivity.
  - rewrite Hi. reflexivity.
Qed.

Lemma updateTask_id i f prev :
  (forall t, f t = t) -> updateTask i f prev = prev.
Proof.
  intros Hf. unfold updateTask. rewrite <- (map_id prev) at 2.
  apply map_ext. intros t. destruct (ParsedTask.id t =? i); [apply Hf | reflexivity].
Qed.

(** X11. Quick capture of a blank text leaves the tasks as they are.
    Otherwise it appends one task, titled with the trimmed text, included,
    thirty minutes long; when the ids of the tasks increase along the
    list and are safe integers (so that [id + 1] is the next integer),
    the id of the new task is above all of them, so the ids still
    increase and no two tasks share one. *)
Theorem handleAddQuickTask_fresh_id (quickTask : jsstring)
  (prev : list ParsedTask.t) :
  (isEmpty (trim quickTask) = true -> handleAddQuickTask quickTask prev = prev)
  /\ (isEmpty (trim quickTask) = false ->
      exists task,
        handleAddQuickTask quickTask prev = prev ++ [task]
        /\ ParsedTask.title task = trim quickTask
        /\ schedulable task = true
        /\ ParsedTask.durationMinutes task = 30
        /\ (StronglySorted Z.lt (map ParsedTask.id prev) ->
            Forall safeInteger (map ParsedTask.id prev) ->
            Forall (fun t => ParsedTask.id t < ParsedTask.id task) prev
            /\ StronglySorted Z.lt
                 (map ParsedTask.id (handleAddQuickTask quickTask prev))
            /\ NoDup (map ParsedTask.id (handleAddQuickTask quickTask prev)))).
Proof.
  unfold handleAddQuickTask. split; [intros ->; reflexivity|].
  intros ->.
  eexists. split; [reflexivity|]. cbn [ParsedTask.title ParsedTask.durationMinutes
                                       ParsedTask.id].
  split; [reflexivity|]. split; [reflexivity|]. split; [reflexivity|].
  intros Hs _.
  assert (Hall : Forall (fun t => ParsedTask.id t <
                   (if (0 <? List.length prev)%nat
                    then match nth_error prev (List.length prev - 1) with
                         | Some t0 => ParsedTask.id t0 + 1
                         | None => 1
                         end
                    else 1)) prev).
  { destruct prev as [|x0 l0]; [constructor|].
    destruct (@exists_last _ (x0 :: l0) ltac:(discriminate)) as (init & x & Heq).
    rewrite Heq in *. rewrite nth_error_last.
    assert (Hlen : (0 <? List.length (init ++ [x]))%nat = true)
      by (apply Nat.ltb_lt; rewrite length_app; cbn; lia).
    rewrite Hlen. rewrite map_app in Hs. cbn [map] in Hs.
    apply StronglySorted_last in Hs.
    apply Forall_app. split.
    + rewrite Forall_map in Hs. eapply Forall_impl; [|exact Hs].
      cbv beta. intros; lia.
    + constructor; [lia | constructor]. }
  split; [exact Hall|].
  assert (Hss : StronglySorted Z.lt
                  (map ParsedTask.id
                     (prev ++
                      [ParsedTask.mk
                         (if (0 <? List.length prev)%nat
                          then match nth_error prev (List.length prev - 1) with
                               | Some t0 => ParsedTask.id t0 + 1
                               | None => 1
                               end
                          else 1)
                         (trim quickTask) true 30 false other None None]))).
  { rewrite map_app. cbn [map ParsedTask.id].
    apply StronglySorted_snoc; [exact Hs|].
    rewrite Forall_map. exact Hall. }
  split; [exact Hss|].
  clear - Hss. induction Hss as [|a l Hl IH Ha]; constructor; [|exact IH].
  intros Hin. rewrite Forall_forall in Ha. specialize (Ha a Hin). lia.
Qed.

Lemma handleAddQuickTask_fresh_id_witness :
  let prev := [ParsedTask.mk 1 (js "Inbox") true 30 false other None None;
               ParsedTask.mk 4 (js "Report") true 60 true deep None None] in
  exists task,
    handleAddQuickTask (js " Call Ana ") prev = prev ++ [task]
    /\ ParsedTask.title task = js "Call Ana"
    /\ Forall (fun t => ParsedTask.id t < ParsedTask.id task) prev.
Proof.
  intros prev.
  destruct (handleAddQuickTask_fresh_id (js " Call Ana ") prev) as [_ H].
  destruct (H eq_refl) as (task & H1 & H2 & _ & _ & H3).
  exists task. split; [exact H1|]. split; [exact H2|].
  apply H3.
  - repeat constructor; simpl; lia.
  - repeat constructor; unfold safeInteger, MAX_SAFE_INTEGER; simpl; lia.
Defined.

(** X12. The edits of a task keep the list of ids, so they keep its order
    and leave the tasks with another id as they are; toggling the include
    flag or the important flag twice restores the list, and of two
    changes of duration, of context or of the review fields of one task
    the later stands. *)
Theorem registry_edits (id : Z) (prev : list ParsedTask.t) :
  (forall minutes ctx changes,
     map ParsedTask.id (handleToggleTaskInclude id prev) = map ParsedTask.id prev
     /\ map ParsedTask.id (handleToggleTaskImportant id prev) = map ParsedTask.id prev
     /\ map ParsedTask.id (handleTaskDurationChange id minutes prev)
        = map ParsedTask.id prev
     /\ map ParsedTask.id (handleTaskContextChange id ctx prev) = map ParsedTask.id prev
     /\ map ParsedTask.id (handleTaskReviewChange id changes prev)
        = map ParsedTask.id prev)
  /\ handleToggleTaskInclude id (handleToggleTaskInclude id prev) = prev
  /\ handleToggleTaskImportant id (handleToggleTaskImportant id prev) = prev
  /\ (forall m1 m2,
        handleTaskDurationChange id m2 (handleTaskDurationChange id m1 prev)
        = handleTaskDurationChange id m2 prev)
  /\ (forall c1 c2,
        handleTaskContextChange id c2 (handleTaskContextChange id c1 prev)
        = handleTaskContextChange id c2 prev)
  /\ (forall f t, In t prev -> ParsedTask.id t <> id -> In t (updateTask id f prev)).
Proof.
  split.
  { intros minutes ctx changes.
    repeat split; apply updateTask_ids; reflexivity. }
  split.
  { unfold handleToggleTaskInclude. rewrite updateTask_twice by reflexivity.
    apply updateTask_id. intros [i t inc d imp c rs rn]. unfold withInclude; simpl.
    now rewrite negb_involutive. }
  split.
  { unfold handleToggleTaskImportant. rewrite updateTask_twice by reflexivity.
    apply updateTask_id. intros [i t inc d imp c rs rn]. unfold withImportant; simpl.
    now rewrite negb_involutive. }
  split.
  { intros m1 m2. unfold handleTaskDurationChange.
    rewrite updateTask_twice by reflexivity. reflexivity. }
  split.
  { intros c1 c2. unfold handleTaskContextChange.
    rewrite updateTask_twice by reflexivity. reflexivity. }
  intros f t Hin Hid. unfold updateTask. apply in_map_iff. exists t.
  split; [|exact Hin].
  destruct (Z.eqb_spec (ParsedTask.id t) id); [contradiction | reflexivity].
Qed.

Lemma registry_edits_witness :
  let t1 := ParsedTask.mk 1 (js "Inbox") true 30 false other None None in
  let t2 := ParsedTask.mk 2 (js "Report") true 60 true deep None None in
  In t1 (handleTaskDurationChange 2 90 [t1; t2]).
Proof.
  intros t1 t2.
  destruct (registry_edits 2 [t1; t2]) as (_ & _ & _ & _ & _ & H).
  apply (H (withDuration 90) t1); [now left | simpl; lia].
Defined.

Lemma unscheduledSpec_skipped tasks : forall cap t,
  In t tasks -> schedulable t = false -> In t (unscheduledSpec cap tasks).
Proof.
  induction tasks as [|x l IH]; intros cap t Hin Hs; [contradiction|].
  cbn [unscheduledSpec]. rewrite schedulable_skip.
  destruct Hin as [->|Hin].
  - rewrite Hs. now left.
  - destruct (schedulable x); cbn [negb].
    + destruct (0 <? ParsedTask.durationMinutes x - cap);
        [right|]; now apply IH.
    + right. now apply IH.
Qed.

(** X13. Switching off the tasks of an id that were all included gives the
    plan of the list without them: the blocks are those of the plan of
    the other tasks, and the tasks switched off are unscheduled. *)
Theorem toggle_off_plan (freeSlots : list FreeSlot.t) (tasks : list ParsedTask.t)
  (id : Z) :
  (forall t, In t tasks -> ParsedTask.id t = id -> ParsedTask.include t = true) ->
  let tasks' := handleToggleTaskInclude id tasks in
  plan_blocks (buildPlan freeSlots tasks')
  = plan_blocks
      (buildPlan freeSlots (filter (fun t => negb (ParsedTask.id t =? id)) tasks))
  /\ (forall t, In t tasks' -> ParsedTask.id t = id ->
        In t (unscheduled (buildPlan freeSlots tasks'))).
Proof.
  intros Hinc tasks'.
  assert (Hoff : forall t, In t tasks' -> ParsedTask.id t = id ->
                           schedulable t = false).
  { intros t Hin Hid. subst tasks'. unfold handleToggleTaskInclude, updateTask in Hin.
    apply in_map_iff in Hin. destruct Hin as (t0 & Ht & Hin0).
    destruct (Z.eqb_spec (ParsedTask.id t0) id) as [He|Hn].
    - subst t. unfold schedulable, withInclude; simpl.
      now rewrite (Hinc t0 Hin0 He).
    - subst t. contradiction. }
  split.
  - rewrite !buildPlan_blocks.
    pose proof (runTasks_filter freeSlots tasks' (initialState freeSlots)) as H1.
    pose proof (runTasks_filter freeSlots
                  (filter (fun t => negb (ParsedTask.id t =? id)) tasks)
                  (initialState freeSlots)) as H2.
    apply (f_equal blocks) in H1, H2. cbn [withRemaining blocks] in H1, H2.
    rewrite <- H1, <- H2. f_equal. f_equal.
    subst tasks'. clear - Hinc.
    induction tasks as [|t ts IH]; [reflexivity|].
    cbn [handleToggleTaskInclude updateTask map filter].
    fold (updateTask id (fun t => withInclude (negb (ParsedTask.include t)) t) ts).
    fold (handleToggleTaskInclude id ts).
    assert (IH' := IH (fun t' Hin => Hinc t' (or_intror Hin))).
    destruct (Z.eqb_spec (ParsedTask.id t) id) as [He|Hn]; cbn [negb filter].
    + unfold schedulable at 1, withInclude; cbn [ParsedTask.include].
      rewrite (Hinc t (or_introl eq_refl) He). cbn [negb andb]. exact IH'.
    + destruct (schedulable t); [f_equal|]; exact IH'.
  - intros t Hin Hid. rewrite buildPlan_unscheduled_state.
    destruct (runTasks_spec freeSlots tasks' _ (consistent_initialState freeSlots))
      as (_ & _ & Hrt & _).
    rewrite Hrt. cbn [initialState remainingTasks app].
    apply unscheduledSpec_skipped; [exact Hin | now apply Hoff].
Qed.

Lemma toggle_off_plan_witness :
  let slots := [FreeSlot.mk 540 600] in
  let t1 := ParsedTask.mk 1 (js "Inbox") true 45 false admin None None in
  let t2 := ParsedTask.mk 2 (js "Report") true 60 true deep None None in
  plan_blocks (buildPlan slots (handleToggleTaskInclude 1 [t1; t2]))
  = plan_blocks (buildPlan slots [t2]).
Proof.
  intros slots t1 t2.
  destruct (toggle_off_plan slots [t1; t2] 1) as [H _].
  - intros t [<-|[<-|[]]]; reflexivity.
  - exact H.
Defined.

(* ================================================================= *)
(** * Lines of a text *)

Lemma splitLines_oneLine s : Forall oneLine (splitLines s).
Proof.
  induction s as [|c s IH]; cbn [splitLines].
  - constructor; [intros []|constructor].
  - destruct (N.eqb_spec c LF) as [->|Hc].
    + constructor; [intros []|exact IH].
    + destruct (splitLines s) as [|l ls]; [repeat constructor; intros [H|[]]; congruence|].
      inversion IH as [|? ? Hl Hls]; subst.
      constructor; [|exact Hls].
      intros [H|H]; [congruence | now apply Hl].
Qed.

Lemma joinLines_cons l rest :
  rest <> [] -> joinLines (l :: rest) = l ++ LF :: joinLines rest.
Proof. destruct rest; [contradiction | reflexivity]. Qed.

Lemma joinLines_splitLines s : joinLines (splitLines s) = s.
Proof.
  induction s as [|c s IH]; cbn [splitLines]; [reflexivity|].
  pose proof (splitLines_nonempty s) as Hne.
  destruct (N.eqb_spec c LF) as [->|Hc].
  - rewrite joinLines_cons by exact Hne. now rewrite IH.
  - destruct (splitLines s) as [|l ls]; [contradiction|].
    destruct ls as [|l2 ls].
    + cbn [joinLines] in *. now rewrite IH.
    + rewrite joinLines_cons by discriminate.
      rewrite joinLines_cons in IH by discriminate.
      cbn [app]. now rewrite IH.
Qed.

Lemma splitLines_joinLines lines :
  lines <> [] -> Forall oneLine lines -> splitLines (joinLines lines) = lines.
Proof.
  induction lines as [|l rest IH]; intros Hne Hall; [contradiction|].
  inversion Hall as [|? ? Hl Hrest]; subst.
  destruct rest as [|l2 rest].
  - cbn [joinLines]. now apply splitLines_single.
  - rewrite joinLines_cons by discriminate.
    rewrite splitLines_app, (splitLines_single l Hl), IH; [reflexivity| |exact Hrest].
    discriminate.
Qed.

(* ================================================================= *)
(** * White space and line endings in the calendar text *)

(** X14. [parseTimeToMinutes] and the reading of a calendar line ignore
    white space around their input. *)
Theorem white_space_ignored (pre s post : jsstring) (workStart workEnd : Z) :
  forallb isSpace pre = true -> forallb isSpace post = true ->
  parseTimeToMinutes (pre ++ s ++ post) = parseTimeToMinutes s
  /\ parseLine workStart workEnd (pre ++ s ++ post) = parseLine workStart workEnd s.
Proof.
  intros Hpre Hpost.
  unfold parseTimeToMinutes, parseLine. rewrite (trim_pad pre s post Hpre Hpost).
  split; reflexivity.
Qed.

Lemma white_space_ignored_witness :
  parseLine 540 1020 (js "   " ++ js "09:30-10:00 Standup" ++ [CR])
  = parseLine 540 1020 (js "09:30-10:00 Standup").
Proof.
  apply (white_space_ignored (js "   ") (js "09:30-10:00 Standup") [CR] 540 1020);
    reflexivity.
Defined.

Lemma oneLine_app a b : oneLine a -> oneLine b -> oneLine (a ++ b).
Proof.
  unfold oneLine. intros Ha Hb Hin. apply in_app_or in Hin. tauto.
Qed.

(** X15. White space that holds no line feed, put before and after the
    lines of a calendar text, changes none of its events: a text with
    carriage returns before its line feeds, or with indented lines, is
    read like the text without them. *)
Theorem parseEvents_padded_lines
  (lines : list (jsstring * jsstring * jsstring)) (workStart workEnd : Z) :
  lines <> [] -> Forall paddingOk lines ->
  parseEvents (joinLines (map padded lines)) workStart workEnd
  = parseEvents (joinLines (map unpadded lines)) workStart workEnd.
Proof.
  intros Hne Hall. unfold parseEvents.
  rewrite !splitLines_joinLines.
  - rewrite !fold_left_push. cbn [app]. f_equal.
    rewrite !flat_map_concat_map, !map_map. f_equal.
    apply map_ext_in. intros [[pre line] post] Hin.
    rewrite Forall_forall in Hall. specialize (Hall _ Hin).
    destruct Hall as (Hpre & Hpost & _).
    unfold padded, unpadded, parseLine. now rewrite trim_pad.
  - destruct lines; [contradiction | discriminate].
  - apply Forall_map. eapply Forall_impl; [|exact Hall].
    intros [[pre line] post] (_ & _ & _ & Hl & _). exact Hl.
  - destruct lines; [contradiction | discriminate].
  - apply Forall_map. eapply Forall_impl; [|exact Hall].
    intros [[pre line] post] (_ & _ & H1 & H2 & H3).
    unfold padded. now repeat apply oneLine_app.
Qed.

Lemma parseEvents_padded_lines_witness :
  parseEvents
    (js "09:30-10:00 Standup" ++ [CR; LF] ++ js "  15:00 1:1" ++ [CR]) 540 1020
  = parseEvents (js "09:30-10:00 Standup" ++ [LF] ++ js "15:00 1:1") 540 1020.
Proof.
  apply (parseEvents_padded_lines
           [([], js "09:30-10:00 Standup", [CR]); (js "  ", js "15:00 1:1", [CR])]
           540 1020).
  - discriminate.
  - repeat constructor; unfold oneLine; vm_compute; intuition discriminate.
Defined.

(* ================================================================= *)
(** * The order of the events *)

Lemma insertByStart_filter k e l :
  filter (fun ev => ParsedEvent.startMinutes ev =? k) (insertByStart e l)
  = filter (fun ev => ParsedEvent.startMinutes ev =? k) (e :: l).
Proof.
  induction l as [|x l IH]; [reflexivity|].
  cbn [insertByStart].
  destruct (Z.leb_spec (ParsedEvent.startMinutes e) (ParsedEvent.startMinutes x));
    [reflexivity|].
  cbn [filter] in *. rewrite IH.
  destruct (Z.eqb_spec (ParsedEvent.startMinutes x) k);
    destruct (Z.eqb_spec (ParsedEvent.startMinutes e) k); try reflexivity.
  lia.
Qed.

Lemma sortByStart_filter k l :
  filter (fun ev => ParsedEvent.startMinutes ev =? k) (sortByStart l)
  = filter (fun ev => ParsedEvent.startMinutes ev =? k) l.
Proof.
  induction l as [|x l IH]; [reflexivity|].
  cbn [sortByStart fold_right]. fold (sortByStart l).
  rewrite insertByStart_filter. cbn [filter]. now rewrite IH.
Qed.

(** X16. The events of [parseEvents] are in ascending order of start
    time, and events that start at the same minute keep the order of
    their lines in the text. *)
Theorem parseEvents_sorted_stable (text : jsstring) (workStart workEnd : Z) :
  Sorted byStart (parseEvents text workStart workEnd)
  /\ forall k,
       filter (fun ev => ParsedEvent.startMinutes ev =? k)
              (parseEvents text workStart workEnd)
       = filter (fun ev => ParsedEvent.startMinutes ev =? k)
                (eventsInLineOrder text workStart workEnd).
Proof.
  split; [apply parseEvents_sorted|].
  intros k. unfold parseEvents, eventsInLineOrder.
  rewrite fold_left_push. cbn [app]. apply sortByStart_filter.
Qed.

(* ================================================================= *)
(** * Quick captures from an empty registry *)

Lemma nextId_seq (prev : list ParsedTask.t) (k : nat) :
  map ParsedTask.id prev = map Z.of_nat (seq 1 k) ->
  (if (0 <? List.length prev)%nat
   then match nth_error prev (List.length prev - 1) with
        | Some t => ParsedTask.id t + 1
        | None => 1
        end
   else 1) = Z.of_nat (S k).
Proof.
  intros Hids. destruct k as [|k].
  - destruct prev; [reflexivity | discriminate].
  - destruct prev as [|x0 l0]; [discriminate|].
    destruct (@exists_last _ (x0 :: l0) ltac:(discriminate)) as (init & x & Heq).
    rewrite Heq in *. rewrite nth_error_last.
    assert (Hlen : (0 <? List.length (init ++ [x]))%nat = true)
      by (apply Nat.ltb_lt; rewrite length_app; cbn; lia).
    rewrite Hlen. rewrite seq_S, !map_app in Hids. cbn [map] in Hids.
    apply app_inj_tail in Hids. destruct Hids as [_ Hx]. rewrite Hx. lia.
Qed.

Lemma handleAddQuickTask_seq quickTask prev k :
  map ParsedTask.id prev = map Z.of_nat (seq 1 k) ->
  isEmpty (trim quickTask) = false ->
  map ParsedTask.id (handleAddQuickTask quickTask prev) = map Z.of_nat (seq 1 (S k))
  /\ map ParsedTask.title (handleAddQuickTask quickTask prev)
     = map ParsedTask.title prev ++ [trim quickTask].
Proof.
  intros Hids Hq. unfold handleAddQuickTask. rewrite Hq.
  rewrite !map_app. cbn [map ParsedTask.id ParsedTask.title].
  rewrite (nextId_seq prev k Hids), Hids, seq_S, map_app.
  split; reflexivity.
Qed.

(** X17. The tasks captured one after the other into an empty registry
    are numbered 1, 2, 3, ... in the order of capture, blank texts
    leaving no task, and their titles are the trimmed texts. *)
Theorem captureAll_ids (texts : list jsstring) :
  let kept := filter (fun q => negb (isEmpty (trim q))) texts in
  map ParsedTask.id (captureAll texts) = map Z.of_nat (seq 1 (List.length kept))
  /\ map ParsedTask.title (captureAll texts) = map trim kept.
Proof.
  intros kept. subst kept. unfold captureAll.
  enough (H : forall prev k,
             map ParsedTask.id prev = map Z.of_nat (seq 1 k) ->
             let kept := filter (fun q => negb (isEmpty (trim q))) texts in
             let out := fold_left (fun prev q => handleAddQuickTask q prev) texts prev in
             map ParsedTask.id out = map Z.of_nat (seq 1 (k + List.length kept))
             /\ map ParsedTask.title out = map ParsedTask.title prev ++ map trim kept)
    by (apply (H [] O); reflexivity).
  induction texts as [|q qs IH]; intros prev k Hids; cbv zeta.
  - cbn [filter fold_left List.length map]. rewrite Nat.add_0_r, app_nil_r.
    split; [exact Hids | reflexivity].
  - cbn [fold_left filter].
    destruct (isEmpty (trim q)) eqn:Hq; cbn [negb].
    + assert (Hsame : handleAddQuickTask q prev = prev)
        by (unfold handleAddQuickTask; now rewrite Hq).
      rewrite Hsame. exact (IH prev k Hids).
    + destruct (handleAddQuickTask_seq q prev k Hids Hq) as [Hids' Htitles].
      destruct (IH _ (S k) Hids') as [H1 H2].
      cbn [List.length map]. split.
      * rewrite H1. f_equal. f_equal. lia.
      * rewrite H2, Htitles, <- app_assoc. reflexivity.
Qed.

(* ================================================================= *)
(** * The resume of the day *)

Lemma oneLine_b s : forallb (fun c => negb (c =? LF)%N) s = true -> oneLine s.
Proof.
  unfold oneLine. induction s as [|c s IH]; intros H Hin; [contradiction|].
  cbn [forallb] in H. apply andb_prop in H. destruct H as [Hc Hs].
  destruct Hin as [->|Hin]; [discriminate Hc | now apply IH].
Qed.

Lemma trimStart_in c s : In c (trimStart s) -> In c s.
Proof.
  induction s as [|x s IH]; cbn [trimStart]; [tauto|].
  destruct (isSpace x); [intros H; right; now apply IH | tauto].
Qed.

Lemma oneLine_trim s : oneLine s -> oneLine (trim s).
Proof.
  unfold oneLine, trim, trimEnd. intros Hs Hin. apply Hs.
  apply in_rev in Hin. apply trimStart_in in Hin. apply in_rev in Hin.
  now apply trimStart_in.
Qed.

Lemma resumeTaskLine_oneLine task : taskOneLine task -> oneLine (resumeTaskLine task).
Proof.
  intros [Htitle Hnote]. unfold resumeTaskLine.
  assert (Hstatus : oneLine
            match ParsedTask.reviewStatus task with
            | Some rs_none => js "no status"
            | Some rs => reviewStatusText rs
            | None => js "no status"
            end)
    by (destruct (ParsedTask.reviewStatus task) as [[]|]; apply oneLine_b; reflexivity).
  assert (Hline : oneLine
            (js "- " ++ ParsedTask.title task ++ [SPACE; EM_DASH; SPACE] ++
             match ParsedTask.reviewStatus task with
             | Some rs_none => js "no status"
             | Some rs => reviewStatusText rs
             | None => js "no status"
             end)).
  { repeat apply oneLine_app; try assumption; apply oneLine_b; reflexivity. }
  destruct (ParsedTask.reviewNote task) as [note|]; cbn [option_map]; [|exact Hline].
  destruct (isEmpty (trim note)); [exact Hline|].
  repeat apply oneLine_app; try assumption; try (apply oneLine_b; reflexivity).
  apply oneLine_trim. now apply Hnote.
Qed.

Lemma resume_fold tasks : forall lines,
  fold_left (fun lines task => lines ++ [resumeTaskLine task]) tasks lines
  = lines ++ map resumeTaskLine tasks.
Proof.
  induction tasks as [|t ts IH]; intros lines; cbn [fold_left map].
  - now rewrite app_nil_r.
  - rewrite IH, <- app_assoc. reflexivity.
Qed.

(** X18. When the day summary, once trimmed, and the titles and notes of
    the tasks hold no line feed, the lines of the resume text are: four
    heading lines, three more when the summary is not blank, and then
    either the one sentence that no task was recorded, or the heading of
    the review followed by one line per task in the order of the tasks. *)
Theorem buildResumeText_lines (tasks : list ParsedTask.t)
  (daySummary : jsstring) (dayType : DayType) :
  oneLine (trim daySummary) -> Forall taskOneLine tasks ->
  exists head,
    splitLines (buildResumeText tasks daySummary dayType)
    = head ++ match tasks with
              | [] => [js "No tasks recorded for today."]
              | _ :: _ => js "Tasks review:" :: map resumeTaskLine tasks
              end
    /\ List.length head = (if isEmpty (trim daySummary) then 4 else 7)%nat
    /\ nth_error head 2
       = Some (js "Day type: " ++ DayConfig.label (DAY_TYPE_CONFIG dayType)).
Proof.
  intros Hsum Htasks.
  set (head :=
         let lines :=
           [js "Today Desk " ++ [EN_DASH] ++ js " Resume of the day";
            [];
            js "Day type: " ++ DayConfig.label (DAY_TYPE_CONFIG dayType);
            []] in
         if isEmpty (trim daySummary) then lines
         else lines ++ [js "Overall notes:"; trim daySummary; []]).
  exists head.
  assert (Hhead : Forall oneLine head).
  { subst head. cbv zeta.
    assert (H4 : Forall oneLine
              [js "Today Desk " ++ [EN_DASH] ++ js " Resume of the day";
               [];
               js "Day type: " ++ DayConfig.label (DAY_TYPE_CONFIG dayType);
               []]).
    { repeat constructor; try (apply oneLine_b; reflexivity).
      destruct dayType; apply oneLine_b; reflexivity. }
    destruct (isEmpty (trim daySummary)); [exact H4|].
    apply Forall_app. split; [exact H4|].
    repeat constructor; try (apply oneLine_b; reflexivity). exact Hsum. }
  assert (Hlines : resumeLines tasks daySummary dayType
                   = head ++ match tasks with
                             | [] => [js "No tasks recorded for today."]
                             | _ :: _ => js "Tasks review:" :: map resumeTaskLine tasks
                             end).
  { unfold resumeLines. fold head.
    destruct tasks as [|t ts]; [reflexivity|].
    change (0 <? List.length (t :: ts))%nat with true. cbv iota.
    rewrite resume_fold, <- app_assoc. reflexivity. }
  split; [|split].
  - unfold buildResumeText. rewrite Hlines. apply splitLines_joinLines.
    + destruct head; [|discriminate]. destruct tasks; discriminate.
    + apply Forall_app. split; [exact Hhead|].
      destruct tasks as [|t ts]; [repeat constructor; apply oneLine_b; reflexivity|].
      constructor; [apply oneLine_b; reflexivity|].
      apply Forall_map. eapply Forall_impl; [|exact Htasks].
      intros task. apply resumeTaskLine_oneLine.
  - subst head. cbv zeta. destruct (isEmpty (trim daySummary)); reflexivity.
  - subst head. cbv zeta. destruct (isEmpty (trim daySummary)); reflexivity.
Qed.

Lemma buildResumeText_lines_witness :
  let tasks := [ParsedTask.mk 1 (js "Report") true 60 true deep (Some rs_done)
                  (Some (js " sent to Ana "));
                ParsedTask.mk 2 (js "Inbox") true 30 false admin None None] in
  exists head,
    splitLines (buildResumeText tasks (js "Good day") workday)
    = head ++ js "Tasks review:" :: map resumeTaskLine tasks
    /\ List.length head = 7%nat.
Proof.
  intros tasks.
  destruct (buildResumeText_lines tasks (js "Good day") workday)
    as (head & H1 & H2 & _).
  - apply oneLine_b. reflexivity.
  - repeat constructor; try (apply oneLine_b; reflexivity).
    + intros note H. injection H as <-. apply oneLine_b. reflexivity.
    + intros note H. discriminate H.
  - exists head. split; [exact H1 | exact H2].
Defined.

(* ================================================================= *)
(** * The copied plan read as a calendar *)

Lemma exportedTitle_ok block :
  exportable block ->
  trimmed (exportedTitle block) /\ exportedTitle block <> []
  /\ forallb isDot (exportedTitle block) = true.
Proof.
  intros (_ & _ & Ht & Hne & Hdot). unfold exportedTitle.
  destruct (trimmed_ends _ Ht Hne) as [(c & r & Heq & Hc) _].
  rewrite Heq in *.
  split; [|split].
  - unfold trimmed.
    replace ((c :: r) ++ js " [" ++ contextLabel (PlannedBlock.context block) ++ js "]")
      with ((c :: r ++ js " [" ++ contextLabel (PlannedBlock.context block)) ++ js "]")
      by (cbn [app]; rewrite <- !app_assoc; reflexivity).
    apply trim_app_keep; [exact Hc | reflexivity | discriminate].
  - discriminate.
  - rewrite !forallb_app, Hdot.
    destruct (PlannedBlock.context block); reflexivity.
Qed.

Lemma planBlockLabel_recognized block :
  exportable block ->
  recognizeLine (planBlockLabel block)
  = Some (exportedTitle block,
          PlannedBlock.startMinutes block, PlannedBlock.endMinutes block)
  /\ oneLine (planBlockLabel block).
Proof.
  intros Hx. pose proof Hx as (Hs & He & _).
  destruct (exportedTitle_ok block Hx) as (Ht & Hne & Hdot).
  destruct (recognizeLine_range _ _ _ Hs He Ht Hne Hdot) as [Hrec Hline].
  assert (Heq : planBlockLabel block
                = minutesToTimeString (PlannedBlock.startMinutes block)
                  ++ HYPHEN :: minutesToTimeString (PlannedBlock.endMinutes block)
                  ++ SPACE :: exportedTitle block).
  { unfold planBlockLabel, exportedTitle.
    change (js "-") with [HYPHEN]. change (js " ") with [SPACE].
    cbn [app]. reflexivity. }
  rewrite Heq. split; [exact Hrec | exact (isDot_oneLine _ Hline)].
Qed.

Lemma plan_fold planBlocks : forall lines,
  fold_left (fun lines block => lines ++ [planBlockLabel block]) planBlocks lines
  = lines ++ map planBlockLabel planBlocks.
Proof.
  induction planBlocks as [|b bs IH]; intros lines; cbn [fold_left map].
  - now rewrite app_nil_r.
  - rewrite IH, <- app_assoc. reflexivity.
Qed.

(** The events [parseEvents] reads in the copied plan: for every block
    what is left in the window of the event from its start to its end. *)
Lemma planText_events (planBlocks : list PlannedBlock.t)
  (workStart workEnd : Z) :
  planBlocks <> [] -> Forall exportable planBlocks ->
  exists text,
    planText planBlocks = Some text
    /\ parseEvents text workStart workEnd
       = sortByStart
           (flat_map
              (fun b =>
                 clampEvent workStart workEnd
                   (Some (exportedTitle b, PlannedBlock.startMinutes b,
                          PlannedBlock.endMinutes b)))
              planBlocks).
Proof.
  intros Hne Hall. unfold planText.
  assert (Hlen : (List.length planBlocks =? 0)%nat = false)
    by (destruct planBlocks; [contradiction | reflexivity]).
  rewrite Hlen. cbv zeta.
  eexists. split; [reflexivity|].
  rewrite plan_fold, parseEvents_flat.
  rewrite splitLines_joinLines.
  - rewrite flat_map_app.
    assert (Hhead : flat_map
                      (fun line => clampEvent workStart workEnd (recognizeLine line))
                      [js "Today Desk " ++ [EN_DASH] ++ js " planned blocks"; []]
                    = []) by reflexivity.
    rewrite Hhead. cbn [app]. f_equal.
    rewrite !flat_map_concat_map, map_map. f_equal. apply map_ext_in.
    intros b Hb. rewrite Forall_forall in Hall.
    destruct (planBlockLabel_recognized b (Hall b Hb)) as [-> _]. reflexivity.
  - discriminate.
  - apply Forall_app. split.
    + constructor; [apply oneLine_b; reflexivity|].
      constructor; [intros []|constructor].
    + apply Forall_map. eapply Forall_impl; [|exact Hall].
      intros b Hb. exact (proj2 (planBlockLabel_recognized b Hb)).
Qed.

Lemma clampEvent_within (workStart workEnd : Z) (block : PlannedBlock.t) :
  blockWithin workStart workEnd block ->
  clampEvent workStart workEnd
    (Some (exportedTitle block, PlannedBlock.startMinutes block,
           PlannedBlock.endMinutes block))
  = [exportedEvent block].
Proof.
  intros (Hs & Hlt & He). unfold clampEvent, exportedEvent, exportedTitle.
  rewrite Z.max_l, Z.min_l by lia.
  destruct (Z.ltb_spec (PlannedBlock.startMinutes block)
              (PlannedBlock.endMinutes block)); [reflexivity | lia].
Qed.

Lemma flat_map_single {A B : Type} (f : A -> list B) (g : A -> B) (l : list A) :
  Forall (fun a => f a = [g a]) l -> flat_map f l = map g l.
Proof.
  induction 1 as [|a l Ha _ IH]; [reflexivity|].
  cbn [flat_map map]. rewrite Ha, IH. reflexivity.
Qed.

(** X19. The copied plan is a calendar text: when every block starts and
    ends at a minute of the day and has a trimmed, non-empty title
    without line terminators, [parseEvents] reads in the copied text,
    for every block, what is left in the window of the event from the
    start to the end of the block, titled with the task title and the
    context label, and nothing else; when every block is non-empty and
    lies in the window, that is exactly one event per block, from its
    start to its end.  With no block there is no text. *)
Theorem planText_parses_back (planBlocks : list PlannedBlock.t)
  (workStart workEnd : Z) :
  planText [] = None
  /\ (planBlocks <> [] -> Forall exportable planBlocks ->
      exists text,
        planText planBlocks = Some text
        /\ parseEvents text workStart workEnd
           = sortByStart
               (flat_map
                  (fun b =>
                     clampEvent workStart workEnd
                       (Some (exportedTitle b, PlannedBlock.startMinutes b,
                              PlannedBlock.endMinutes b)))
                  planBlocks)
        /\ (List.length (parseEvents text workStart workEnd)
            <= List.length planBlocks)%nat
        /\ (Forall (blockWithin workStart workEnd) planBlocks ->
            parseEvents text workStart workEnd
            = sortByStart (map exportedEvent planBlocks)
            /\ List.length (parseEvents text workStart workEnd)
               = List.length planBlocks)).
Proof.
  split; [reflexivity|].
  intros Hne Hall.
  destruct (planText_events planBlocks workStart workEnd Hne Hall)
    as (text & Htext & Hparse).
  exists text. split; [exact Htext|]. split; [exact Hparse|].
  split.
  { rewrite Hparse, (Permutation_length (sortByStart_perm _)).
    clear. induction planBlocks as [|b bs IH]; [apply Nat.le_refl|].
    change (flat_map ?f (b :: bs)) with (f b ++ flat_map f bs).
    rewrite length_app. cbv beta. unfold clampEvent at 1.
    destruct (Z.max (PlannedBlock.startMinutes b) workStart
              <? Z.min (PlannedBlock.endMinutes b) workEnd);
      cbn [List.length]; lia. }
  intros Hin.
  assert (Heq : parseEvents text workStart workEnd
                = sortByStart (map exportedEvent planBlocks)).
  { rewrite Hparse. f_equal. apply flat_map_single.
    eapply Forall_impl; [|exact Hin].
    intros b Hb. exact (clampEvent_within workStart workEnd b Hb). }
  split; [exact Heq|].
  rewrite Heq, (Permutation_length (sortByStart_perm _)).
  apply length_map.
Qed.

Lemma planText_parses_back_witness :
  let planBlocks := [PlannedBlock.mk (js "Report") 540 585 true deep;
                     PlannedBlock.mk (js "Inbox") 600 630 false admin] in
  exists text,
    planText planBlocks = Some text
    /\ parseEvents text 540 1020
       = [ParsedEvent.mk (js "Report [Deep work]") 540 585;
          ParsedEvent.mk (js "Inbox [Admin]") 600 630]
    /\ List.length (parseEvents text 540 1020) = List.length planBlocks.
Proof.
  intros planBlocks.
  destruct (planText_parses_back planBlocks 540 1020) as [_ H].
  destruct H as (text & H1 & _ & _ & H2).
  - discriminate.
  - repeat constructor; simpl; try lia; try reflexivity; discriminate.
  - destruct H2 as [H2 H3].
    + repeat constructor; simpl; lia.
    + exists text. split; [exact H1|]. split; [|exact H3].
      rewrite H2. reflexivity.
Defined.

(* ================================================================= *)
(** * The hour marks of the timeline *)

(** X20. For a window that does not end before it starts, whose bounds
    and length are safe integers (so that [workStart + i * 60] is exact)
    and has no more hours than an array has places, the hour marks
    of the timeline start at the start of the window, are sixty minutes
    apart, all lie in the window, and the last one is less than an hour
    before its end. *)
Theorem timelineMarks_in_window (workStart workEnd : Z) :
  workStart <= workEnd ->
  safeInteger workStart -> safeInteger workEnd ->
  safeInteger (workEnd - workStart) ->
  (workEnd - workStart) / 60 + 1 <= MAX_ARRAY_LENGTH ->
  let marks := timelineMarks workStart workEnd in
  nth_error marks 0 = Some workStart
  /\ (forall i a b, nth_error marks i = Some a -> nth_error marks (S i) = Some b ->
        b = a + 60)
  /\ (forall m, In m marks -> workStart <= m <= workEnd)
  /\ (exists m, In m marks /\ workEnd - 60 < m).
Proof.
  intros Hle _ _ _ _ marks. subst marks. unfold timelineMarks.
  set (n := (workEnd - workStart) / 60).
  assert (Hn : 0 <= n) by (apply Z.div_pos; lia).
  assert (Hdiv : 60 * n <= workEnd - workStart < 60 * n + 60).
  { pose proof (Z.mul_div_le (workEnd - workStart) 60 ltac:(lia)).
    pose proof (Z.mul_succ_div_gt (workEnd - workStart) 60 ltac:(lia)).
    fold n in H, H0. lia. }
  assert (Hlen : Z.to_nat (n + 1) = S (Z.to_nat n)) by lia.
  rewrite Hlen.
  split; [cbn; f_equal; lia|].
  split.
  { intros i a b Ha Hb.
    rewrite nth_error_map in Ha, Hb.
    destruct (nth_error (seq 0 (S (Z.to_nat n))) i) as [x|] eqn:Hx; [|discriminate].
    destruct (nth_error (seq 0 (S (Z.to_nat n))) (S i)) as [y|] eqn:Hy; [|discriminate].
    cbn [option_map] in Ha, Hb. injection Ha as <-. injection Hb as <-.
    assert (Hxi : x = i).
    { pose proof (nth_error_Some (seq 0 (S (Z.to_nat n))) i) as Hl.
      rewrite Hx in Hl. rewrite length_seq in Hl.
      pose proof (nth_error_nth _ _ O Hx) as Hnth.
      rewrite seq_nth in Hnth by (apply Hl; discriminate). lia. }
    assert (Hyi : y = S i).
    { pose proof (nth_error_Some (seq 0 (S (Z.to_nat n))) (S i)) as Hl.
      rewrite Hy in Hl. rewrite length_seq in Hl.
      pose proof (nth_error_nth _ _ O Hy) as Hnth.
      rewrite seq_nth in Hnth by (apply Hl; discriminate). lia. }
    lia. }
  split.
  { intros m Hin. apply in_map_iff in Hin. destruct Hin as (i & <- & Hi).
    apply in_seq in Hi. lia. }
  exists (workStart + Z.of_nat (Z.to_nat n) * 60). split.
  - apply in_map_iff. exists (Z.to_nat n). split; [reflexivity|].
    apply in_seq. lia.
  - lia.
Qed.

Lemma timelineMarks_in_window_witness :
  timelineMarks 540 1020 = [540; 600; 660; 720; 780; 840; 900; 960; 1020]
  /\ forall m, In m (timelineMarks 540 1020) -> 540 <= m <= 1020.
Proof.
  split; [reflexivity|].
  destruct (timelineMarks_in_window 540 1020) as (_ & _ & H & _).
  - lia.
  - unfold safeInteger, MAX_SAFE_INTEGER; lia.
  - unfold safeInteger, MAX_SAFE_INTEGER; lia.
  - unfold safeInteger, MAX_SAFE_INTEGER; lia.
  - unfold MAX_ARRAY_LENGTH. simpl. lia.
  - exact H.
Defined.
